(** * Users/Tasks API: query-options parser and assignment synchronizer

    A shallow embedding of the request handlers of the Users/Tasks service
    (the api route module together with the User and Task schemas) and the
    proofs of the properties stated about them.

    Layout:
    - [JS]      JavaScript values as the handlers see them, and the
                coercions the code applies to them;
    - [Runtime] the built-ins the code calls but does not define
                (string-to-number conversion, JSON and date parsing, the
                store's id validator and its cast of a text to an
                ObjectId, filter matching, sorting, schema casts, and
                the reads the store refuses);
    - the parameter parsers and [buildQueryOptions];
    - the document store and the handlers, in a state-and-exception monad:
      a filter on [_id] goes through the cast, the String paths
      [assignedUser] and [pendingTasks] are compared as texts;
    - the theorems. *)

From Stdlib Require Import String Ascii List Bool Arith ZArith QArith Qabs Lia.
Import ListNotations.
Close Scope Q_scope.
Local Open Scope string_scope.
Local Open Scope list_scope.

(* ===================================================================== *)
(** * JavaScript values *)
(* ===================================================================== *)

Set Warnings "-register-all".

(** A JavaScript number: NaN, an infinity, or a finite value.  Finite
    doubles are rationals, so a finite number carries a rational; the two
    zeros are identified, since every operation the handlers apply
    (integrality, sign test, [=== 0], truthiness) treats them alike. *)
Inductive JSNumber : Type :=
| NaN
| Infinity (negative : bool)
| Finite (q : Q).

Inductive JSValue : Type :=
| JUndefined
| JNull
| JBool (b : bool)
| JNum (n : JSNumber)
| JStr (s : string)
| JArr (items : list JSValue)
| JObj (fields : list (string * JSValue)).

Module JS.

Definition num_of_Z (z : Z) : JSNumber := Finite (inject_Z z).

(** [Number.isInteger]. *)
Definition isInteger (n : JSNumber) : bool :=
  match n with
  | Finite q => (Qnum q mod Zpos (Qden q) =? 0)%Z
  | _ => false
  end.

(** [n < 0]. *)
Definition ltZero (n : JSNumber) : bool :=
  match n with
  | NaN => false
  | Infinity neg => neg
  | Finite q => (Qnum q <? 0)%Z
  end.

(** [n === 0]. *)
Definition isZero (n : JSNumber) : bool :=
  match n with
  | Finite q => (Qnum q =? 0)%Z
  | _ => false
  end.

Definition isNaN (n : JSNumber) : bool :=
  match n with NaN => true | _ => false end.

Definition isFinite (n : JSNumber) : bool :=
  match n with Finite _ => true | _ => false end.

(** The integer part of a finite number, rounding toward zero. *)
Definition truncate (q : Q) : Z := Z.quot (Qnum q) (Zpos (Qden q)).

(** [Boolean(v)]: the falsy values are undefined, null, false, zero, NaN
    and the empty string; every object, the empty array and the empty
    object included, is truthy. *)
Definition truthy (v : JSValue) : bool :=
  match v with
  | JUndefined | JNull => false
  | JBool b => b
  | JNum n => negb (isZero n || isNaN n)
  | JStr s => negb (s =? "")
  | JArr _ | JObj _ => true
  end.

Definition isArray (v : JSValue) : bool :=
  match v with JArr _ => true | _ => false end.

Definition isUndefined (v : JSValue) : bool :=
  match v with JUndefined => true | _ => false end.

(** [String.prototype.toLowerCase] on the ASCII letters.  Bytes outside
    A-Z are kept: no character outside ASCII lower-cases to one of the
    letters of "true" or "false", so the comparisons the parsers make
    are not affected. *)
Definition lowerAscii (c : ascii) : ascii :=
  let n := nat_of_ascii c in
  if (65 <=? n)%nat && (n <=? 90)%nat then ascii_of_nat (n + 32) else c.

Fixpoint toLowerCase (s : string) : string :=
  match s with
  | EmptyString => EmptyString
  | String c rest => String (lowerAscii c) (toLowerCase rest)
  end.

Fixpoint join (sep : string) (l : list string) : string :=
  match l with
  | [] => ""
  | [x] => x
  | x :: rest => x ++ sep ++ join sep rest
  end.

End JS.

(* ===================================================================== *)
(** * Errors and results *)
(* ===================================================================== *)

(** What the handlers can throw: an error made by [createError] (it carries
    an HTTP status), the store's schema-validation and cast errors, the
    store's duplicate-key error (code 11000), and any other exception (a
    TypeError of the query builder, say), of which only the name is
    kept. *)
Inductive JSError : Type :=
| HttpError (status : nat) (message : string)
| ValidationError (message : string)
| CastError (path : string)
| DuplicateKey
| Exception (name : string).

(** A text between double quotes, as the messages show parameter names. *)
Definition quoted (s : string) : string :=
  String (ascii_of_nat 34) (s ++ String (ascii_of_nat 34) EmptyString).

Definition createError (status : nat) (message : string) : JSError :=
  HttpError status message.

Inductive Result (A : Type) : Type :=
| Ok (a : A)
| Throw (e : JSError).
Arguments Ok {A} a.
Arguments Throw {A} e.

Definition rbind {A B} (r : Result A) (k : A -> Result B) : Result B :=
  match r with
  | Ok a => k a
  | Throw e => Throw e
  end.

Declare Scope result_scope.
Delimit Scope result_scope with result.
Notation "'let?' x ':=' r 'in' k" := (rbind r (fun x => k))
  (at level 10, x name, r at level 100, k at level 200) : result_scope.

(** [BadRequest]: an error of status 400. *)
Definition isBadRequest {A} (r : Result A) : Prop :=
  exists message, r = Throw (HttpError 400 message).

(* ===================================================================== *)
(** * Documents *)
(* ===================================================================== *)

(** The value of a schema path of a document in memory: nothing assigned
    (undefined or null), a value the schema type could not cast, or the
    cast value.  The store accepts a document only if no path is
    [Uncastable] and every required path holds a value. *)
Inductive Field (A : Type) : Type :=
| Absent
| Uncastable
| Value (a : A).
Arguments Absent {A}.
Arguments Uncastable {A}.
Arguments Value {A} a.

(** The User schema.  Ids are the string form of the store's object ids;
    [dateCreated] is set by the store and read by no handler, and is left
    out. *)
Record User : Type := mkUser {
  u_id : string;
  u_name : Field string;
  u_email : Field string;
  pendingTasks : list string
}.

(** The Task schema; a date is its time value in milliseconds.
    [assignedUser] is a String path: the handlers write to it the empty
    text or [userDoc._id.toString()], the text of a user's ObjectId. *)
Record Task : Type := mkTask {
  t_id : string;
  t_name : Field string;
  description : Field string;
  deadline : option Z;
  completed : bool;
  assignedUser : string;
  assignedUserName : Field string
}.

(** ** Reads of a collection *)

(** A query under construction: [find(filter)] and what was chained on. *)
Record FindQuery : Type := mkFindQuery {
  fq_filter : JSValue;
  fq_select : option JSValue;
  fq_sort : option JSValue;
  fq_skip : option JSNumber;
  fq_limit : option JSNumber
}.

(** The reads the routes ask of a model: [countDocuments(filter)], a
    [find] query with what was chained on, and [findById] with the
    projection chained on, if any. *)
Inductive StoreRead : Type :=
| CountOf (filter : JSValue)
| FindOf (query : FindQuery)
| FindByIdOf (select : option JSValue).

(** What a read throws instead of answering: a CastError, for a filter
    the schema cannot cast, or another exception, for an argument the
    query builder refuses. *)
Inductive QueryFault : Type :=
| CastFault (path : string)
| OtherFault (name : string).

Definition faultError (fault : QueryFault) : JSError :=
  match fault with
  | CastFault path => CastError path
  | OtherFault name => Exception name
  end.

(* ===================================================================== *)
(** * The runtime the handlers rely on *)
(* ===================================================================== *)

(** Built-ins of the language and of the store driver that the route
    module calls and does not define.  The theorems hold for every
    implementation of them. *)
Class Runtime : Type := {
  (** [Number(s)] on a string. *)
  stringToNumber : string -> JSNumber;
  (** [String(n)] on a number. *)
  numberToString : JSNumber -> string;
  (** [JSON.parse]; [None] when it throws. *)
  JSON_parse : string -> option JSValue;
  (** The time value of [new Date(s)] on a string; [None] for an invalid
      date. *)
  Date_parse : string -> option Z;
  (** [mongoose.Types.ObjectId.isValid]. *)
  ObjectId_isValid : string -> bool;
  (** The ObjectId a text is cast to where the schema asks for one (the
      [_id] of a filter), as the text [toString()] gives it; [None] when
      the cast fails.  The cast does not mind the case of the digits a-f,
      where [toString()] writes them in lower case. *)
  castObjectId : string -> option string;
  (** The String schema type applied to an assigned value: the cast, then
      the path's [trim] setter (and [lowercase], for an email). *)
  castString : JSValue -> Field string;
  castEmail : JSValue -> Field string;
  (** Whether a document matches a [where] filter, and the order a [sort]
      document asks for. *)
  userMatches : JSValue -> User -> bool;
  taskMatches : JSValue -> Task -> bool;
  sortUsers : JSValue -> list User -> list User;
  sortTasks : JSValue -> list Task -> list Task;
  (** What a read of the collection throws, if it throws: the store casts
      the filter to the schema and checks the arguments chained on before
      it answers. *)
  userReadFault : StoreRead -> option QueryFault;
  taskReadFault : StoreRead -> option QueryFault
}.

Section Parsers.
Context {rt : Runtime}.

(** [String(v)]. *)
Fixpoint js_String (v : JSValue) : string :=
  match v with
  | JUndefined => "undefined"
  | JNull => "null"
  | JBool true => "true"
  | JBool false => "false"
  | JNum n => numberToString n
  | JStr s => s
  | JArr items =>
      JS.join ","
        (map (fun item =>
                match item with
                | JUndefined | JNull => ""
                | _ => js_String item
                end) items)
  | JObj _ => "[object Object]"
  end.

(** [Number(v)]. *)
Definition js_Number (v : JSValue) : JSNumber :=
  match v with
  | JUndefined => NaN
  | JNull => JS.num_of_Z 0
  | JBool true => JS.num_of_Z 1
  | JBool false => JS.num_of_Z 0
  | JNum n => n
  | JStr s => stringToNumber s
  | JArr _ => stringToNumber (js_String v)
  | JObj _ => NaN
  end.

(** The time value of [new Date(n)] for a number: invalid unless [n] is
    finite and within 8.64e15 ms of the epoch, else [n] truncated. *)
Definition dateOfNumber (n : JSNumber) : option Z :=
  match n with
  | Finite q =>
      if Qle_bool (Qabs q) (inject_Z 8640000000000000)
      then Some (JS.truncate q) else None
  | _ => None
  end.

Definition parseJSONParam (value : JSValue) (paramName : string)
  : Result JSValue :=
  if JS.isUndefined value then Ok JUndefined
  else match JSON_parse (js_String value) with
       | Some v => Ok v
       | None =>
           Throw (createError 400
                    ("Invalid JSON in " ++ quoted paramName ++ " parameter"))
       end.

Definition parseNumberParam (value : JSValue) (paramName : string)
  : Result (option JSNumber) :=
  if JS.isUndefined value then Ok None
  else
    let parsed := js_Number value in
    if negb (JS.isInteger parsed) || JS.ltZero parsed
    then Throw (createError 400
                  ("Parameter " ++ quoted paramName
                     ++ " must be a non-negative integer"))
    else Ok (Some parsed).

Definition parseCountParam (value : JSValue) : bool :=
  match value with
  | JUndefined => false
  | JBool b => b
  | JStr s => JS.toLowerCase s =? "true"
  | _ => false
  end.

Definition parseBoolean (value : JSValue) (defaultValue : bool) : bool :=
  match value with
  | JUndefined | JNull => defaultValue
  | JBool b => b
  | JStr s =>
      let lower := JS.toLowerCase s in
      if lower =? "true" then true
      else if lower =? "false" then false
      else JS.truthy value
  | _ => JS.truthy value
  end.

(** [new Date(value)] as [parseDateValue] builds it: from a number, from
    a string that reads as a finite number, or from the date text. *)
Definition parseDateValue (value : JSValue) (fieldName : string)
  : Result (option Z) :=
  match value with
  | JUndefined | JNull | JStr "" => Ok None
  | _ =>
      let date :=
        match value with
        | JNum n => dateOfNumber n
        | JStr s =>
            let numValue := stringToNumber s in
            if negb (JS.isNaN numValue) && JS.isFinite numValue
            then dateOfNumber numValue
            else Date_parse s
        | JArr _ | JObj _ => Date_parse (js_String value)
        | _ => dateOfNumber (js_Number value)
        end in
      match date with
      | None =>
          Throw (createError 400
                   ("Invalid date supplied for " ++ quoted fieldName))
      | Some time => Ok (Some time)
      end
  end.

(** ** Query options *)

(** [req.query]: a parameter that is not given is [JUndefined]. *)
Record Query : Type := mkQuery {
  q_where : JSValue;
  q_sort : JSValue;
  q_select : JSValue;
  q_filter : JSValue;
  q_skip : JSValue;
  q_limit : JSValue;
  q_count : JSValue
}.

(** The [options] argument: [{}] or [{ defaultLimit: n }]. *)
Record Options : Type := mkOptions {
  defaultLimit : option JSNumber
}.

(** The descriptor [buildQueryOptions] returns; [None] is [undefined]. *)
Record QueryOptions : Type := mkQueryOptions {
  qo_filter : JSValue;
  qo_sort : JSValue;
  qo_select : JSValue;
  qo_skip : option JSNumber;
  qo_limit : option JSNumber;
  qo_count : bool
}.

Local Open Scope result_scope.

Definition buildQueryOptions (query : Query) (options : Options)
  : Result QueryOptions :=
  let? parsedWhere := parseJSONParam (q_where query) "where" in
  let filter := if JS.truthy parsedWhere then parsedWhere else JObj [] in
  let? sort := parseJSONParam (q_sort query) "sort" in
  let selectParamName :=
    if negb (JS.isUndefined (q_select query)) then "select"
    else if negb (JS.isUndefined (q_filter query)) then "filter"
    else "select" in
  let selectValue :=
    if negb (JS.isUndefined (q_select query)) then q_select query
    else q_filter query in
  let? select := parseJSONParam selectValue selectParamName in
  let? skip := parseNumberParam (q_skip query) "skip" in
  let? limit := parseNumberParam (q_limit query) "limit" in
  let count := parseCountParam (q_count query) in
  if count && JS.truthy select
  then Throw (createError 400
                ("Cannot use " ++ quoted "select" ++ " parameter when "
                   ++ quoted "count" ++ " is true"))
  else
    let limit :=
      if negb count then
        match limit, defaultLimit options with
        | None, Some d => Some d
        | _, _ => limit
        end
      else None in
    Ok (mkQueryOptions filter sort select skip limit count).

(** ** Id lists *)

(** [new Set(items)] read back with [Array.from]: the distinct items in
    the order of their first insertion. *)
Definition setAdd (seen : list string) (item : string) : list string :=
  if existsb (String.eqb item) seen then seen else seen ++ [item].

Definition arrayFromSet (items : list string) : list string :=
  fold_left setAdd items [].

Definition isBlank (value : JSValue) : bool :=
  match value with
  | JUndefined | JNull | JStr "" => true
  | _ => false
  end.

(** The [forEach] that throws at the first id the store rejects. *)
Fixpoint checkIds (fieldName : string) (ids : list string) : Result unit :=
  match ids with
  | [] => Ok tt
  | id :: rest =>
      if negb (ObjectId_isValid id)
      then Throw (createError 400
                    ("Invalid task id in " ++ quoted fieldName ++ " array"))
      else checkIds fieldName rest
  end.

Definition normalizeIdArray (values : JSValue) (fieldName : string)
  : Result (list string) :=
  match values with
  | JUndefined | JNull => Ok []
  | _ =>
      let values :=
        match values with
        | JArr items => items
        | _ => [values]
        end in
      let cleaned :=
        map js_String (filter (fun value => negb (isBlank value)) values) in
      let unique := arrayFromSet cleaned in
      let? _ := checkIds fieldName unique in
      Ok unique
  end.

End Parsers.

(* ===================================================================== *)
(** * The document store *)
(* ===================================================================== *)

(** The two collections, each in the store's natural (insertion) order.
    A document is stored under the text of its ObjectId ([_id.toString()]).
    A filter on [_id] is cast to an ObjectId before it is compared, so a
    text in another spelling finds the document too; the String paths
    [assignedUser] and [pendingTasks] are compared as texts. *)
Record Store : Type := mkStore {
  users : list User;
  tasks : list Task
}.

Definition emptyStore : Store := mkStore [] [].

Module Coll.

(** The update operators the handlers use on [pendingTasks]. *)
Definition pull (item : string) (l : list string) : list string :=
  filter (fun x => negb (x =? item)) l.

Definition addToSet (item : string) (l : list string) : list string :=
  if existsb (String.eqb item) l then l else l ++ [item].

Definition includes (ids : list string) (id : string) : bool :=
  existsb (String.eqb id) ids.

(** The documents stored under the ObjectId [id], for documents whose id
    is read by [key]: what a filter [{ _id: ... }] matches once its value
    is cast (see [toObjectId]). *)
Definition byId {D : Type} (key : D -> string) (id : string) (d : D) : bool :=
  key d =? id.

Section Generic.
Context {D : Type}.

(** [updateOne]: the first document that matches is updated. *)
Fixpoint updateOne (p : D -> bool) (f : D -> D) (l : list D) : list D :=
  match l with
  | [] => []
  | d :: rest =>
      if p d then f d :: rest else d :: updateOne p f rest
  end.

(** [updateMany]: every document that matches is updated. *)
Definition updateMany (p : D -> bool) (f : D -> D) (l : list D)
  : list D :=
  map (fun d => if p d then f d else d) l.

(** [deleteOne]: the first document that matches is removed. *)
Fixpoint deleteOne (p : D -> bool) (l : list D) : list D :=
  match l with
  | [] => []
  | d :: rest => if p d then rest else d :: deleteOne p rest
  end.

(** [save]: a document whose id is in the collection replaces the
    stored one, a new document is appended. *)
Definition save (p : D -> bool) (doc : D) (l : list D) : list D :=
  if existsb p l then updateOne p (fun _ => doc) l else l ++ [doc].
End Generic.

End Coll.

Definition hasUserId : string -> User -> bool := Coll.byId u_id.
Definition hasTaskId : string -> Task -> bool := Coll.byId t_id.

(** The document stored under an ObjectId. *)
Definition findUser (id : string) (s : Store) : option User :=
  find (hasUserId id) (users s).

Definition findTask (id : string) (s : Store) : option Task :=
  find (hasTaskId id) (tasks s).

Definition userIds (s : Store) : list string := map u_id (users s).
Definition taskIds (s : Store) : list string := map t_id (tasks s).

Definition setPendingTasks (ids : list string) (u : User) : User :=
  mkUser (u_id u) (u_name u) (u_email u) ids.

Definition setOwner (owner : string) (ownerName : Field string) (t : Task)
  : Task :=
  mkTask (t_id t) (t_name t) (description t) (deadline t) (completed t)
         owner ownerName.

Definition setCompleted (flag : bool) (t : Task) : Task :=
  mkTask (t_id t) (t_name t) (description t) (deadline t) flag
         (assignedUser t) (assignedUserName t).

Definition unassigned : Field string := Value "unassigned".

(** ** Schema validation *)

(** A required String path holds a non-empty string. *)
Definition requiredString (f : Field string) : bool :=
  match f with
  | Value s => negb (s =? "")
  | _ => false
  end.

Definition castable {A} (f : Field A) : bool :=
  match f with
  | Uncastable => false
  | _ => true
  end.

Definition validUser (u : User) : bool :=
  requiredString (u_name u) && requiredString (u_email u).

Definition validTask (t : Task) : bool :=
  requiredString (t_name t)
  && castable (description t)
  && match deadline t with Some _ => true | None => false end
  && castable (assignedUserName t).

(** The unique index on [email]: another document holds the same email. *)
Definition emailTaken (doc : User) (l : list User) : bool :=
  existsb (fun u =>
             negb (u_id u =? u_id doc)
             && match u_email u, u_email doc with
                | Value e, Value e' => e =? e'
                | _, _ => false
                end) l.

(* ===================================================================== *)
(** * Handlers: state and exceptions *)
(* ===================================================================== *)

(** A computation reads and writes the store and returns or throws.  What
    it wrote before it threw stays written: the store has no
    multi-document transaction. *)
Definition M (A : Type) : Type := Store -> Result A * Store.

Definition ret {A} (a : A) : M A := fun s => (Ok a, s).

Definition bind {A B} (c : M A) (k : A -> M B) : M B :=
  fun s =>
    match c s with
    | (Ok a, s') => k a s'
    | (Throw e, s') => (Throw e, s')
    end.

Definition throw {A} (e : JSError) : M A := fun s => (Throw e, s).

Definition lift {A} (r : Result A) : M A := fun s => (r, s).

Definition gets {A} (f : Store -> A) : M A := fun s => (Ok (f s), s).

Definition modify (f : Store -> Store) : M unit := fun s => (Ok tt, f s).

Definition when (b : bool) (c : M unit) : M unit :=
  if b then c else ret tt.

Declare Scope monad_scope.
Delimit Scope monad_scope with monad.
Notation "x <- c ;; k" := (bind c (fun x => k))
  (at level 61, c at next level, right associativity) : monad_scope.
Notation "c ;; k" := (bind c (fun _ => k))
  (at level 61, right associativity) : monad_scope.

(** ** Responses *)

Inductive Data : Type :=
| DEmpty                                         (* {} *)
| DCount (n : nat)
| DUsers (select : option JSValue) (docs : list User)
| DTasks (select : option JSValue) (docs : list Task)
| DUser (doc : option User)
| DTask (doc : option Task).

Inductive Response : Type :=
| Json (status : nat) (message : string) (data : Data)
| NoContent.                                     (* res.status(204).send() *)

Definition sendResponse (status : nat) (message : string) (data : Data)
  : Response :=
  Json status message data.

Definition handleError (error : JSError) : Response :=
  match error with
  | HttpError (S _ as status) message => sendResponse status message DEmpty
  | ValidationError message => sendResponse 400 message DEmpty
  | CastError path =>
      sendResponse 400 ("Invalid value for field " ++ quoted path) DEmpty
  | _ => sendResponse 500 "Internal server error" DEmpty
  end.

(** The handlers of the user routes catch the duplicate-key error first. *)
Definition handleUserError (error : JSError) : Response :=
  match error with
  | DuplicateKey => sendResponse 400 "Email already exists" DEmpty
  | _ => handleError error
  end.

(** [try { ... } catch (error) { ... }] around a handler body. *)
Definition tryCatch (body : M Response) (onError : JSError -> Response)
  : Store -> Response * Store :=
  fun s =>
    match body s with
    | (Ok response, s') => (response, s')
    | (Throw error, s') => (onError error, s')
    end.

Definition statusOf (r : Response) : nat :=
  match r with
  | Json status _ _ => status
  | NoContent => 204
  end.

(** ** Request bodies *)

Record UserBody : Type := mkUserBody {
  ub_name : JSValue;
  ub_email : JSValue;
  ub_pendingTasks : JSValue
}.

Record TaskBody : Type := mkTaskBody {
  tb_name : JSValue;
  tb_description : JSValue;
  tb_deadline : JSValue;
  tb_completed : JSValue;
  tb_assignedUser : JSValue
}.

Section Synchronizer.
Context {rt : Runtime}.
Local Open Scope monad_scope.

(** ** Store operations *)

Definition onUsers (f : list User -> list User) : M unit :=
  modify (fun s => mkStore (f (users s)) (tasks s)).

Definition onTasks (f : list Task -> list Task) : M unit :=
  modify (fun s => mkStore (users s) (f (tasks s))).

(** The ObjectId the [_id] of a filter is cast to, given the ids of the
    collection.  The text a document is stored under is the text of an
    ObjectId and is cast to itself; any other text goes through the
    cast. *)
Definition toObjectId (stored : list string) (id : string) : option string :=
  if Coll.includes stored id then Some id else castObjectId id.

(** The cast of a filter [{ _id: id }]; it throws the store's CastError
    when the text is no ObjectId. *)
Definition castId (stored : Store -> list string) (id : string) : M string :=
  fun s =>
    match toObjectId (stored s) id with
    | Some oid => (Ok oid, s)
    | None => (Throw (CastError "_id"), s)
    end.

(** The cast of a filter [{ _id: { $in: ids } }]. *)
Fixpoint castIds (stored : Store -> list string) (ids : list string)
  : M (list string) :=
  match ids with
  | [] => ret []
  | id :: rest =>
      oid <- castId stored id ;;
      oids <- castIds stored rest ;;
      ret (oid :: oids)
  end.

(** [findById] on the ObjectId of a document in memory ([doc._id]). *)
Definition User_findByObjectId (oid : string) : M (option User) :=
  gets (findUser oid).

Definition Task_findByObjectId (oid : string) : M (option Task) :=
  gets (findTask oid).

(** [findById] on a text of the request. *)
Definition User_findById (id : string) : M (option User) :=
  oid <- castId userIds id ;;
  User_findByObjectId oid.

Definition Task_findById (id : string) : M (option Task) :=
  oid <- castId taskIds id ;;
  Task_findByObjectId oid.

(** [Task.find({ _id: { $in: ids } })]. *)
Definition Task_findIn (ids : list string) : M (list Task) :=
  oids <- castIds taskIds ids ;;
  gets (fun s => filter (fun t => Coll.includes oids (t_id t)) (tasks s)).

Definition User_save (doc : User) : M unit :=
  fun s =>
    if negb (validUser doc)
    then (Throw (ValidationError "User validation failed"), s)
    else if emailTaken doc (users s)
    then (Throw DuplicateKey, s)
    else (Ok tt,
          mkStore (Coll.save (hasUserId (u_id doc)) doc (users s))
                  (tasks s)).

Definition Task_save (doc : Task) : M unit :=
  fun s =>
    if negb (validTask doc)
    then (Throw (ValidationError "Task validation failed"), s)
    else (Ok tt,
          mkStore (users s)
                  (Coll.save (hasTaskId (t_id doc)) doc (tasks s))).

(** ** The synchronizer *)

Definition ensureTasksExist (taskIds : list string) : M (list Task) :=
  if (length taskIds =? 0)%nat then ret []
  else
    found <- Task_findIn taskIds ;;
    if negb (length found =? length taskIds)%nat
    then throw (createError 400
                  "One or more tasks in pendingTasks do not exist")
    else ret found.

(** [removeTaskFromUser] and [addTaskToUser].  Every caller passes as
    [userId] the [assignedUser] of a task, which the handlers set to
    [userDoc._id.toString()] and to nothing else: the text of an ObjectId,
    which the cast of the filter [{ _id: userId }] leaves as it is (see
    [served_canonicalStore]); the user is looked up under that text.
    [$pull] and [$addToSet] compare
    [taskId] with the entries of the String array as texts: no cast
    applies to them. *)
Definition removeTaskFromUser (taskId userId : string) : M unit :=
  if userId =? "" then ret tt
  else onUsers (Coll.updateOne (hasUserId userId)
                  (fun u => setPendingTasks
                              (Coll.pull taskId (pendingTasks u)) u)).

Definition addTaskToUser (taskId userId : string) : M unit :=
  if userId =? "" then ret tt
  else onUsers (Coll.updateOne (hasUserId userId)
                  (fun u => setPendingTasks
                              (Coll.addToSet taskId (pendingTasks u)) u)).

(** The loop of [syncUserPendingTasks] over the tasks it has fetched. *)
Fixpoint ensureOwned (userId : string) (userName : Field string)
         (fetched : list Task) : M unit :=
  match fetched with
  | [] => ret tt
  | task :: rest =>
      let previousUserId := assignedUser task in
      when (negb (previousUserId =? "") && negb (previousUserId =? userId))
           (removeTaskFromUser (t_id task) previousUserId) ;;
      let task := setOwner userId userName task in
      let task := if completed task then setCompleted false task else task in
      Task_save task ;;
      ensureOwned userId userName rest
  end.

(** The removed pass of [syncUserPendingTasks]: the bulk update of the
    tasks named in [removed] that point at the user. *)
Definition removedPass (userId : string) (removed : list string) : M unit :=
  when (negb (length removed =? 0)%nat)
       (oids <- castIds taskIds removed ;;
        onTasks (Coll.updateMany
                   (fun t => Coll.includes oids (t_id t)
                             && (assignedUser t =? userId))
                   (setOwner "" unassigned))).

(** Its current pass: the tasks named in [toEnsure] are fetched and made
    to point at the user. *)
Definition currentPass (userDoc : User) (toEnsure : list string) : M unit :=
  when (negb (length toEnsure =? 0)%nat)
       (fetched <- Task_findIn toEnsure ;;
        ensureOwned (u_id userDoc) (u_name userDoc) fetched).

Definition syncUserPendingTasks (userDoc : User)
           (previousPending : list string) : M unit :=
  let userId := u_id userDoc in
  let previousIds := previousPending in
  let currentIds := pendingTasks userDoc in
  let removed :=
    filter (fun id => negb (Coll.includes currentIds id)) previousIds in
  let toEnsure := currentIds in
  removedPass userId removed ;;
  currentPass userDoc toEnsure.

(** [unassignTask] and [assignTask] write to the document in memory;
    they return it.  Their guards against a null document are left out:
    every call passes documents that were just found or built. *)
Definition unassignTask (taskDoc : Task) : M Task :=
  let currentUserId := assignedUser taskDoc in
  when (negb (currentUserId =? ""))
       (removeTaskFromUser (t_id taskDoc) currentUserId) ;;
  ret (setOwner "" unassigned taskDoc).

Definition assignTask (taskDoc : Task) (userDoc : User) : M Task :=
  let userId := u_id userDoc in
  when (negb (assignedUser taskDoc =? "")
        && negb (assignedUser taskDoc =? userId))
       (removeTaskFromUser (t_id taskDoc) (assignedUser taskDoc)) ;;
  ret (setOwner userId (u_name userDoc) taskDoc).

End Synchronizer.

(* ===================================================================== *)
(** * The list routes *)
(* ===================================================================== *)

(** The operations a list handler calls on its model, in order. *)
Inductive StoreCall : Type :=
| CountDocuments
| Find.

Definition findQuery (filter : JSValue) : FindQuery :=
  mkFindQuery filter None None None None.

Definition chainSelect (v : JSValue) (q : FindQuery) : FindQuery :=
  mkFindQuery (fq_filter q) (Some v) (fq_sort q) (fq_skip q) (fq_limit q).

Definition chainSort (v : JSValue) (q : FindQuery) : FindQuery :=
  mkFindQuery (fq_filter q) (fq_select q) (Some v) (fq_skip q) (fq_limit q).

Definition chainSkip (n : JSNumber) (q : FindQuery) : FindQuery :=
  mkFindQuery (fq_filter q) (fq_select q) (fq_sort q) (Some n) (fq_limit q).

Definition chainLimit (n : JSNumber) (q : FindQuery) : FindQuery :=
  mkFindQuery (fq_filter q) (fq_select q) (fq_sort q) (fq_skip q) (Some n).

(** A non-negative integer number as a count of documents. *)
Definition countOf (n : JSNumber) : nat :=
  match n with
  | Finite q => Z.to_nat (JS.truncate q)
  | _ => 0
  end.

(** [exec]: match, sort, skip, limit.  The store reads a limit of 0 as no
    limit. *)
Definition execQuery {D : Type} (matches : JSValue -> D -> bool)
           (sortBy : JSValue -> list D -> list D) (coll : list D)
           (q : FindQuery) : list D :=
  let found := filter (matches (fq_filter q)) coll in
  let sorted :=
    match fq_sort q with
    | Some order => sortBy order found
    | None => found
    end in
  let skipped :=
    match fq_skip q with
    | Some n => skipn (countOf n) sorted
    | None => sorted
    end in
  match fq_limit q with
  | Some n => if (countOf n =? 0)%nat then skipped
              else firstn (countOf n) skipped
  | None => skipped
  end.

Section ListRoutes.
Context {rt : Runtime}.

(** The chain of [if]s that adds select, sort, skip and limit. *)
Definition chainOptions (queryOptions : QueryOptions) (query : FindQuery)
  : FindQuery :=
  let query :=
    if JS.truthy (qo_select queryOptions)
    then chainSelect (qo_select queryOptions) query else query in
  let query :=
    if JS.truthy (qo_sort queryOptions)
    then chainSort (qo_sort queryOptions) query else query in
  let query :=
    match qo_skip queryOptions with
    | Some n => chainSkip n query
    | None => query
    end in
  match qo_limit queryOptions with
  | Some n => chainLimit n query
  | None => query
  end.

(** GET /users.  Returns the response and the operations called on the
    model; an operation the store refuses throws, and the error goes to
    [handleError]. *)
Definition users_get (query : Query) (s : Store)
  : Response * list StoreCall :=
  match buildQueryOptions query (mkOptions None) with
  | Throw error => (handleError error, [])
  | Ok queryOptions =>
      if qo_count queryOptions then
        match userReadFault (CountOf (qo_filter queryOptions)) with
        | Some fault => (handleError (faultError fault), [CountDocuments])
        | None =>
            let count :=
              length (filter (userMatches (qo_filter queryOptions))
                             (users s)) in
            (sendResponse 200 "OK" (DCount count), [CountDocuments])
        end
      else
        let query :=
          chainOptions queryOptions (findQuery (qo_filter queryOptions)) in
        match userReadFault (FindOf query) with
        | Some fault => (handleError (faultError fault), [Find])
        | None =>
            let found := execQuery userMatches sortUsers (users s) query in
            (sendResponse 200 "OK" (DUsers (fq_select query) found), [Find])
        end
  end.

(** GET /tasks. *)
Definition tasks_get (query : Query) (s : Store)
  : Response * list StoreCall :=
  match buildQueryOptions query (mkOptions (Some (JS.num_of_Z 100))) with
  | Throw error => (handleError error, [])
  | Ok queryOptions =>
      if qo_count queryOptions then
        match taskReadFault (CountOf (qo_filter queryOptions)) with
        | Some fault => (handleError (faultError fault), [CountDocuments])
        | None =>
            let count :=
              length (filter (taskMatches (qo_filter queryOptions))
                             (tasks s)) in
            (sendResponse 200 "OK" (DCount count), [CountDocuments])
        end
      else if match qo_limit queryOptions with
              | Some n => JS.isZero n
              | None => false
              end
      then (sendResponse 200 "OK" (DTasks None []), [])
      else
        let query :=
          chainOptions queryOptions (findQuery (qo_filter queryOptions)) in
        match taskReadFault (FindOf query) with
        | Some fault => (handleError (faultError fault), [Find])
        | None =>
            let found := execQuery taskMatches sortTasks (tasks s) query in
            (sendResponse 200 "OK" (DTasks (fq_select query) found), [Find])
        end
  end.

End ListRoutes.

(* ===================================================================== *)
(** * The mutation routes *)
(* ===================================================================== *)

Section Routes.
Context {rt : Runtime}.
Local Open Scope monad_scope.

(** [req.body.pendingTasks || []]. *)
Definition pendingTasksOf (body : UserBody) : JSValue :=
  if JS.truthy (ub_pendingTasks body) then ub_pendingTasks body
  else JArr [].

(** [req.body.assignedUser ? String(req.body.assignedUser) : ''] *)
Definition assignedUserOf (body : TaskBody) : string :=
  if JS.truthy (tb_assignedUser body) then js_String (tb_assignedUser body)
  else "".

(** [req.body.description === undefined ? '' : req.body.description] *)
Definition descriptionOf (body : TaskBody) : Field string :=
  if JS.isUndefined (tb_description body) then Value ""
  else castString (tb_description body).

(** The lookup of the user named by [assignedUser]; [None] is the
    handler's [userDoc = null]. *)
Definition findAssignedUser (assignedUserId : string) : M (option User) :=
  if negb (assignedUserId =? "") then
    if negb (ObjectId_isValid assignedUserId)
    then throw (createError 400 "Invalid user id in assignedUser")
    else
      userDoc <- User_findById assignedUserId ;;
      match userDoc with
      | None => throw (createError 400 "Assigned user does not exist")
      | Some _ => ret userDoc
      end
  else ret None.

(** POST /users.  [newId] is the id the store gives the new document. *)
Definition users_post (newId : string) (body : UserBody)
  : Store -> Response * Store :=
  tryCatch
    (pendingTaskIds <-
       lift (normalizeIdArray (pendingTasksOf body) "pendingTasks") ;;
     ensureTasksExist pendingTaskIds ;;
     let user :=
       mkUser newId (castString (ub_name body)) (castEmail (ub_email body))
              pendingTaskIds in
     User_save user ;;
     syncUserPendingTasks user [] ;;
     createdUser <- User_findByObjectId (u_id user) ;;
     ret (sendResponse 201 "User created" (DUser createdUser)))
    handleUserError.

(** PUT /users/:id. *)
Definition users_put (userId : string) (body : UserBody)
  : Store -> Response * Store :=
  tryCatch
    (if negb (ObjectId_isValid userId)
     then throw (createError 400 "Invalid user id")
     else
       found <- User_findById userId ;;
       match found with
       | None => throw (createError 404 "User not found")
       | Some user =>
           let previousPending := pendingTasks user in
           pendingTaskIds <-
             lift (normalizeIdArray (pendingTasksOf body) "pendingTasks") ;;
           ensureTasksExist pendingTaskIds ;;
           let user :=
             mkUser (u_id user) (castString (ub_name body))
                    (castEmail (ub_email body)) pendingTaskIds in
           User_save user ;;
           syncUserPendingTasks user previousPending ;;
           updatedUser <- User_findById userId ;;
           ret (sendResponse 200 "User updated" (DUser updatedUser))
       end)
    handleUserError.

(** DELETE /users/:id. *)
Definition users_delete (userId : string) : Store -> Response * Store :=
  tryCatch
    (if negb (ObjectId_isValid userId)
     then throw (createError 400 "Invalid user id")
     else
       found <- User_findById userId ;;
       match found with
       | None => throw (createError 404 "User not found")
       | Some _ =>
           onTasks (Coll.updateMany (fun t => assignedUser t =? userId)
                                    (setOwner "" unassigned)) ;;
           oid <- castId userIds userId ;;
           onUsers (Coll.deleteOne (hasUserId oid)) ;;
           ret NoContent
       end)
    handleError.

(** POST /tasks.  [newId] is the id the store gives the new document. *)
Definition tasks_post (newId : string) (body : TaskBody)
  : Store -> Response * Store :=
  tryCatch
    (let assignedUserId := assignedUserOf body in
     userDoc <- findAssignedUser assignedUserId ;;
     let completedFlag := parseBoolean (tb_completed body) false in
     deadlineValue <- lift (parseDateValue (tb_deadline body) "deadline") ;;
     let task :=
       mkTask newId (castString (tb_name body)) (descriptionOf body)
              deadlineValue completedFlag "" unassigned in
     task <- match userDoc with
             | Some user => assignTask task user
             | None => ret task
             end ;;
     Task_save task ;;
     when (negb (assignedUser task =? "") && negb (completed task))
          (addTaskToUser (t_id task) (assignedUser task)) ;;
     createdTask <- Task_findByObjectId (t_id task) ;;
     ret (sendResponse 201 "Task created" (DTask createdTask)))
    handleError.

(** PUT /tasks/:id. *)
Definition tasks_put (taskId : string) (body : TaskBody)
  : Store -> Response * Store :=
  tryCatch
    (if negb (ObjectId_isValid taskId)
     then throw (createError 400 "Invalid task id")
     else
       found <- Task_findById taskId ;;
       match found with
       | None => throw (createError 404 "Task not found")
       | Some task =>
           let previousUserId := assignedUser task in
           let completedFlag := parseBoolean (tb_completed body) false in
           let assignedUserId := assignedUserOf body in
           deadlineValue <-
             lift (parseDateValue (tb_deadline body) "deadline") ;;
           userDoc <- findAssignedUser assignedUserId ;;
           let task :=
             mkTask (t_id task) (castString (tb_name body))
                    (descriptionOf body) deadlineValue completedFlag
                    (assignedUser task) (assignedUserName task) in
           task <- match userDoc with
                   | Some user => assignTask task user
                   | None => unassignTask task
                   end ;;
           Task_save task ;;
           when (negb (previousUserId =? "")
                 && negb (previousUserId
                            =? match userDoc with
                               | Some user => u_id user
                               | None => ""
                               end))
                (removeTaskFromUser taskId previousUserId) ;;
           when (negb (assignedUser task =? ""))
                (if completed task
                 then removeTaskFromUser taskId (assignedUser task)
                 else addTaskToUser taskId (assignedUser task)) ;;
           updatedTask <- Task_findById taskId ;;
           ret (sendResponse 200 "Task updated" (DTask updatedTask))
       end)
    handleError.

(** DELETE /tasks/:id. *)
Definition tasks_delete (taskId : string) : Store -> Response * Store :=
  tryCatch
    (if negb (ObjectId_isValid taskId)
     then throw (createError 400 "Invalid task id")
     else
       found <- Task_findById taskId ;;
       match found with
       | None => throw (createError 404 "Task not found")
       | Some task =>
           let assignedUserId := assignedUser task in
           oid <- castId taskIds taskId ;;
           onTasks (Coll.deleteOne (hasTaskId oid)) ;;
           when (negb (assignedUserId =? ""))
                (removeTaskFromUser taskId assignedUserId) ;;
           ret NoContent
       end)
    handleError.

End Routes.

(* ===================================================================== *)
(** * A runtime for worked examples *)
(* ===================================================================== *)

(** One implementation of [Runtime], used to run the handlers on concrete
    requests.  It agrees with the real built-ins on the inputs the examples
    use: decimal integers, two JSON texts, 24-digit hexadecimal ids. *)
Module Demo.

Definition isDigit (c : ascii) : bool :=
  let n := nat_of_ascii c in (48 <=? n)%nat && (n <=? 57)%nat.

Definition isHexDigit (c : ascii) : bool :=
  let n := nat_of_ascii c in
  isDigit c
  || ((65 <=? n)%nat && (n <=? 70)%nat)
  || ((97 <=? n)%nat && (n <=? 102)%nat).

Fixpoint digitsValue (s : string) (acc : Z) : option Z :=
  match s with
  | EmptyString => Some acc
  | String c rest =>
      if isDigit c
      then digitsValue rest (10 * acc + Z.of_nat (nat_of_ascii c - 48))%Z
      else None
  end.

(** Decimal integers (the empty string reads as 0); other texts as NaN. *)
Definition stringToNumber (s : string) : JSNumber :=
  match digitsValue s 0%Z with
  | Some z => JS.num_of_Z z
  | None => NaN
  end.

Fixpoint digitsOf (fuel : nat) (n : nat) (acc : string) : string :=
  match fuel with
  | O => acc
  | S fuel' =>
      let acc' := String (ascii_of_nat (48 + n mod 10)) acc in
      if (n / 10 =? 0)%nat then acc' else digitsOf fuel' (n / 10) acc'
  end.

Definition numberToString (n : JSNumber) : string :=
  match n with
  | NaN => "NaN"
  | Infinity true => "-Infinity"
  | Infinity false => "Infinity"
  | Finite q =>
      let z := JS.truncate q in
      let digits := digitsOf (S (Z.to_nat (Z.abs z))) (Z.to_nat (Z.abs z)) "" in
      if (z <? 0)%Z then "-" ++ digits else digits
  end.

Definition nameProjection : string := "{" ++ quoted "name" ++ ":1}".

(** A filter on [_id] with a value that is no id. *)
Definition badIdFilter : string :=
  "{" ++ quoted "_id" ++ ":" ++ quoted "bad" ++ "}".

Definition JSON_parse (s : string) : option JSValue :=
  if s =? "{}" then Some (JObj [])
  else if s =? nameProjection
  then Some (JObj [("name", JNum (JS.num_of_Z 1))])
  else if s =? badIdFilter
  then Some (JObj [("_id", JStr "bad")])
  else if s =? "null" then Some JNull
  else if s =? "5" then Some (JNum (JS.num_of_Z 5))
  else None.

Fixpoint allChars (p : ascii -> bool) (s : string) : bool :=
  match s with
  | EmptyString => true
  | String c rest => p c && allChars p rest
  end.

Definition ObjectId_isValid (s : string) : bool :=
  (String.length s =? 24)%nat && allChars isHexDigit s.

Definition castString (v : JSValue) : Field string :=
  match v with
  | JUndefined | JNull => Absent
  | JStr s => Value s
  | JNum n => Value (numberToString n)
  | JBool true => Value "true"
  | JBool false => Value "false"
  | JArr _ | JObj _ => Uncastable
  end.

Definition castEmail (v : JSValue) : Field string :=
  match castString v with
  | Value s => Value (JS.toLowerCase s)
  | other => other
  end.

(** The cast of a text of 24 hexadecimal digits: the digits, in lower
    case. *)
Definition castObjectId (s : string) : option string :=
  if ObjectId_isValid s then Some (JS.toLowerCase s) else None.

(** A filter is refused when it gives [_id] a text that is no id; a
    projection is refused when it is a number. *)
Definition filterFault (filter : JSValue) : option QueryFault :=
  match filter with
  | JObj [(key, JStr id)] =>
      if (key =? "_id") && negb (ObjectId_isValid id)
      then Some (CastFault "_id") else None
  | _ => None
  end.

Definition selectFault (select : option JSValue) : option QueryFault :=
  match select with
  | Some (JNum _) => Some (OtherFault "TypeError")
  | _ => None
  end.

Definition readFault (read : StoreRead) : option QueryFault :=
  match read with
  | CountOf filter => filterFault filter
  | FindOf query =>
      match selectFault (fq_select query) with
      | Some fault => Some fault
      | None => filterFault (fq_filter query)
      end
  | FindByIdOf select => selectFault select
  end.

Definition runtime : Runtime :=
  Build_Runtime stringToNumber numberToString JSON_parse (fun _ => None)
                ObjectId_isValid castObjectId castString castEmail
                (fun _ _ => true) (fun _ _ => true)
                (fun _ docs => docs) (fun _ docs => docs)
                readFault readFault.

(** Ids and documents of the examples. *)
Definition idA : string := "aaaaaaaaaaaaaaaaaaaaaaaa".
Definition idB : string := "bbbbbbbbbbbbbbbbbbbbbbbb".
Definition idT : string := "111111111111111111111111".
Definition idX : string := "222222222222222222222222".
Definition idC : string := "cccccccccccccccccccccccc".

(** The ids of Alice, Bob and the task idC as a client may spell them:
    the same ObjectIds, with the digits in upper case. *)
Definition idA' : string := "AAAAAAAAAAAAAAAAAAAAAAAA".
Definition idB' : string := "BBBBBBBBBBBBBBBBBBBBBBBB".
Definition idC' : string := "CCCCCCCCCCCCCCCCCCCCCCCC".

Definition alice (pending : list string) : User :=
  mkUser idA (Value "Alice") (Value "alice@example.org") pending.

Definition bob (pending : list string) : User :=
  mkUser idB (Value "Bob") (Value "bob@example.org") pending.

Definition task (id : string) (done : bool) (owner : string)
           (ownerName : Field string) : Task :=
  mkTask id (Value "Write report") (Value "") (Some 1700000000000%Z) done
         owner ownerName.

(** Alice owns two open tasks; Bob owns none. *)
Definition store : Store :=
  mkStore [alice [idT; idX]; bob []]
          [task idT false idA (Value "Alice");
           task idX false idA (Value "Alice")].

(** Alice owns a completed task, which is in no pending list. *)
Definition doneStore : Store :=
  mkStore [alice []; bob []] [task idT true idA (Value "Alice")].

(** Alice owns the open task idC; Bob owns none. *)
Definition storeC : Store :=
  mkStore [alice [idC]; bob []] [task idC false idA (Value "Alice")].

(** Alice owns the completed task idC, which is in no pending list. *)
Definition doneStoreC : Store :=
  mkStore [alice []; bob []] [task idC true idA (Value "Alice")].

(** A payload for PUT /tasks/:id with no [completed] field. *)
Definition taskBody (owner : JSValue) : TaskBody :=
  mkTaskBody (JStr "Write report") JUndefined
             (JNum (JS.num_of_Z 1700000000000)) JUndefined owner.

(** The same payload with [completed] true. *)
Definition doneBody (owner : JSValue) : TaskBody :=
  mkTaskBody (JStr "Write report") JUndefined
             (JNum (JS.num_of_Z 1700000000000)) (JBool true) owner.

End Demo.

(* ===================================================================== *)
(** * Specification-level definitions *)
(* ===================================================================== *)

(** The raw items [normalizeIdArray] works on: nothing for undefined or
    null, the items of an array, a lone value as a one-item list. *)
Definition itemsOf (values : JSValue) : list JSValue :=
  match values with
  | JUndefined | JNull => []
  | JArr items => items
  | _ => [values]
  end.

(** What [normalizeIdArray] cleans: the items that are not blank, as
    strings. *)
Definition cleanedIds {rt : Runtime} (values : JSValue) : list string :=
  map js_String (filter (fun value => negb (isBlank value)) (itemsOf values)).

(** De-duplication as the specification words it: each id is kept where
    it first occurs and dropped from the rest. *)
Fixpoint firstOccurrences (ids : list string) : list string :=
  match ids with
  | [] => []
  | id :: rest =>
      id :: filter (fun other => negb (other =? id)) (firstOccurrences rest)
  end.

(** The projection parameter that is read: [select], or [filter] when
    [select] is not given. *)
Definition projectionParam (query : Query) : JSValue :=
  if negb (JS.isUndefined (q_select query)) then q_select query
  else q_filter query.

Definition projectionParamName (query : Query) : string :=
  if negb (JS.isUndefined (q_select query)) then "select"
  else if negb (JS.isUndefined (q_filter query)) then "filter"
  else "select".

(** A value that reads as a boolean: a native boolean, or a string that
    is "true" or "false" up to letter case. *)
Definition booleanLike (value : JSValue) : bool :=
  match value with
  | JBool _ => true
  | JStr s => (JS.toLowerCase s =? "true") || (JS.toLowerCase s =? "false")
  | _ => false
  end.

(** ** The store after each primitive operation *)

(** The pending list of the user [u], when there is such a user. *)
Definition pendingOf (s : Store) (u : string) : option (list string) :=
  option_map pendingTasks (findUser u s).

(** [detach]: the task leaves the user's pending list; nothing happens for
    the empty user id. *)
Definition detach (taskId userId : string) (s : Store) : Store :=
  if userId =? "" then s
  else mkStore
         (Coll.updateOne (hasUserId userId)
            (fun u => setPendingTasks (Coll.pull taskId (pendingTasks u)) u)
            (users s))
         (tasks s).

(** [attach]: the task joins the user's pending list, once. *)
Definition attach (taskId userId : string) (s : Store) : Store :=
  if userId =? "" then s
  else mkStore
         (Coll.updateOne (hasUserId userId)
            (fun u => setPendingTasks (Coll.addToSet taskId (pendingTasks u)) u)
            (users s))
         (tasks s).

Definition putTask (doc : Task) (s : Store) : Store :=
  mkStore (users s) (Coll.save (hasTaskId (t_id doc)) doc (tasks s)).

Definition putUser (doc : User) (s : Store) : Store :=
  mkStore (Coll.save (hasUserId (u_id doc)) doc (users s)) (tasks s).

Definition clearOwners (p : Task -> bool) (s : Store) : Store :=
  mkStore (users s) (Coll.updateMany p (setOwner "" unassigned) (tasks s)).

Definition dropUser (userId : string) (s : Store) : Store :=
  mkStore (Coll.deleteOne (hasUserId userId) (users s)) (tasks s).

Definition dropTask (taskId : string) (s : Store) : Store :=
  mkStore (users s) (Coll.deleteOne (hasTaskId taskId) (tasks s)).

(** The document one turn of the loop of [syncUserPendingTasks] saves. *)
Definition owned (userId : string) (userName : Field string) (t : Task)
  : Task :=
  let t := setOwner userId userName t in
  if completed t then setCompleted false t else t.

(** One turn of that loop, as a function on the store. *)
Definition ownStep (userId : string) (userName : Field string)
           (s : Store) (t : Task) : Store :=
  putTask (owned userId userName t)
          (if negb (assignedUser t =? "") && negb (assignedUser t =? userId)
           then detach (t_id t) (assignedUser t) s else s).

(** ** Referential consistency *)

(** The invariant of the data model: a user's pending list holds a task
    exactly when the task points at that user and is not completed. *)
Definition consistent (s : Store) : Prop :=
  forall u t,
    In u (users s) -> In t (tasks s) ->
    (assignedUser t = u_id u /\ completed t = false
     <-> In (t_id t) (pendingTasks u)).

(** Its second half: a task without owner, or completed, is in no pending
    list. *)
Definition unownedNowhere (s : Store) : Prop :=
  forall t,
    In t (tasks s) ->
    assignedUser t = "" \/ completed t = true ->
    forall u, In u (users s) -> ~ In (t_id t) (pendingTasks u).

(** What holds of the store between requests, stated on documents found by
    id.  [hole u t] marks the pairs for which consistency is not claimed:
    none between requests, the tasks still to be visited while
    [syncUserPendingTasks] runs. *)
Record InvX (hole : string -> string -> Prop) (s : Store) : Prop := mkInvX {
  inv_users : NoDup (userIds s);
  inv_tasks : NoDup (taskIds s);
  inv_no_empty : pendingOf s "" = None;
  inv_owner :
    forall t T, findTask t s = Some T -> assignedUser T <> "" ->
                pendingOf s (assignedUser T) <> None;
  inv_pending :
    forall u P id, pendingOf s u = Some P -> In id P ->
                   findTask id s <> None;
  inv_consistent :
    forall u P t T,
      pendingOf s u = Some P -> findTask t s = Some T -> ~ hole u t ->
      (assignedUser T = u /\ completed T = false <-> In t P)
}.

Definition Inv : Store -> Prop := InvX (fun _ _ => False).

(** ** Requests *)

(** The six mutations.  A creation carries the id the store assigns. *)
Inductive Request : Type :=
| CreateUser (newId : string) (body : UserBody)
| UpdateUser (userId : string) (body : UserBody)
| DeleteUser (userId : string)
| CreateTask (newId : string) (body : TaskBody)
| UpdateTask (taskId : string) (body : TaskBody)
| DeleteTask (taskId : string).

Definition handle {rt : Runtime} (r : Request) : Store -> Response * Store :=
  match r with
  | CreateUser newId body => users_post newId body
  | UpdateUser userId body => users_put userId body
  | DeleteUser userId => users_delete userId
  | CreateTask newId body => tasks_post newId body
  | UpdateTask taskId body => tasks_put taskId body
  | DeleteTask taskId => tasks_delete taskId
  end.

(** The id of a new document is not empty and not in use in its
    collection. *)
Definition freshId (r : Request) (s : Store) : Prop :=
  match r with
  | CreateUser newId _ => newId <> "" /\ ~ In newId (userIds s)
  | CreateTask newId _ => newId <> "" /\ ~ In newId (taskIds s)
  | _ => True
  end.

(** A request completes when the handler answers 200, 201 or 204; any
    other answer reports an error thrown on the way. *)
Definition completes (r : Response) : bool :=
  match r with
  | Json 200 _ _ | Json 201 _ _ => true
  | NoContent => true
  | _ => false
  end.

(** The stores reached from the empty one by requests that complete. *)
Inductive reachable {rt : Runtime} : Store -> Prop :=
| reach_empty : reachable emptyStore
| reach_step :
    forall s r,
      reachable s -> freshId r s -> completes (fst (handle r s)) = true ->
      reachable (snd (handle r s)).

(** ** Ids as the store writes them *)

(** A text is canonical when it is the text of the ObjectId it is cast
    to: what [toString()] writes for it. *)
Definition canonical {rt : Runtime} (id : string) : Prop :=
  castObjectId id = Some id.

(** A request names users and tasks by canonical texts: the id of the
    path, the [assignedUser] of a task payload, the entries of the list
    that [normalizeIdArray] makes of [pendingTasks]. *)
Definition canonicalOwner {rt : Runtime} (body : TaskBody) : Prop :=
  assignedUserOf body <> "" -> canonical (assignedUserOf body).

Definition canonicalList {rt : Runtime} (body : UserBody) : Prop :=
  forall ids id,
    normalizeIdArray (pendingTasksOf body) "pendingTasks" = Ok ids ->
    In id ids -> canonical id.

Definition canonicalRequest {rt : Runtime} (r : Request) : Prop :=
  match r with
  | CreateUser _ body => canonicalList body
  | UpdateUser userId body => canonical userId /\ canonicalList body
  | DeleteUser userId => canonical userId
  | CreateTask _ body => canonicalOwner body
  | UpdateTask taskId body => canonical taskId /\ canonicalOwner body
  | DeleteTask taskId => canonical taskId
  end.

(** The stores reached from the empty one by requests that complete and
    name every document by the text the store writes for its id. *)
Inductive reachableCanonical {rt : Runtime} : Store -> Prop :=
| canon_empty : reachableCanonical emptyStore
| canon_step :
    forall s r,
      reachableCanonical s -> canonicalRequest r -> freshId r s ->
      completes (fst (handle r s)) = true ->
      reachableCanonical (snd (handle r s)).

(** ** Owner texts *)

(** What the handlers write to [assignedUser]: nothing, or the canonical
    text of an ObjectId. *)
Definition ownerText {rt : Runtime} (owner : string) : Prop :=
  owner = "" \/ canonical owner.

(** Every user is stored under a canonical text and every task holds an
    owner text. *)
Definition canonicalStore {rt : Runtime} (s : Store) : Prop :=
  (forall id, In id (userIds s) -> canonical id)
  /\ (forall T, In T (tasks s) -> ownerText (assignedUser T)).

(** The store gives a new user a canonical id. *)
Definition canonicalNewId {rt : Runtime} (r : Request) : Prop :=
  match r with
  | CreateUser newId _ => canonical newId
  | _ => True
  end.

(** The stores the service passes through, whatever the requests hold and
    whether they complete or are refused. *)
Inductive served {rt : Runtime} : Store -> Prop :=
| served_empty : served emptyStore
| served_step :
    forall s r,
      served s -> canonicalNewId r -> served (snd (handle r s)).

(** The documents a read returns hold what the store holds: a user has a
    canonical id, a task an owner text. *)
Definition canonicalUser {rt : Runtime} (found : option User) : Prop :=
  forall U, found = Some U -> canonical (u_id U).

Definition ownedByText {rt : Runtime} (T : Task) : Prop :=
  ownerText (assignedUser T).

(** The computation [c] keeps the store canonical, whether it returns or
    throws, and what it returns satisfies [Q]. *)
Definition keeps {rt : Runtime} {A : Type} (Q : A -> Prop) (c : M A)
  : Prop :=
  forall s,
    canonicalStore s ->
    canonicalStore (snd (c s)) /\ forall a, fst (c s) = Ok a -> Q a.

(** The errors a request can be refused with: a BadRequest, a NotFound,
    a schema-validation error, a cast error, a duplicate key. *)
Definition refusal (e : JSError) : Prop :=
  match e with
  | HttpError 400 _ | HttpError 404 _ => True
  | ValidationError _ | CastError _ | DuplicateKey => True
  | _ => False
  end.

(** [c] throws nothing but errors that satisfy [P]. *)
Definition throwsOnly {A : Type} (P : JSError -> Prop) (c : M A) : Prop :=
  forall s e s', c s = (Throw e, s') -> P e.

(** The store after a task update that completes: the task [doc] as it is
    saved, [previous] the owner before and [next] the owner after.  The
    document in memory is detached under its own id [oid]; the handler
    detaches and attaches under [taskId], the text of the request. *)
Definition reassigned (oid taskId previous next : string) (doc : Task)
           (s : Store) : Store :=
  let s1 := if previous =? next then s else detach oid previous s in
  let s2 := putTask doc s1 in
  let s3 := if previous =? next then s2 else detach taskId previous s2 in
  if completed doc then detach taskId next s3 else attach taskId next s3.

(** The id of the user a handler found for [assignedUser], if any. *)
Definition ownerOf (userDoc : option User) : string :=
  match userDoc with
  | Some user => u_id user
  | None => ""
  end.

(** The document PUT /tasks/:id saves: the fields of the payload, and the
    owner it names ([userDoc], the user found for it, if any). *)
Definition updatedTask {rt : Runtime} (oid : string) (body : TaskBody)
           (deadlineValue : option Z) (userDoc : option User) : Task :=
  mkTask oid (castString (tb_name body)) (descriptionOf body)
         deadlineValue (parseBoolean (tb_completed body) false)
         (match userDoc with Some user => u_id user | None => "" end)
         (match userDoc with Some user => u_name user | None => unassigned end).

(** The pending list of the user [v] after a task update that completes
    ([done]: the task is saved as completed): the previous owner loses
    the id of the document and the text of the request, the next owner
    loses or gains the text of the request. *)
Definition movedPending (oid taskId previous next : string) (done : bool)
           (v : string) (l : list string) : list string :=
  let l1 :=
    if (v =? previous) && negb (previous =? next)
    then Coll.pull taskId (Coll.pull oid l) else l in
  if v =? next
  then (if done then Coll.pull taskId l1 else Coll.addToSet taskId l1)
  else l1.

(** Two requests of the examples: Alice is created, then a task that is
    assigned to her. *)
Definition createAlice : Request :=
  CreateUser Demo.idA
    (mkUserBody (JStr "Alice") (JStr "alice@example.org") JUndefined).

Definition createTask : Request :=
  CreateTask Demo.idT (Demo.taskBody (JStr Demo.idA)).

(** Three more: the task idC is created for Alice; it is then completed
    by a request that writes its id in upper case, or by one that writes
    it as the store does. *)
Definition createTaskC : Request :=
  CreateTask Demo.idC (Demo.taskBody (JStr Demo.idA)).

Definition completeTaskC' : Request :=
  UpdateTask Demo.idC' (Demo.doneBody (JStr Demo.idA)).

Definition completeTaskC : Request :=
  UpdateTask Demo.idC (Demo.doneBody (JStr Demo.idA)).

(** The store after a list of requests, the first one first. *)
Definition run {rt : Runtime} (requests : list Request) (s : Store) : Store :=
  fold_left (fun s r => snd (handle r s)) requests s.

(** ** The read-one routes *)

(** GET /users/:id.  Returns the response and the projection the document
    is read through ([None]: the whole document).  The read throws when
    the store refuses the projection or cannot cast the id. *)
Definition users_getById {rt : Runtime} (userId : string) (query : Query)
           (s : Store) : Response * option JSValue :=
  if negb (ObjectId_isValid userId)
  then (handleError (createError 400 "Invalid user id"), None)
  else
    match parseJSONParam (projectionParam query) (projectionParamName query)
    with
    | Throw error => (handleError error, None)
    | Ok select =>
        let projection := if JS.truthy select then Some select else None in
        match userReadFault (FindByIdOf projection) with
        | Some fault => (handleError (faultError fault), None)
        | None =>
            match toObjectId (userIds s) userId with
            | None => (handleError (CastError "_id"), None)
            | Some oid =>
                match findUser oid s with
                | None =>
                    (handleError (createError 404 "User not found"), None)
                | Some user =>
                    (sendResponse 200 "OK" (DUser (Some user)), projection)
                end
            end
        end
    end.

(** GET /tasks/:id. *)
Definition tasks_getById {rt : Runtime} (taskId : string) (query : Query)
           (s : Store) : Response * option JSValue :=
  if negb (ObjectId_isValid taskId)
  then (handleError (createError 400 "Invalid task id"), None)
  else
    match parseJSONParam (projectionParam query) (projectionParamName query)
    with
    | Throw error => (handleError error, None)
    | Ok select =>
        let projection := if JS.truthy select then Some select else None in
        match taskReadFault (FindByIdOf projection) with
        | Some fault => (handleError (faultError fault), None)
        | None =>
            match toObjectId (taskIds s) taskId with
            | None => (handleError (CastError "_id"), None)
            | Some oid =>
                match findTask oid s with
                | None =>
                    (handleError (createError 404 "Task not found"), None)
                | Some task =>
                    (sendResponse 200 "OK" (DTask (Some task)), projection)
                end
            end
        end
    end.

(** The query with another [filter] parameter. *)
Definition withFilterParam (v : JSValue) (query : Query) : Query :=
  mkQuery (q_where query) (q_sort query) (q_select query) v
          (q_skip query) (q_limit query) (q_count query).

(** A payload as a request carries it: the ids as an array of strings. *)
Definition idArray (ids : list string) : JSValue := JArr (map JStr ids).

(** What [handleError] answers to a read the store refused. *)
Definition refusedRead (fault : QueryFault) : Response :=
  match fault with
  | CastFault path =>
      Json 400 ("Invalid value for field " ++ quoted path) DEmpty
  | OtherFault _ => Json 500 "Internal server error" DEmpty
  end.

(** The id a user write stores the user under: the new id for a
    creation, and for an update the ObjectId the text of the request is
    cast to. *)
Definition writtenId {rt : Runtime} (create : bool) (id : string)
           (s : Store) : option string :=
  if create then Some id else toObjectId (userIds s) id.

(** [ids] are cast to [oids], one by one, in a collection whose ids are
    [stored]. *)
Definition castTo {rt : Runtime} (stored ids oids : list string) : Prop :=
  Forall2 (fun id oid => toObjectId stored id = Some oid) ids oids.

(** From [s] to [s'] no user appeared or disappeared, the pending list of
    [u] stayed as it was, and no pending list gained an entry. *)
Definition pendingShrinks (u : string) (s s' : Store) : Prop :=
  userIds s' = userIds s
  /\ pendingOf s' u = pendingOf s u
  /\ forall v P',
       pendingOf s' v = Some P' ->
       exists P, pendingOf s v = Some P /\ incl P' P.

(* ===================================================================== *)
(** * Theorems: parameter parsing *)
(* ===================================================================== *)

(** C9.  The count coercion is true exactly for the boolean true and for
    the strings that lower-case to "true"; numbers, other strings such as
    "1" and "yes", and an absent value give false.  The function is total:
    it returns a boolean on every input and throws on none. *)
Theorem parseCountParam_true_iff :
  forall value : JSValue,
    (parseCountParam value = true
     <-> value = JBool true
         \/ exists s, value = JStr s /\ JS.toLowerCase s = "true")
    /\ (forall n, parseCountParam (JNum n) = false)
    /\ parseCountParam JUndefined = false
    /\ parseCountParam JNull = false
    /\ parseCountParam (JStr "1") = false
    /\ parseCountParam (JStr "yes") = false.
Proof.
  intros value. split; [| repeat split; reflexivity].
  split.
  - destruct value as [ | | b | n | s | items | fields ]; simpl;
      try discriminate.
    + intros ->. now left.
    + intros H. right. exists s. split; [reflexivity |].
      now apply String.eqb_eq.
  - intros [-> | (s & -> & H)]; simpl; [reflexivity |].
    now apply String.eqb_eq.
Qed.

(** C3, as the code has it.  Native booleans are returned as they are, the
    strings "true" and "false" are read without regard to letter case, and
    undefined and null give the default.  Every other input is coerced by
    its truthiness, whatever the default is. *)
Theorem parseBoolean_cases :
  forall defaultValue : bool,
    (forall b, parseBoolean (JBool b) defaultValue = b)
    /\ (forall s, JS.toLowerCase s = "true" ->
                  parseBoolean (JStr s) defaultValue = true)
    /\ (forall s, JS.toLowerCase s = "false" ->
                  parseBoolean (JStr s) defaultValue = false)
    /\ parseBoolean JUndefined defaultValue = defaultValue
    /\ parseBoolean JNull defaultValue = defaultValue
    /\ (forall value,
           booleanLike value = false ->
           value <> JUndefined -> value <> JNull ->
           parseBoolean value defaultValue = JS.truthy value).
Proof.
  intros defaultValue. repeat split.
  - intros s H. simpl. now rewrite H.
  - intros s H. simpl. now rewrite H.
  - intros value Hlike Hundef Hnull.
    destruct value as [ | | b | n | s | items | fields ]; simpl in *;
      try reflexivity; try congruence.
    apply orb_false_elim in Hlike as [Ht Hf]. now rewrite Ht, Hf.
Qed.

(** C3 as stated fails: "yes" is neither boolean nor "true"/"false", and
    with the default false it parses to true; the number 0 with the
    default true parses to false. *)
Lemma parseBoolean_other_input_not_default :
  booleanLike (JStr "yes") = false
  /\ parseBoolean (JStr "yes") false <> false
  /\ booleanLike (JNum (JS.num_of_Z 0)) = false
  /\ parseBoolean (JNum (JS.num_of_Z 0)) true <> true.
Proof. repeat split; simpl; discriminate. Qed.

Section QueryOptionsFacts.
Context {rt : Runtime}.

Lemma parseJSONParam_throws :
  forall value paramName e,
    parseJSONParam value paramName = Throw e ->
    exists message, e = HttpError 400 message.
Proof.
  intros value paramName e. unfold parseJSONParam, createError.
  destruct (JS.isUndefined value); [discriminate |].
  destruct (JSON_parse (js_String value)); [discriminate |].
  intros [= <-]. eauto.
Qed.

Lemma parseNumberParam_throws :
  forall value paramName e,
    parseNumberParam value paramName = Throw e ->
    exists message, e = HttpError 400 message.
Proof.
  intros value paramName e. unfold parseNumberParam, createError.
  destruct (JS.isUndefined value); [discriminate |].
  destruct (negb (JS.isInteger (js_Number value))
            || JS.ltZero (js_Number value)); [| discriminate].
  intros [= <-]. eauto.
Qed.

(** Whatever [buildQueryOptions] throws is a BadRequest. *)
Lemma buildQueryOptions_throws :
  forall query options e,
    buildQueryOptions query options = Throw e ->
    exists message, e = HttpError 400 message.
Proof.
  intros query options e. unfold buildQueryOptions, rbind.
  destruct (parseJSONParam (q_where query) "where") eqn:Hw;
    [| intros [= <-]; eapply parseJSONParam_throws; eassumption].
  destruct (parseJSONParam (q_sort query) "sort") eqn:Hs;
    [| intros [= <-]; eapply parseJSONParam_throws; eassumption].
  fold (projectionParam query). fold (projectionParamName query).
  destruct (parseJSONParam (projectionParam query) (projectionParamName query))
    eqn:Hp;
    [| intros [= <-]; eapply parseJSONParam_throws; eassumption].
  destruct (parseNumberParam (q_skip query) "skip") eqn:Hk;
    [| intros [= <-]; eapply parseNumberParam_throws; eassumption].
  destruct (parseNumberParam (q_limit query) "limit") eqn:Hl;
    [| intros [= <-]; eapply parseNumberParam_throws; eassumption].
  destruct (parseCountParam (q_count query) && JS.truthy a1);
    [| discriminate].
  unfold createError. intros [= <-]. eauto.
Qed.

(** C4.  In count mode a non-empty projection, given as [select] or as
    its alias [filter], makes the parser fail with a BadRequest; in count
    mode without a projection the descriptor has no limit, whatever limit
    was supplied and whatever the collection's default is. *)
Theorem buildQueryOptions_count_mode :
  forall (query : Query) (options : Options),
    parseCountParam (q_count query) = true ->
    (forall field fields,
        parseJSONParam (projectionParam query) (projectionParamName query)
        = Ok (JObj (field :: fields)) ->
        isBadRequest (buildQueryOptions query options))
    /\ (forall parsedWhere sort select skip limit,
           parseJSONParam (q_where query) "where" = Ok parsedWhere ->
           parseJSONParam (q_sort query) "sort" = Ok sort ->
           parseJSONParam (projectionParam query) (projectionParamName query)
           = Ok select ->
           JS.truthy select = false ->
           parseNumberParam (q_skip query) "skip" = Ok skip ->
           parseNumberParam (q_limit query) "limit" = Ok limit ->
           buildQueryOptions query options
           = Ok (mkQueryOptions
                   (if JS.truthy parsedWhere then parsedWhere else JObj [])
                   sort select skip None true)).
Proof.
  intros query options Hcount. split.
  - intros field fields Hsel.
    destruct (buildQueryOptions query options) as [qo | e] eqn:Hb.
    + exfalso. revert Hb. unfold buildQueryOptions, rbind.
      destruct (parseJSONParam (q_where query) "where"); [| discriminate].
      destruct (parseJSONParam (q_sort query) "sort"); [| discriminate].
      fold (projectionParam query). fold (projectionParamName query).
      rewrite Hsel.
      destruct (parseNumberParam (q_skip query) "skip"); [| discriminate].
      destruct (parseNumberParam (q_limit query) "limit"); [| discriminate].
      rewrite Hcount. simpl. discriminate.
    + destruct (buildQueryOptions_throws _ _ _ Hb) as [message ->].
      exists message. reflexivity.
  - intros parsedWhere sort select skip limit Hw Hs Hp Hfalsy Hk Hl.
    unfold buildQueryOptions, rbind.
    fold (projectionParam query). fold (projectionParamName query).
    rewrite Hw, Hs, Hp, Hk, Hl, Hcount, Hfalsy. reflexivity.
Qed.

End QueryOptionsFacts.

(** C4 at a request: [count=true] with [select={"name":1}] is refused,
    and [count=true&limit=5] on the Task listing (default limit 100)
    parses to a descriptor without a limit. *)
Lemma buildQueryOptions_count_mode_witness :
  isBadRequest
    (buildQueryOptions (rt := Demo.runtime)
       (mkQuery JUndefined JUndefined (JStr Demo.nameProjection) JUndefined
                JUndefined JUndefined (JStr "true"))
       (mkOptions None))
  /\ buildQueryOptions (rt := Demo.runtime)
       (mkQuery JUndefined JUndefined JUndefined JUndefined
                JUndefined (JStr "5") (JStr "TRUE"))
       (mkOptions (Some (JS.num_of_Z 100)))
     = Ok (mkQueryOptions (JObj []) JUndefined JUndefined None None true).
Proof.
  split.
  - exact (proj1 (buildQueryOptions_count_mode (rt := Demo.runtime)
                    (mkQuery JUndefined JUndefined (JStr Demo.nameProjection)
                             JUndefined JUndefined JUndefined (JStr "true"))
                    (mkOptions None) eq_refl)
                 ("name", JNum (JS.num_of_Z 1)) [] eq_refl).
  - exact (proj2 (buildQueryOptions_count_mode (rt := Demo.runtime)
                    (mkQuery JUndefined JUndefined JUndefined JUndefined
                             JUndefined (JStr "5") (JStr "TRUE"))
                    (mkOptions (Some (JS.num_of_Z 100))) eq_refl)
                 JUndefined JUndefined JUndefined None
                 (Some (JS.num_of_Z 5))
                 eq_refl eq_refl eq_refl eq_refl eq_refl eq_refl).
Defined.

(* ===================================================================== *)
(** * Theorems: the list routes *)
(* ===================================================================== *)

Section ListFacts.
Context {rt : Runtime}.

(** GET /tasks with a limit of zero, count mode off: an empty array, and
    no operation on the store. *)
Lemma tasks_get_limit_zero :
  forall query s queryOptions n,
    buildQueryOptions query (mkOptions (Some (JS.num_of_Z 100)))
    = Ok queryOptions ->
    qo_count queryOptions = false ->
    qo_limit queryOptions = Some n ->
    JS.isZero n = true ->
    tasks_get query s = (sendResponse 200 "OK" (DTasks None []), []).
Proof.
  intros query s queryOptions n Hb Hc Hl Hz. unfold tasks_get.
  now rewrite Hb, Hc, Hl, Hz.
Qed.

(** GET /users with a limit of zero, count mode off: the handler has no
    such guard.  It runs [find] with the limit chained on, and the store,
    unless it refuses the query, reads that limit as none: the answer
    holds every matching user past the skip. *)
Lemma users_get_limit_zero :
  forall query s queryOptions n,
    buildQueryOptions query (mkOptions None) = Ok queryOptions ->
    qo_count queryOptions = false ->
    qo_limit queryOptions = Some n ->
    JS.isZero n = true ->
    userReadFault
      (FindOf (chainOptions queryOptions (findQuery (qo_filter queryOptions))))
    = None ->
    snd (users_get query s) = [Find]
    /\ exists select,
        fst (users_get query s)
        = sendResponse 200 "OK"
            (DUsers select
               (let found :=
                  filter (userMatches (qo_filter queryOptions)) (users s) in
                let sorted :=
                  if JS.truthy (qo_sort queryOptions)
                  then sortUsers (qo_sort queryOptions) found else found in
                match qo_skip queryOptions with
                | Some k => skipn (countOf k) sorted
                | None => sorted
                end)).
Proof.
  intros query s queryOptions n Hb Hc Hl Hz Hread. unfold users_get.
  rewrite Hb, Hc, Hread. split; [reflexivity |]. simpl fst.
  eexists. f_equal. f_equal.
  assert (Hn : countOf n = 0%nat).
  { destruct n as [ | neg | q ]; try discriminate. simpl in *.
    apply Z.eqb_eq in Hz. unfold JS.truncate. rewrite Hz. reflexivity. }
  unfold chainOptions, execQuery. rewrite Hl.
  destruct (JS.truthy (qo_select queryOptions)),
           (JS.truthy (qo_sort queryOptions)),
           (qo_skip queryOptions); simpl; rewrite Hn; reflexivity.
Qed.

End ListFacts.

(** C2 at GET /users?limit=0 on a store of two users: the handler queries
    the store with [find] and answers with both users, where GET
    /tasks?limit=0 on the same store answers with an empty array and issues
    no store operation. *)
Theorem users_get_limit_zero_returns_all :
  let query :=
    mkQuery JUndefined JUndefined JUndefined JUndefined JUndefined
            (JStr "0") JUndefined in
  let s :=
    mkStore [Demo.alice []; Demo.bob []]
            [Demo.task Demo.idT false "" unassigned] in
  users_get (rt := Demo.runtime) query s
  = (Json 200 "OK" (DUsers None [Demo.alice []; Demo.bob []]), [Find])
  /\ tasks_get (rt := Demo.runtime) query s
     = (Json 200 "OK" (DTasks None []), []).
Proof. split; reflexivity. Qed.

(* ===================================================================== *)
(** * Theorems: id normalization *)
(* ===================================================================== *)

Lemma includes_In :
  forall ids id, Coll.includes ids id = true <-> In id ids.
Proof.
  intros ids id. unfold Coll.includes. rewrite existsb_exists. split.
  - intros (x & Hx & Heq). apply String.eqb_eq in Heq. now subst.
  - intros H. exists id. split; [assumption | apply String.eqb_refl].
Qed.

Lemma includes_false :
  forall ids id, Coll.includes ids id = false <-> ~ In id ids.
Proof.
  intros ids id. rewrite <- includes_In.
  destruct (Coll.includes ids id); split; congruence.
Qed.

Lemma filter_ext_in_bool :
  forall (A : Type) (p q : A -> bool) (l : list A),
    (forall x, In x l -> p x = q x) -> filter p l = filter q l.
Proof.
  intros A p q l. induction l as [| x l IH]; intros H; simpl; [reflexivity |].
  rewrite (H x (or_introl eq_refl)), IH; [reflexivity |].
  intros y Hy. apply H. now right.
Qed.

Lemma filter_filter_and :
  forall (A : Type) (p q : A -> bool) (l : list A),
    filter p (filter q l) = filter (fun x => q x && p x) l.
Proof.
  intros A p q l. induction l as [| x l IH]; simpl; [reflexivity |].
  destruct (q x); simpl; [destruct (p x) |]; now rewrite IH.
Qed.

(** The set built by insertion, started from the ids [seen]. *)
Lemma fold_setAdd :
  forall ids seen,
    fold_left setAdd ids seen
    = seen ++ filter (fun id => negb (Coll.includes seen id))
                     (firstOccurrences ids).
Proof.
  induction ids as [| id ids IH]; intros seen; simpl.
  - now rewrite app_nil_r.
  - rewrite IH. unfold setAdd. fold (Coll.includes seen id).
    destruct (Coll.includes seen id) eqn:Hin; simpl.
    + f_equal. rewrite filter_filter_and. apply filter_ext_in_bool.
      intros x _. destruct (String.eqb_spec x id) as [-> | Hne]; simpl.
      * now rewrite Hin.
      * reflexivity.
    + rewrite <- app_assoc. simpl. do 2 f_equal.
      rewrite filter_filter_and. apply filter_ext_in_bool.
      intros x _. unfold Coll.includes. rewrite existsb_app. simpl.
      rewrite orb_false_r, negb_orb. apply andb_comm.
Qed.

(** [Array.from(new Set(ids))] keeps each id where it first occurs. *)
Lemma arrayFromSet_firstOccurrences :
  forall ids, arrayFromSet ids = firstOccurrences ids.
Proof.
  intros ids. unfold arrayFromSet. rewrite fold_setAdd. simpl.
  induction (firstOccurrences ids) as [| x l IH]; simpl; [reflexivity |].
  now rewrite IH.
Qed.

Lemma firstOccurrences_In :
  forall ids id, In id (firstOccurrences ids) <-> In id ids.
Proof.
  induction ids as [| x ids IH]; intros id; simpl; [tauto |].
  rewrite filter_In, IH, negb_true_iff, String.eqb_neq.
  destruct (String.eqb_spec id x) as [-> | Hne]; [tauto |].
  split; [intros [H | [H _]]; auto | intros [H | H]; auto].
Qed.

Lemma firstOccurrences_NoDup :
  forall ids, NoDup (firstOccurrences ids).
Proof.
  induction ids as [| x ids IH]; simpl; constructor.
  - rewrite filter_In, negb_true_iff, String.eqb_neq. tauto.
  - now apply NoDup_filter.
Qed.

Section IdFacts.
Context {rt : Runtime}.

Lemma checkIds_ok :
  forall fieldName ids,
    forallb ObjectId_isValid ids = true -> checkIds fieldName ids = Ok tt.
Proof.
  intros fieldName. induction ids as [| id ids IH]; simpl; [reflexivity |].
  intros H. apply andb_true_iff in H as [-> H]. simpl. now apply IH.
Qed.

Lemma checkIds_throws :
  forall fieldName ids id,
    In id ids -> ObjectId_isValid id = false ->
    checkIds fieldName ids
    = Throw (createError 400
               ("Invalid task id in " ++ quoted fieldName ++ " array")).
Proof.
  intros fieldName. induction ids as [| x ids IH]; simpl; [tauto |].
  intros id [-> | Hin] Hbad.
  - now rewrite Hbad.
  - destruct (ObjectId_isValid x); simpl; [eauto | reflexivity].
Qed.

Lemma normalizeIdArray_unfold :
  forall values fieldName,
    normalizeIdArray values fieldName
    = match checkIds fieldName (arrayFromSet (cleanedIds values)) with
      | Ok _ => Ok (arrayFromSet (cleanedIds values))
      | Throw e => Throw e
      end.
Proof.
  intros values fieldName.
  destruct values; reflexivity.
Qed.

End IdFacts.

Section IdTheorems.
Context {rt : Runtime}.

Lemma cleanedIds_In :
  forall values id,
    In id (cleanedIds values)
    <-> exists value,
          In value (itemsOf values) /\ isBlank value = false
          /\ js_String value = id.
Proof.
  intros values id. unfold cleanedIds. rewrite in_map_iff. split.
  - intros (v & Hs & Hin). apply filter_In in Hin as [Hin Hnb].
    apply negb_true_iff in Hnb. eauto.
  - intros (v & Hin & Hnb & Hs). exists v. split; [assumption |].
    apply filter_In. split; [assumption |]. now rewrite Hnb.
Qed.

Lemma isBlank_JStr :
  forall s, s <> "" -> isBlank (JStr s) = false.
Proof. intros [| c s] H; [congruence | reflexivity]. Qed.

(** C5.  [normalizeIdArray] drops the blank items (undefined, null, the
    empty string), turns the rest into strings and keeps each id once, at
    its first occurrence.  It returns that list when the store accepts
    every id in it, and fails with a BadRequest that names the field when
    the store rejects any of them.  On [a; a; blank; b], with [a] and [b]
    valid, it returns [a; b]. *)
Theorem normalizeIdArray_spec :
  forall (values : JSValue) (fieldName : string),
    let unique := firstOccurrences (cleanedIds values) in
    NoDup unique
    /\ (forall id,
           In id unique
           <-> exists value,
                 In value (itemsOf values) /\ isBlank value = false
                 /\ js_String value = id)
    /\ ((forall id, In id unique -> ObjectId_isValid id = true) ->
        normalizeIdArray values fieldName = Ok unique)
    /\ (forall id,
           In id unique -> ObjectId_isValid id = false ->
           normalizeIdArray values fieldName
           = Throw (HttpError 400
                      ("Invalid task id in " ++ quoted fieldName ++ " array")))
    /\ (forall a b,
           a <> "" -> b <> "" -> a <> b ->
           ObjectId_isValid a = true -> ObjectId_isValid b = true ->
           normalizeIdArray (JArr [JStr a; JStr a; JStr ""; JStr b]) fieldName
           = Ok [a; b]).
Proof.
  intros values fieldName unique. subst unique.
  split; [apply firstOccurrences_NoDup |].
  split; [intros id; rewrite firstOccurrences_In; apply cleanedIds_In |].
  split; [| split].
  - intros Hvalid. rewrite normalizeIdArray_unfold.
    rewrite arrayFromSet_firstOccurrences, checkIds_ok; [reflexivity |].
    apply forallb_forall. exact Hvalid.
  - intros id Hin Hbad. rewrite normalizeIdArray_unfold.
    rewrite arrayFromSet_firstOccurrences.
    now rewrite (checkIds_throws fieldName _ id Hin Hbad).
  - intros a b Ha Hb Hab Hva Hvb. rewrite normalizeIdArray_unfold.
    rewrite arrayFromSet_firstOccurrences. unfold cleanedIds.
    cbn -[isBlank String.eqb].
    rewrite (isBlank_JStr a Ha), (isBlank_JStr b Hb).
    assert (Hba : (b =? a) = false) by (apply String.eqb_neq; congruence).
    cbn -[String.eqb]. rewrite String.eqb_refl, Hba.
    cbn -[String.eqb]. rewrite Hba.
    cbn -[String.eqb]. now rewrite Hva, Hvb.
Qed.

(** C8.  [normalizeIdArray] returns the empty list, and throws nothing,
    for undefined and for null; a value that is not an array is treated as
    the one-item array that holds it, so a lone valid id is accepted and
    returned as a one-item list. *)
Theorem normalizeIdArray_scalar :
  forall (fieldName : string),
    normalizeIdArray JUndefined fieldName = Ok []
    /\ normalizeIdArray JNull fieldName = Ok []
    /\ (forall value,
           JS.isArray value = false ->
           value <> JUndefined -> value <> JNull ->
           normalizeIdArray value fieldName
           = normalizeIdArray (JArr [value]) fieldName)
    /\ (forall id,
           id <> "" -> ObjectId_isValid id = true ->
           normalizeIdArray (JStr id) fieldName = Ok [id]).
Proof.
  intros fieldName. split; [reflexivity |]. split; [reflexivity |]. split.
  - intros value Harr Hu Hn.
    destruct value; try reflexivity; try congruence; discriminate.
  - intros id Hid Hvalid. rewrite normalizeIdArray_unfold.
    unfold cleanedIds. cbn -[isBlank]. rewrite (isBlank_JStr id Hid).
    cbn. now rewrite Hvalid.
Qed.

End IdTheorems.

(** C5 at an array that names one id twice, a blank, and a second id. *)
Lemma normalizeIdArray_spec_witness :
  normalizeIdArray (rt := Demo.runtime)
    (JArr [JStr Demo.idA; JStr Demo.idA; JStr ""; JStr Demo.idB])
    "pendingTasks"
  = Ok [Demo.idA; Demo.idB].
Proof.
  refine (proj1 (proj2 (proj2
            (normalizeIdArray_spec (rt := Demo.runtime)
               (JArr [JStr Demo.idA; JStr Demo.idA; JStr ""; JStr Demo.idB])
               "pendingTasks"))) _).
  intros id [<- | [<- | []]]; reflexivity.
Defined.

(** C8 at a lone id. *)
Lemma normalizeIdArray_scalar_witness :
  normalizeIdArray (rt := Demo.runtime) (JStr Demo.idT) "pendingTasks"
  = normalizeIdArray (rt := Demo.runtime) (JArr [JStr Demo.idT]) "pendingTasks"
  /\ normalizeIdArray (rt := Demo.runtime) (JStr Demo.idT) "pendingTasks"
     = Ok [Demo.idT].
Proof.
  split.
  - refine (proj1 (proj2 (proj2
              (normalizeIdArray_scalar (rt := Demo.runtime) "pendingTasks")))
              (JStr Demo.idT) eq_refl _ _); discriminate.
  - refine (proj2 (proj2 (proj2
              (normalizeIdArray_scalar (rt := Demo.runtime) "pendingTasks")))
              Demo.idT _ eq_refl); discriminate.
Defined.

(* ===================================================================== *)
(** * Lemmas: collections *)
(* ===================================================================== *)

Lemma pull_In :
  forall item l x, In x (Coll.pull item l) <-> In x l /\ x <> item.
Proof.
  intros item l x. unfold Coll.pull.
  now rewrite filter_In, negb_true_iff, String.eqb_neq.
Qed.

Lemma addToSet_In :
  forall item l x, In x (Coll.addToSet item l) <-> In x l \/ x = item.
Proof.
  intros item l x. unfold Coll.addToSet.
  destruct (existsb (String.eqb item) l) eqn:He.
  - apply existsb_exists in He as (y & Hy & Heq).
    apply String.eqb_eq in Heq. subst y.
    split; [auto | intros [H | ->]; assumption].
  - rewrite in_app_iff. simpl. intuition.
Qed.

(** Documents found by id: a collection [l] of documents with a [key]. *)
Section Keyed.
Context {D : Type} (key : D -> string).

Local Abbreviation has := (Coll.byId key).

Lemma find_has_key :
  forall l id d, find (has id) l = Some d -> key d = id.
Proof.
  intros l id d H. apply find_some in H as [_ H].
  now apply String.eqb_eq.
Qed.

Lemma find_has_In :
  forall l id d, find (has id) l = Some d -> In d l.
Proof. intros l id d H. now apply find_some in H. Qed.

Lemma find_has_None :
  forall l id, find (has id) l = None <-> ~ In id (map key l).
Proof.
  intros l id. induction l as [| d l IH]; simpl; [tauto |].
  unfold Coll.byId in *.
  destruct (String.eqb_spec (key d) id) as [E | E].
  - split; [discriminate | tauto].
  - rewrite IH. tauto.
Qed.

Lemma find_has_Some_iff :
  forall l id, In id (map key l) <-> exists d, find (has id) l = Some d.
Proof.
  intros l id. destruct (find (has id) l) as [d |] eqn:E.
  - split; [eauto | intros _].
    apply in_map_iff. exists d. split.
    + eapply find_has_key; eassumption.
    + eapply find_has_In; eassumption.
  - split; [| intros [d Hd]; discriminate].
    intros H. now apply find_has_None in E.
Qed.

(** With distinct keys, the documents are those found by their key. *)
Lemma In_find_has :
  forall l d, NoDup (map key l) -> In d l -> find (has (key d)) l = Some d.
Proof.
  induction l as [| x l IH]; intros d Hnd Hin; simpl in *; [tauto |].
  inversion Hnd as [| ? ? Hx Hnd']; subst.
  unfold Coll.byId at 1.
  destruct (String.eqb_spec (key x) (key d)) as [E | E].
  - destruct Hin as [-> | Hin]; [reflexivity |].
    exfalso. apply Hx. rewrite E. now apply in_map.
  - destruct Hin as [-> | Hin]; [congruence | now apply IH].
Qed.

Lemma existsb_has :
  forall id l, existsb (has id) l = true <-> In id (map key l).
Proof.
  intros id l. rewrite existsb_exists, in_map_iff. unfold Coll.byId.
  split; intros (d & H1 & H2).
  - apply String.eqb_eq in H2. eauto.
  - exists d. split; [assumption | now apply String.eqb_eq].
Qed.

Section Update.
Variable f : D -> D.
Hypothesis f_key : forall d, key (f d) = key d.

Lemma keys_updateOne :
  forall p l, map key (Coll.updateOne p f l) = map key l.
Proof.
  intros p. induction l as [| d l IH]; simpl; [reflexivity |].
  destruct (p d); simpl; [now rewrite f_key | now rewrite IH].
Qed.

Lemma keys_updateMany :
  forall p l, map key (Coll.updateMany p f l) = map key l.
Proof.
  intros p l. unfold Coll.updateMany. rewrite map_map.
  apply map_ext. intros d. now destruct (p d).
Qed.

Lemma find_updateOne :
  forall id id' l,
    find (has id) (Coll.updateOne (has id') f l)
    = if id =? id' then option_map f (find (has id) l)
      else find (has id) l.
Proof.
  intros id id'. induction l as [| d l IH]; simpl.
  - now destruct (id =? id').
  - unfold Coll.byId in *.
    destruct (String.eqb_spec (key d) id') as [E' | E']; simpl;
      rewrite ?f_key.
    + destruct (String.eqb_spec id id') as [-> | N].
      * rewrite E', String.eqb_refl. reflexivity.
      * destruct (String.eqb_spec (key d) id); [congruence | reflexivity].
    + destruct (String.eqb_spec (key d) id) as [E | E].
      * destruct (String.eqb_spec id id'); [congruence | reflexivity].
      * exact IH.
Qed.

Lemma find_updateMany :
  forall p id l,
    find (has id) (Coll.updateMany p f l)
    = option_map (fun d => if p d then f d else d) (find (has id) l).
Proof.
  intros p id. induction l as [| d l IH]; simpl; [reflexivity |].
  unfold Coll.byId in *.
  assert (E : key (if p d then f d else d) = key d)
    by (destruct (p d); [apply f_key | reflexivity]).
  rewrite E. destruct (key d =? id); [reflexivity | exact IH].
Qed.

End Update.

Lemma keys_deleteOne_incl :
  forall p l id, In id (map key (Coll.deleteOne p l)) -> In id (map key l).
Proof.
  intros p. induction l as [| d l IH]; simpl; intros id H; [tauto |].
  destruct (p d); simpl in *; [tauto |]. destruct H; auto.
Qed.

Lemma keys_deleteOne_NoDup :
  forall p l, NoDup (map key l) -> NoDup (map key (Coll.deleteOne p l)).
Proof.
  intros p. induction l as [| d l IH]; simpl; intros H; [constructor |].
  inversion H as [| ? ? Hd Hl]; subst.
  destruct (p d); simpl; [assumption |].
  constructor; [| now apply IH].
  intros Hin. apply Hd. eapply keys_deleteOne_incl; eassumption.
Qed.

Lemma find_deleteOne :
  forall id id' l,
    NoDup (map key l) ->
    find (has id) (Coll.deleteOne (has id') l)
    = if id =? id' then None else find (has id) l.
Proof.
  intros id id'. induction l as [| d l IH]; simpl; intros Hnd.
  - now destruct (id =? id').
  - inversion Hnd as [| ? ? Hd Hl]; subst. specialize (IH Hl).
    pose proof (find_has_None l id) as Hnone.
    unfold Coll.byId in *.
    destruct (String.eqb_spec (key d) id') as [E' | E']; simpl.
    + destruct (String.eqb_spec id id') as [-> | N].
      * apply Hnone. now rewrite <- E'.
      * destruct (String.eqb_spec (key d) id); [congruence | reflexivity].
    + destruct (String.eqb_spec (key d) id) as [E | E].
      * destruct (String.eqb_spec id id'); [congruence | reflexivity].
      * exact IH.
Qed.

Lemma keys_save :
  forall doc l,
    map key (Coll.save (has (key doc)) doc l)
    = if existsb (has (key doc)) l then map key l
      else map key l ++ [key doc].
Proof.
  intros doc l. unfold Coll.save.
  destruct (existsb (has (key doc)) l) eqn:E.
  - clear E. induction l as [| d l IH]; simpl; [reflexivity |].
    unfold Coll.byId at 1.
    destruct (String.eqb_spec (key d) (key doc)) as [E | E]; simpl.
    + now rewrite E.
    + now rewrite IH.
  - now rewrite map_app.
Qed.

Lemma keys_save_NoDup :
  forall doc l,
    NoDup (map key l) -> NoDup (map key (Coll.save (has (key doc)) doc l)).
Proof.
  intros doc l Hnd. rewrite keys_save.
  destruct (existsb (has (key doc)) l) eqn:E; [assumption |].
  apply NoDup_app; [assumption | repeat constructor; simpl; tauto |].
  intros id Hin [<- | []].
  apply existsb_has in Hin. congruence.
Qed.

Lemma keys_save_In :
  forall doc l id,
    In id (map key (Coll.save (has (key doc)) doc l))
    <-> In id (map key l) \/ id = key doc.
Proof.
  intros doc l id. rewrite keys_save.
  destruct (existsb (has (key doc)) l) eqn:E.
  - apply existsb_has in E. split; [auto | intros [H | ->]; assumption].
  - rewrite in_app_iff. simpl. intuition.
Qed.

Lemma find_app_last :
  forall doc l id,
    find (has id) (l ++ [doc])
    = match find (has id) l with
      | Some d => Some d
      | None => if key doc =? id then Some doc else None
      end.
Proof.
  intros doc l id. induction l as [| d l IH]; simpl; [reflexivity |].
  unfold Coll.byId in *. destruct (key d =? id); [reflexivity | exact IH].
Qed.

Lemma find_save :
  forall doc l id,
    find (has id) (Coll.save (has (key doc)) doc l)
    = if id =? key doc then Some doc else find (has id) l.
Proof.
  intros doc l id. unfold Coll.save.
  destruct (existsb (has (key doc)) l) eqn:E.
  - induction l as [| d l IH]; simpl in *; [discriminate |].
    unfold Coll.byId in *.
    destruct (String.eqb_spec (key d) (key doc)) as [Ed | Ed]; simpl in *.
    + destruct (String.eqb_spec id (key doc)) as [-> | N].
      * now rewrite String.eqb_refl.
      * destruct (String.eqb_spec (key doc) id); [congruence |].
        destruct (String.eqb_spec (key d) id); [congruence | reflexivity].
    + destruct (String.eqb_spec (key d) id) as [Ei | Ei].
      * destruct (String.eqb_spec id (key doc)); [congruence | reflexivity].
      * now apply IH.
  - rewrite find_app_last.
    destruct (String.eqb_spec id (key doc)) as [-> | N].
    + assert (H : find (has (key doc)) l = None).
      { apply find_has_None. intros Hin. apply existsb_has in Hin.
        congruence. }
      rewrite H. unfold Coll.byId. now rewrite String.eqb_refl.
    + destruct (find (has id) l); [reflexivity |].
      destruct (String.eqb_spec (key doc) id); [congruence | reflexivity].
Qed.

End Keyed.

(* ===================================================================== *)
(** * Lemmas: the store after each primitive operation *)
(* ===================================================================== *)

Lemma setPendingTasks_id :
  forall ids u, u_id (setPendingTasks ids u) = u_id u.
Proof. reflexivity. Qed.

Lemma setOwner_id :
  forall owner name t, t_id (setOwner owner name t) = t_id t.
Proof. reflexivity. Qed.

Lemma owned_id :
  forall u name t, t_id (owned u name t) = t_id t.
Proof. intros u name t. unfold owned. now destruct (completed _). Qed.

Lemma owned_owner :
  forall u name t, assignedUser (owned u name t) = u.
Proof. intros u name t. unfold owned. now destruct (completed _). Qed.

Lemma owned_completed :
  forall u name t, completed (owned u name t) = false.
Proof.
  intros u name t. unfold owned. simpl.
  destruct (completed t) eqn:E; simpl; [reflexivity | exact E].
Qed.

Lemma findTask_id :
  forall s t T, findTask t s = Some T -> t_id T = t.
Proof. intros s t T. apply (find_has_key t_id). Qed.

Lemma findUser_id :
  forall s u U, findUser u s = Some U -> u_id U = u.
Proof. intros s u U. apply (find_has_key u_id). Qed.

Lemma pendingOf_Some :
  forall s u P,
    pendingOf s u = Some P
    <-> exists U, findUser u s = Some U /\ pendingTasks U = P.
Proof.
  intros s u P. unfold pendingOf.
  destruct (findUser u s) as [U |]; simpl; split.
  - intros [= <-]. eauto.
  - intros (U' & [= <-] & <-). reflexivity.
  - discriminate.
  - intros (U' & H & _). discriminate.
Qed.

Lemma pendingOf_exists :
  forall s u, pendingOf s u <> None <-> In u (userIds s).
Proof.
  intros s u. unfold pendingOf, userIds, findUser, hasUserId.
  rewrite (find_has_Some_iff u_id).
  destruct (find (Coll.byId u_id u) (users s)) as [U |]; simpl; split;
    try congruence; eauto.
  intros [d Hd]. discriminate.
Qed.

Lemma findTask_exists :
  forall s t, findTask t s <> None <-> In t (taskIds s).
Proof.
  intros s t. unfold taskIds, findTask, hasTaskId.
  rewrite (find_has_Some_iff t_id).
  destruct (find (Coll.byId t_id t) (tasks s)) as [T |]; split;
    try congruence; eauto.
  intros [d Hd]. discriminate.
Qed.

(** *** detach and attach *)

Lemma tasks_detach :
  forall t w s, tasks (detach t w s) = tasks s.
Proof. intros t w s. unfold detach. now destruct (w =? ""). Qed.

Lemma tasks_attach :
  forall t w s, tasks (attach t w s) = tasks s.
Proof. intros t w s. unfold attach. now destruct (w =? ""). Qed.

Lemma findTask_detach :
  forall t w s x, findTask x (detach t w s) = findTask x s.
Proof. intros. unfold findTask. now rewrite tasks_detach. Qed.

Lemma findTask_attach :
  forall t w s x, findTask x (attach t w s) = findTask x s.
Proof. intros. unfold findTask. now rewrite tasks_attach. Qed.

Lemma taskIds_detach :
  forall t w s, taskIds (detach t w s) = taskIds s.
Proof. intros. unfold taskIds. now rewrite tasks_detach. Qed.

Lemma taskIds_attach :
  forall t w s, taskIds (attach t w s) = taskIds s.
Proof. intros. unfold taskIds. now rewrite tasks_attach. Qed.

Lemma userIds_detach :
  forall t w s, userIds (detach t w s) = userIds s.
Proof.
  intros t w s. unfold detach, userIds.
  destruct (w =? ""); [reflexivity |]. simpl.
  now apply (keys_updateOne u_id).
Qed.

Lemma userIds_attach :
  forall t w s, userIds (attach t w s) = userIds s.
Proof.
  intros t w s. unfold attach, userIds.
  destruct (w =? ""); [reflexivity |]. simpl.
  now apply (keys_updateOne u_id).
Qed.

Lemma pendingOf_detach :
  forall t w s v,
    w <> "" ->
    pendingOf (detach t w s) v
    = if v =? w then option_map (Coll.pull t) (pendingOf s v)
      else pendingOf s v.
Proof.
  intros t w s v Hw. unfold detach, pendingOf, findUser, hasUserId.
  apply String.eqb_neq in Hw. rewrite Hw. simpl.
  rewrite (find_updateOne u_id) by reflexivity.
  destruct (v =? w); [| reflexivity].
  now destruct (find (Coll.byId u_id v) (users s)).
Qed.

Lemma pendingOf_attach :
  forall t w s v,
    w <> "" ->
    pendingOf (attach t w s) v
    = if v =? w then option_map (Coll.addToSet t) (pendingOf s v)
      else pendingOf s v.
Proof.
  intros t w s v Hw. unfold attach, pendingOf, findUser, hasUserId.
  apply String.eqb_neq in Hw. rewrite Hw. simpl.
  rewrite (find_updateOne u_id) by reflexivity.
  destruct (v =? w); [| reflexivity].
  now destruct (find (Coll.byId u_id v) (users s)).
Qed.

(** *** putTask, putUser, clearOwners, dropUser, dropTask *)

Lemma findTask_putTask :
  forall T s x,
    findTask x (putTask T s) = if x =? t_id T then Some T else findTask x s.
Proof.
  intros T s x. unfold findTask, putTask, hasTaskId. simpl.
  apply (find_save t_id).
Qed.

Lemma pendingOf_putTask :
  forall T s v, pendingOf (putTask T s) v = pendingOf s v.
Proof. reflexivity. Qed.

Lemma taskIds_putTask_In :
  forall T s x, In x (taskIds (putTask T s)) <-> In x (taskIds s) \/ x = t_id T.
Proof. intros T s x. apply (keys_save_In t_id). Qed.

Lemma taskIds_putTask_NoDup :
  forall T s, NoDup (taskIds s) -> NoDup (taskIds (putTask T s)).
Proof. intros T s. apply (keys_save_NoDup t_id). Qed.

Lemma pendingOf_putUser :
  forall U s v,
    pendingOf (putUser U s) v
    = if v =? u_id U then Some (pendingTasks U) else pendingOf s v.
Proof.
  intros U s v. unfold pendingOf, findUser, putUser, hasUserId. simpl.
  rewrite (find_save u_id). now destruct (v =? u_id U).
Qed.

Lemma userIds_putUser_In :
  forall U s x, In x (userIds (putUser U s)) <-> In x (userIds s) \/ x = u_id U.
Proof. intros U s x. apply (keys_save_In u_id). Qed.

Lemma userIds_putUser_NoDup :
  forall U s, NoDup (userIds s) -> NoDup (userIds (putUser U s)).
Proof. intros U s. apply (keys_save_NoDup u_id). Qed.

Lemma findTask_clearOwners :
  forall p s x,
    findTask x (clearOwners p s)
    = option_map (fun T => if p T then setOwner "" unassigned T else T)
                 (findTask x s).
Proof.
  intros p s x. unfold findTask, clearOwners, hasTaskId. simpl.
  now apply (find_updateMany t_id).
Qed.

Lemma taskIds_clearOwners :
  forall p s, taskIds (clearOwners p s) = taskIds s.
Proof.
  intros p s. unfold taskIds, clearOwners. simpl.
  now apply (keys_updateMany t_id).
Qed.

Lemma pendingOf_dropUser :
  forall u s v,
    NoDup (userIds s) ->
    pendingOf (dropUser u s) v = if v =? u then None else pendingOf s v.
Proof.
  intros u s v Hnd. unfold pendingOf, findUser, dropUser, hasUserId. simpl.
  rewrite (find_deleteOne u_id) by exact Hnd. now destruct (v =? u).
Qed.

Lemma findTask_dropTask :
  forall t s x,
    NoDup (taskIds s) ->
    findTask x (dropTask t s) = if x =? t then None else findTask x s.
Proof.
  intros t s x Hnd. unfold findTask, dropTask, hasTaskId. simpl.
  now apply (find_deleteOne t_id).
Qed.

(* ===================================================================== *)
(** * Lemmas: running the handlers *)
(* ===================================================================== *)

Lemma refusal_not_complete :
  forall e,
    refusal e ->
    completes (handleError e) = false /\ completes (handleUserError e) = false.
Proof.
  intros [status message | message | path | | name]; simpl; try tauto.
  destruct status as [| n]; [tauto |].
  do 400 (destruct n as [| n]; [tauto |]).
  do 4 (destruct n as [| n]; [tauto |]). tauto.
Qed.

Section Throws.
Context {A B : Type} (P : JSError -> Prop).

Lemma throwsOnly_ret : forall a : A, throwsOnly P (ret a).
Proof. intros a s e s'. discriminate. Qed.

Lemma throwsOnly_throw : forall e, P e -> throwsOnly P (@throw A e).
Proof. intros e He s e' s' [= <- _]. exact He. Qed.

Lemma throwsOnly_gets : forall f : Store -> A, throwsOnly P (gets f).
Proof. intros f s e s'. discriminate. Qed.

Lemma throwsOnly_lift :
  forall r : Result A, (forall e, r = Throw e -> P e) -> throwsOnly P (lift r).
Proof. intros r H s e s' [= -> _]. now apply H. Qed.

Lemma throwsOnly_bind :
  forall (c : M A) (k : A -> M B),
    throwsOnly P c -> (forall a, throwsOnly P (k a)) ->
    throwsOnly P (bind c k).
Proof.
  intros c k Hc Hk s e s'. unfold bind.
  destruct (c s) as [[a | e0] s1] eqn:E.
  - apply Hk.
  - intros [= <- _]. eapply Hc. eassumption.
Qed.

Lemma bind_Ok :
  forall (c : M A) (k : A -> M B) s b s',
    bind c k s = (Ok b, s') ->
    exists a s1, c s = (Ok a, s1) /\ k a s1 = (Ok b, s').
Proof.
  intros c k s b s'. unfold bind.
  destruct (c s) as [[a | e] s1]; [eauto | discriminate].
Qed.

End Throws.

Lemma throwsOnly_modify :
  forall P f, throwsOnly P (modify f).
Proof. intros P f s e s'. discriminate. Qed.

Lemma throwsOnly_when :
  forall P b c, throwsOnly P c -> throwsOnly P (when b c).
Proof.
  intros P b c H. destruct b; [exact H | apply throwsOnly_ret].
Qed.

Lemma tryCatch_completes :
  forall body onError s resp s',
    throwsOnly refusal body ->
    onError = handleError \/ onError = handleUserError ->
    tryCatch body onError s = (resp, s') ->
    completes resp = true ->
    body s = (Ok resp, s').
Proof.
  intros body onError s resp s' Hthrows Hhandler. unfold tryCatch.
  destruct (body s) as [[r | e] s1] eqn:E.
  - now intros [= -> ->].
  - intros [= <- <-] Hc. exfalso.
    destruct (refusal_not_complete e (Hthrows _ _ _ E)) as [H1 H2].
    destruct Hhandler as [-> | ->]; congruence.
Qed.

Create HintDb throws.

#[export] Hint Resolve throwsOnly_ret throwsOnly_gets throwsOnly_modify
  throwsOnly_when : throws.

Ltac throws_step :=
  match goal with
  | |- throwsOnly _ (bind _ _) => apply throwsOnly_bind; [| intros ?]
  | |- throwsOnly _ (throw _) => apply throwsOnly_throw; exact I
  | |- throwsOnly _ (when _ _) => apply throwsOnly_when
  | |- throwsOnly _ (if ?b then _ else _) => destruct b
  | |- throwsOnly _ (match ?x with _ => _ end) => destruct x
  | |- throwsOnly _ _ => solve [auto with throws]
  end.

Ltac throws := repeat throws_step.

Section RunLemmas.
Context {rt : Runtime}.

Lemma parseDateValue_throws :
  forall value fieldName e,
    parseDateValue value fieldName = Throw e -> refusal e.
Proof.
  intros value fieldName e. unfold parseDateValue, createError.
  repeat match goal with
         | |- context [match ?x with _ => _ end] => destruct x
         end; try discriminate; intros [= <-]; exact I.
Qed.

Lemma checkIds_refusal :
  forall fieldName ids e, checkIds fieldName ids = Throw e -> refusal e.
Proof.
  intros fieldName. induction ids as [| id ids IH]; simpl; intros e.
  - discriminate.
  - destruct (negb (ObjectId_isValid id)); [| apply IH].
    intros [= <-]. exact I.
Qed.

Lemma normalizeIdArray_throws :
  forall values fieldName e,
    normalizeIdArray values fieldName = Throw e -> refusal e.
Proof.
  intros values fieldName e. rewrite normalizeIdArray_unfold.
  destruct (checkIds _ _) eqn:E; [discriminate |].
  intros [= <-]. eapply checkIds_refusal; eassumption.
Qed.

(** ** The cast of an id *)

Lemma toObjectId_stored :
  forall stored id, In id stored -> toObjectId stored id = Some id.
Proof.
  intros stored id Hin. unfold toObjectId.
  now apply includes_In in Hin as ->.
Qed.

Lemma toObjectId_cast :
  forall stored id,
    ~ In id stored -> toObjectId stored id = castObjectId id.
Proof.
  intros stored id Hin. unfold toObjectId.
  now apply includes_false in Hin as ->.
Qed.

Lemma castId_run :
  forall stored id s,
    castId stored id s
    = (match toObjectId (stored s) id with
       | Some oid => Ok oid
       | None => Throw (CastError "_id")
       end, s).
Proof.
  intros stored id s. unfold castId.
  now destruct (toObjectId (stored s) id).
Qed.

Lemma castId_Ok :
  forall stored id s oid s1,
    castId stored id s = (Ok oid, s1) ->
    toObjectId (stored s) id = Some oid /\ s1 = s.
Proof.
  intros stored id s oid s1. rewrite castId_run.
  destruct (toObjectId (stored s) id); [| discriminate].
  intros [= <- <-]. split; reflexivity.
Qed.

Lemma castId_store :
  forall stored id s, snd (castId stored id s) = s.
Proof. intros stored id s. now rewrite castId_run. Qed.

Lemma throwsOnly_castId :
  forall stored id, throwsOnly refusal (castId stored id).
Proof.
  intros stored id s e s'. rewrite castId_run.
  destruct (toObjectId (stored s) id); [discriminate |].
  intros [= <- _]. exact I.
Qed.

Lemma castIds_store :
  forall stored ids s, snd (castIds stored ids s) = s.
Proof.
  intros stored. induction ids as [| id ids IH]; intros s; simpl.
  - reflexivity.
  - unfold bind at 1. rewrite castId_run.
    destruct (toObjectId (stored s) id); [| reflexivity].
    unfold bind. specialize (IH s).
    destruct (castIds stored ids s) as [[oids | e] s1]; simpl in *;
      now subst.
Qed.

(** The cast of a list succeeds when the cast of each id does, and gives
    their ObjectIds in the same order. *)
Lemma castIds_Ok :
  forall stored ids s oids s1,
    castIds stored ids s = (Ok oids, s1) ->
    s1 = s
    /\ Forall2 (fun id oid => toObjectId (stored s) id = Some oid) ids oids.
Proof.
  intros stored. induction ids as [| id ids IH]; intros s oids s1; simpl.
  - intros [= <- <-]. split; [reflexivity | constructor].
  - intros Hrun. apply bind_Ok in Hrun as (oid & s2 & Hid & Hrun).
    apply castId_Ok in Hid as [Hid ->].
    apply bind_Ok in Hrun as (rest & s2 & Hrest & Hrun).
    apply IH in Hrest as [-> Hrest]. injection Hrun as <- <-.
    split; [reflexivity | now constructor].
Qed.

Lemma castIds_stored :
  forall stored ids s,
    (forall id, In id ids -> In id (stored s)) ->
    castIds stored ids s = (Ok ids, s).
Proof.
  intros stored. induction ids as [| id ids IH]; intros s Hin; simpl.
  - reflexivity.
  - unfold bind at 1. rewrite castId_run.
    rewrite toObjectId_stored by (apply Hin; now left).
    unfold bind. rewrite IH by (intros x Hx; apply Hin; now right).
    reflexivity.
Qed.

Lemma throwsOnly_castIds :
  forall stored ids, throwsOnly refusal (castIds stored ids).
Proof.
  intros stored. induction ids as [| id ids IH]; simpl.
  - apply throwsOnly_ret.
  - apply throwsOnly_bind; [apply throwsOnly_castId | intros oid].
    apply throwsOnly_bind; [exact IH | intros oids].
    apply throwsOnly_ret.
Qed.

Lemma User_findById_Ok :
  forall id s found s1,
    User_findById id s = (Ok found, s1) ->
    s1 = s
    /\ exists oid,
         toObjectId (userIds s) id = Some oid /\ found = findUser oid s.
Proof.
  intros id s found s1 Hrun. unfold User_findById in Hrun.
  apply bind_Ok in Hrun as (oid & s2 & Hid & Hrun).
  apply castId_Ok in Hid as [Hid ->]. injection Hrun as <- <-.
  split; [reflexivity | eauto].
Qed.

Lemma Task_findById_Ok :
  forall id s found s1,
    Task_findById id s = (Ok found, s1) ->
    s1 = s
    /\ exists oid,
         toObjectId (taskIds s) id = Some oid /\ found = findTask oid s.
Proof.
  intros id s found s1 Hrun. unfold Task_findById in Hrun.
  apply bind_Ok in Hrun as (oid & s2 & Hid & Hrun).
  apply castId_Ok in Hid as [Hid ->]. injection Hrun as <- <-.
  split; [reflexivity | eauto].
Qed.

Lemma User_findById_store :
  forall id s, snd (User_findById id s) = s.
Proof.
  intros id s. unfold User_findById, bind. rewrite castId_run.
  now destruct (toObjectId (userIds s) id).
Qed.

Lemma Task_findById_store :
  forall id s, snd (Task_findById id s) = s.
Proof.
  intros id s. unfold Task_findById, bind. rewrite castId_run.
  now destruct (toObjectId (taskIds s) id).
Qed.

(** A text under which a document is stored finds that document. *)
Lemma User_findById_stored :
  forall id s U,
    findUser id s = Some U -> User_findById id s = (Ok (Some U), s).
Proof.
  intros id s U HU. unfold User_findById, bind. rewrite castId_run.
  rewrite toObjectId_stored.
  - unfold User_findByObjectId, gets. now rewrite HU.
  - apply (find_has_Some_iff u_id). exists U. exact HU.
Qed.

Lemma Task_findById_stored :
  forall id s T,
    findTask id s = Some T -> Task_findById id s = (Ok (Some T), s).
Proof.
  intros id s T HT. unfold Task_findById, bind. rewrite castId_run.
  rewrite toObjectId_stored.
  - unfold Task_findByObjectId, gets. now rewrite HT.
  - apply (find_has_Some_iff t_id). exists T. exact HT.
Qed.

Lemma Task_findIn_Ok :
  forall ids s found s1,
    Task_findIn ids s = (Ok found, s1) ->
    s1 = s
    /\ exists oids,
         Forall2 (fun id oid => toObjectId (taskIds s) id = Some oid)
                 ids oids
         /\ found = filter (fun t => Coll.includes oids (t_id t)) (tasks s).
Proof.
  intros ids s found s1 Hrun. unfold Task_findIn in Hrun.
  apply bind_Ok in Hrun as (oids & s2 & Hids & Hrun).
  apply castIds_Ok in Hids as [-> Hids]. injection Hrun as <- <-.
  split; [reflexivity | eauto].
Qed.

Lemma Task_findIn_store :
  forall ids s, snd (Task_findIn ids s) = s.
Proof.
  intros ids s. unfold Task_findIn, bind.
  pose proof (castIds_store taskIds ids s) as H.
  destruct (castIds taskIds ids s) as [[oids | e] s1]; simpl in *; now subst.
Qed.

Lemma throwsOnly_User_findById :
  forall id, throwsOnly refusal (User_findById id).
Proof.
  intros id. unfold User_findById.
  apply throwsOnly_bind; [apply throwsOnly_castId | intros oid].
  apply throwsOnly_gets.
Qed.

Lemma throwsOnly_Task_findById :
  forall id, throwsOnly refusal (Task_findById id).
Proof.
  intros id. unfold Task_findById.
  apply throwsOnly_bind; [apply throwsOnly_castId | intros oid].
  apply throwsOnly_gets.
Qed.

Lemma throwsOnly_User_findByObjectId :
  forall oid, throwsOnly refusal (User_findByObjectId oid).
Proof. intros oid. apply throwsOnly_gets. Qed.

Lemma throwsOnly_Task_findByObjectId :
  forall oid, throwsOnly refusal (Task_findByObjectId oid).
Proof. intros oid. apply throwsOnly_gets. Qed.

Lemma throwsOnly_Task_findIn :
  forall ids, throwsOnly refusal (Task_findIn ids).
Proof.
  intros ids. unfold Task_findIn.
  apply throwsOnly_bind; [apply throwsOnly_castIds | intros oids].
  apply throwsOnly_gets.
Qed.

Lemma throwsOnly_onUsers :
  forall f, throwsOnly refusal (onUsers f).
Proof. intros f. apply throwsOnly_modify. Qed.

Lemma throwsOnly_onTasks :
  forall f, throwsOnly refusal (onTasks f).
Proof. intros f. apply throwsOnly_modify. Qed.

Lemma throwsOnly_Task_save :
  forall doc, throwsOnly refusal (Task_save doc).
Proof.
  intros doc s e s'. unfold Task_save.
  destruct (negb (validTask doc)); [| discriminate].
  intros [= <- _]. exact I.
Qed.

Lemma throwsOnly_User_save :
  forall doc, throwsOnly refusal (User_save doc).
Proof.
  intros doc s e s'. unfold User_save.
  destruct (negb (validUser doc)); [intros [= <- _]; exact I |].
  destruct (emailTaken doc (users s)); [intros [= <- _]; exact I |].
  discriminate.
Qed.

Lemma removeTaskFromUser_run :
  forall t w s, removeTaskFromUser t w s = (Ok tt, detach t w s).
Proof.
  intros t w s. unfold removeTaskFromUser, detach.
  now destruct (w =? "").
Qed.

Lemma addTaskToUser_run :
  forall t w s, addTaskToUser t w s = (Ok tt, attach t w s).
Proof.
  intros t w s. unfold addTaskToUser, attach.
  now destruct (w =? "").
Qed.

Lemma throwsOnly_removeTaskFromUser :
  forall t w, throwsOnly refusal (removeTaskFromUser t w).
Proof. intros t w s e s'. rewrite removeTaskFromUser_run. discriminate. Qed.

Lemma throwsOnly_addTaskToUser :
  forall t w, throwsOnly refusal (addTaskToUser t w).
Proof. intros t w s e s'. rewrite addTaskToUser_run. discriminate. Qed.

#[local] Hint Resolve throwsOnly_castId throwsOnly_castIds
  throwsOnly_User_findById throwsOnly_Task_findById
  throwsOnly_User_findByObjectId throwsOnly_Task_findByObjectId
  throwsOnly_Task_findIn throwsOnly_onUsers throwsOnly_onTasks
  throwsOnly_Task_save throwsOnly_User_save throwsOnly_removeTaskFromUser
  throwsOnly_addTaskToUser : throws.

Lemma throwsOnly_ensureTasksExist :
  forall ids, throwsOnly refusal (ensureTasksExist ids).
Proof. intros ids. unfold ensureTasksExist. throws. Qed.

Lemma throwsOnly_ensureOwned :
  forall u name fetched, throwsOnly refusal (ensureOwned u name fetched).
Proof.
  intros u name. induction fetched as [| T fetched IH]; simpl.
  - apply throwsOnly_ret.
  - throws.
Qed.

#[local] Hint Resolve throwsOnly_ensureTasksExist throwsOnly_ensureOwned
  : throws.

Lemma throwsOnly_syncUserPendingTasks :
  forall U previous, throwsOnly refusal (syncUserPendingTasks U previous).
Proof.
  intros U previous. unfold syncUserPendingTasks, removedPass, currentPass.
  throws.
Qed.

Lemma throwsOnly_assignTask :
  forall T U, throwsOnly refusal (assignTask T U).
Proof. intros T U. unfold assignTask. throws. Qed.

Lemma throwsOnly_unassignTask :
  forall T, throwsOnly refusal (unassignTask T).
Proof. intros T. unfold unassignTask. throws. Qed.

Lemma throwsOnly_findAssignedUser :
  forall id, throwsOnly refusal (findAssignedUser id).
Proof. intros id. unfold findAssignedUser. throws. Qed.

Lemma throwsOnly_parseDateValue :
  forall value fieldName,
    throwsOnly refusal (lift (parseDateValue value fieldName)).
Proof.
  intros. apply throwsOnly_lift. apply parseDateValue_throws.
Qed.

Lemma throwsOnly_normalizeIdArray :
  forall value fieldName,
    throwsOnly refusal (lift (normalizeIdArray value fieldName)).
Proof.
  intros. apply throwsOnly_lift. apply normalizeIdArray_throws.
Qed.

#[local] Hint Resolve throwsOnly_syncUserPendingTasks throwsOnly_assignTask
  throwsOnly_unassignTask throwsOnly_findAssignedUser
  throwsOnly_parseDateValue throwsOnly_normalizeIdArray : throws.

Lemma gets_run :
  forall (A : Type) (f : Store -> A) s a s1,
    gets f s = (Ok a, s1) -> a = f s /\ s1 = s.
Proof. intros A f s a s1 [= <- <-]. split; reflexivity. Qed.

Lemma Task_save_Ok :
  forall doc s x s1,
    Task_save doc s = (Ok x, s1) -> validTask doc = true /\ s1 = putTask doc s.
Proof.
  intros doc s x s1. unfold Task_save.
  destruct (validTask doc); simpl; [| discriminate].
  intros [= _ <-]. split; reflexivity.
Qed.

Lemma User_save_Ok :
  forall doc s x s1,
    User_save doc s = (Ok x, s1) ->
    validUser doc = true /\ emailTaken doc (users s) = false
    /\ s1 = putUser doc s.
Proof.
  intros doc s x s1. unfold User_save.
  destruct (validUser doc); simpl; [| discriminate].
  destruct (emailTaken doc (users s)); [discriminate |].
  intros [= _ <-]. repeat split; reflexivity.
Qed.

Lemma detach_empty : forall t s, detach t "" s = s.
Proof. reflexivity. Qed.

Lemma attach_empty : forall t s, attach t "" s = s.
Proof. reflexivity. Qed.

(** Detaching from the previous owner, when it is another user than
    [next]. *)
Lemma detach_guard :
  forall t previous next s,
    (if negb (previous =? "") && negb (previous =? next)
     then detach t previous s else s)
    = if previous =? next then s else detach t previous s.
Proof.
  intros t previous next s.
  destruct (String.eqb_spec previous "") as [-> | H].
  - rewrite detach_empty. now destruct ("" =? next).
  - now destruct (previous =? next).
Qed.

Lemma assignTask_run :
  forall T U s,
    assignTask T U s
    = (Ok (setOwner (u_id U) (u_name U) T),
       if assignedUser T =? u_id U then s
       else detach (t_id T) (assignedUser T) s).
Proof.
  intros T U s. unfold assignTask, bind, when, ret.
  rewrite <- detach_guard.
  destruct (negb (assignedUser T =? "") && negb (assignedUser T =? u_id U));
    [rewrite removeTaskFromUser_run |]; reflexivity.
Qed.

Lemma unassignTask_run :
  forall T s,
    unassignTask T s
    = (Ok (setOwner "" unassigned T),
       if assignedUser T =? "" then s
       else detach (t_id T) (assignedUser T) s).
Proof.
  intros T s. unfold unassignTask, bind, when, ret.
  destruct (assignedUser T =? ""); simpl;
    [| rewrite removeTaskFromUser_run]; reflexivity.
Qed.

(** What the lookup of the assigned user found: nothing for the empty
    text, and else the user stored under the ObjectId the text is cast
    to. *)
Lemma findAssignedUser_Ok :
  forall id s userDoc s1,
    findAssignedUser id s = (Ok userDoc, s1) ->
    s1 = s
    /\ match userDoc with
       | Some U =>
           id <> ""
           /\ toObjectId (userIds s) id = Some (u_id U)
           /\ findUser (u_id U) s = Some U
       | None => id = ""
       end.
Proof.
  intros id s userDoc s1. unfold findAssignedUser.
  destruct (String.eqb_spec id "") as [-> | Hne]; simpl.
  - intros [= <- <-]. split; reflexivity.
  - destruct (negb (ObjectId_isValid id)); [discriminate |].
    intros Hrun. apply bind_Ok in Hrun as (found & s2 & Hfind & Hrun).
    apply User_findById_Ok in Hfind as [-> (oid & Hoid & ->)].
    destruct (findUser oid s) as [U |] eqn:E; [| discriminate].
    injection Hrun as <- <-.
    pose proof (findUser_id _ _ _ E) as Hid. subst oid.
    repeat split; assumption.
Qed.

Lemma findAssignedUser_store :
  forall id s, snd (findAssignedUser id s) = s.
Proof.
  intros id s. unfold findAssignedUser.
  destruct (negb (id =? "")); [| reflexivity].
  destruct (negb (ObjectId_isValid id)); [reflexivity |].
  unfold bind. pose proof (User_findById_store id s) as H.
  destruct (User_findById id s) as [[[U |] | e] s1]; simpl in *; now subst.
Qed.

Lemma when_removeTaskFromUser_run :
  forall b t w s,
    when b (removeTaskFromUser t w) s = (Ok tt, if b then detach t w s else s).
Proof.
  intros b t w s. destruct b; simpl; [apply removeTaskFromUser_run |].
  reflexivity.
Qed.

Lemma attach_or_detach_run :
  forall (done : bool) t w s,
    when (negb (w =? ""))
         (if done then removeTaskFromUser t w else addTaskToUser t w) s
    = (Ok tt, if done then detach t w s else attach t w s).
Proof.
  intros done t w s.
  destruct (String.eqb_spec w "") as [-> | Hw]; simpl.
  - now destruct done.
  - destruct done; [apply removeTaskFromUser_run | apply addTaskToUser_run].
Qed.

(** What a task update that completes has done.  [oid] is the ObjectId
    the text of the request is cast to, [T0] the task stored under it. *)
Lemma tasks_put_ok :
  forall taskId body s resp s',
    tasks_put taskId body s = (resp, s') ->
    completes resp = true ->
    exists oid T0 deadlineValue userDoc,
      toObjectId (taskIds s) taskId = Some oid
      /\ findTask oid s = Some T0
      /\ parseDateValue (tb_deadline body) "deadline" = Ok deadlineValue
      /\ match userDoc with
         | Some U =>
             assignedUserOf body <> ""
             /\ toObjectId (userIds s) (assignedUserOf body) = Some (u_id U)
             /\ findUser (u_id U) s = Some U
         | None => assignedUserOf body = ""
         end
      /\ validTask (updatedTask oid body deadlineValue userDoc) = true
      /\ s' = reassigned oid taskId (assignedUser T0) (ownerOf userDoc)
                (updatedTask oid body deadlineValue userDoc) s
      /\ exists updated,
           Task_findById taskId s' = (Ok updated, s')
           /\ resp = sendResponse 200 "Task updated" (DTask updated).
Proof.
  intros taskId body s resp s' Hrun Hc. unfold tasks_put in Hrun.
  apply tryCatch_completes in Hrun; [| throws | auto | assumption].
  destruct (negb (ObjectId_isValid taskId)); [discriminate |].
  apply bind_Ok in Hrun as (found & s1 & Hfind & Hrun).
  apply Task_findById_Ok in Hfind as [-> (oid & Hoid & ->)].
  destruct (findTask oid s) as [T0 |] eqn:HT0; [| discriminate].
  pose proof (findTask_id _ _ _ HT0) as Hid.
  apply bind_Ok in Hrun as (deadlineValue & s1 & Hdate & Hrun).
  injection Hdate as Hdate <-.
  apply bind_Ok in Hrun as (userDoc & s1 & Huser & Hrun).
  apply findAssignedUser_Ok in Huser as [-> Huser].
  apply bind_Ok in Hrun as (doc & s1 & Hassign & Hrun).
  apply bind_Ok in Hrun as (x & s2 & Hsave & Hrun).
  apply Task_save_Ok in Hsave as [Hvalid ->].
  apply bind_Ok in Hrun as (x1 & s3 & Hdetach & Hrun).
  apply bind_Ok in Hrun as (x2 & s4 & Hfinal & Hrun).
  apply bind_Ok in Hrun as (updated & s5 & Hread & Hrun).
  injection Hrun as <- <-.
  pose proof (Task_findById_store taskId s4) as Hs5.
  rewrite Hread in Hs5. simpl in Hs5. subst s5.
  exists oid, T0, deadlineValue, userDoc.
  split; [exact Hoid |]. split; [exact HT0 |].
  split; [assumption |]. split; [assumption |].
  rewrite when_removeTaskFromUser_run in Hdetach. injection Hdetach as _ <-.
  assert (Hdoc : doc = updatedTask oid body deadlineValue userDoc
                 /\ s1 = if assignedUser T0 =? ownerOf userDoc then s
                         else detach oid (assignedUser T0) s).
  { destruct userDoc as [U |].
    - rewrite assignTask_run in Hassign. simpl in Hassign.
      injection Hassign as <- <-. rewrite Hid.
      split; reflexivity.
    - rewrite unassignTask_run in Hassign. simpl in Hassign.
      injection Hassign as <- <-. rewrite Hid.
      split; reflexivity. }
  destruct Hdoc as [-> ->].
  assert (Hnext : assignedUser (updatedTask oid body deadlineValue userDoc)
                  = ownerOf userDoc).
  { now destruct userDoc as [U |]. }
  rewrite Hnext in Hfinal. rewrite attach_or_detach_run in Hfinal.
  injection Hfinal as _ <-.
  split; [assumption |]. split; [| eauto].
  unfold reassigned. fold (ownerOf userDoc). rewrite detach_guard.
  reflexivity.
Qed.

(** What a task creation that completes has done. *)
Lemma tasks_post_ok :
  forall newId body s resp s',
    tasks_post newId body s = (resp, s') ->
    completes resp = true ->
    exists deadlineValue userDoc,
      match userDoc with
      | Some U =>
          assignedUserOf body <> ""
          /\ toObjectId (userIds s) (assignedUserOf body) = Some (u_id U)
          /\ findUser (u_id U) s = Some U
      | None => assignedUserOf body = ""
      end
      /\ let doc := updatedTask newId body deadlineValue userDoc in
         validTask doc = true
         /\ s' = (if completed doc then putTask doc s
                  else attach newId (ownerOf userDoc) (putTask doc s))
         /\ resp = sendResponse 201 "Task created" (DTask (findTask newId s')).
Proof.
  intros newId body s resp s' Hrun Hc. unfold tasks_post in Hrun.
  apply tryCatch_completes in Hrun; [| throws | auto | assumption].
  apply bind_Ok in Hrun as (userDoc & s1 & Huser & Hrun).
  apply findAssignedUser_Ok in Huser as [-> Huser].
  apply bind_Ok in Hrun as (deadlineValue & s1 & Hdate & Hrun).
  injection Hdate as Hdate <-.
  apply bind_Ok in Hrun as (doc & s1 & Hassign & Hrun).
  apply bind_Ok in Hrun as (x & s2 & Hsave & Hrun).
  apply Task_save_Ok in Hsave as [Hvalid ->].
  apply bind_Ok in Hrun as (x1 & s3 & Hattach & Hrun).
  apply bind_Ok in Hrun as (created & s4 & Hread & Hrun).
  apply gets_run in Hread as [-> ->]. injection Hrun as <- <-.
  exists deadlineValue, userDoc. split; [assumption |]. cbv zeta.
  assert (Hdoc : doc = updatedTask newId body deadlineValue userDoc /\ s1 = s).
  { destruct userDoc as [U |].
    - rewrite assignTask_run in Hassign. cbn [assignedUser t_id] in Hassign.
      injection Hassign as <- <-. split; [reflexivity |].
      destruct (u_id U); reflexivity.
    - injection Hassign as <- <-. split; reflexivity. }
  destruct Hdoc as [-> ->].
  split; [assumption |].
  change (t_id (updatedTask newId body deadlineValue userDoc)) with newId
    in *.
  assert (Hnext : assignedUser (updatedTask newId body deadlineValue userDoc)
                  = ownerOf userDoc)
    by now destruct userDoc.
  rewrite Hnext in Hattach. unfold when in Hattach.
  assert (Hs3 : s3 = if completed (updatedTask newId body deadlineValue
                                               userDoc)
                     then putTask (updatedTask newId body deadlineValue
                                               userDoc) s
                     else attach newId (ownerOf userDoc)
                            (putTask (updatedTask newId body deadlineValue
                                                  userDoc) s)).
  { destruct (completed (updatedTask newId body deadlineValue userDoc)).
    - rewrite andb_false_r in Hattach. now injection Hattach as _ <-.
    - rewrite andb_true_r in Hattach.
      destruct (String.eqb_spec (ownerOf userDoc) "") as [E | E];
        simpl in Hattach.
      + injection Hattach as _ <-. now rewrite E, attach_empty.
      + rewrite addTaskToUser_run in Hattach. now injection Hattach as _ <-. }
  split; [exact Hs3 | reflexivity].
Qed.

(** What a task deletion that completes has done: the task stored under
    the ObjectId of the request is dropped, and the text of the request
    is pulled from the list of its owner. *)
Lemma tasks_delete_ok :
  forall taskId s resp s',
    tasks_delete taskId s = (resp, s') ->
    completes resp = true ->
    exists oid T0,
      toObjectId (taskIds s) taskId = Some oid
      /\ findTask oid s = Some T0
      /\ s' = detach taskId (assignedUser T0) (dropTask oid s)
      /\ resp = NoContent.
Proof.
  intros taskId s resp s' Hrun Hc. unfold tasks_delete in Hrun.
  apply tryCatch_completes in Hrun; [| throws | auto | assumption].
  destruct (negb (ObjectId_isValid taskId)); [discriminate |].
  apply bind_Ok in Hrun as (found & s1 & Hfind & Hrun).
  apply Task_findById_Ok in Hfind as [-> (oid & Hoid & ->)].
  destruct (findTask oid s) as [T0 |] eqn:HT0; [| discriminate].
  apply bind_Ok in Hrun as (oid' & s1 & Hcast & Hrun).
  apply castId_Ok in Hcast as [Hoid' ->].
  rewrite Hoid in Hoid'. injection Hoid' as <-.
  apply bind_Ok in Hrun as (x & s1 & Hdrop & Hrun).
  injection Hdrop as _ <-.
  apply bind_Ok in Hrun as (x1 & s2 & Hdetach & Hrun).
  injection Hrun as <- <-.
  rewrite when_removeTaskFromUser_run in Hdetach.
  injection Hdetach as _ <-.
  exists oid, T0. split; [exact Hoid |]. split; [exact HT0 |].
  split; [| reflexivity]. fold (dropTask oid s).
  destruct (String.eqb_spec (assignedUser T0) "") as [E | E].
  - now rewrite E, detach_empty.
  - reflexivity.
Qed.

(** What a user deletion that completes has done: the tasks whose
    [assignedUser] is the text of the request are cleared, and the user
    stored under the ObjectId of the request is dropped. *)
Lemma users_delete_ok :
  forall userId s resp s',
    users_delete userId s = (resp, s') ->
    completes resp = true ->
    exists oid U0,
      toObjectId (userIds s) userId = Some oid
      /\ findUser oid s = Some U0
      /\ s' = dropUser oid
                (clearOwners (fun t => assignedUser t =? userId) s)
      /\ resp = NoContent.
Proof.
  intros userId s resp s' Hrun Hc. unfold users_delete in Hrun.
  apply tryCatch_completes in Hrun; [| throws | auto | assumption].
  destruct (negb (ObjectId_isValid userId)); [discriminate |].
  apply bind_Ok in Hrun as (found & s1 & Hfind & Hrun).
  apply User_findById_Ok in Hfind as [-> (oid & Hoid & ->)].
  destruct (findUser oid s) as [U0 |] eqn:HU0; [| discriminate].
  apply bind_Ok in Hrun as (x & s1 & Hclear & Hrun).
  injection Hclear as _ <-.
  apply bind_Ok in Hrun as (oid' & s1 & Hcast & Hrun).
  apply castId_Ok in Hcast as [Hoid' ->].
  change (userIds (mkStore (users s) ?ts)) with (userIds s) in Hoid'.
  rewrite Hoid in Hoid'. injection Hoid' as <-.
  apply bind_Ok in Hrun as (x1 & s2 & Hdrop & Hrun).
  injection Hdrop as _ <-. injection Hrun as <- <-.
  exists oid, U0. repeat split; assumption.
Qed.

End RunLemmas.

(* ===================================================================== *)
(** * Theorems: task updates *)
(* ===================================================================== *)

Lemma pull_pull :
  forall item l, Coll.pull item (Coll.pull item l) = Coll.pull item l.
Proof.
  intros item l. unfold Coll.pull. rewrite filter_filter_and.
  apply filter_ext_in_bool. intros x _. now destruct (negb (x =? item)).
Qed.

Lemma findTask_reassigned :
  forall oid taskId previous next doc s x,
    findTask x (reassigned oid taskId previous next doc s)
    = if x =? t_id doc then Some doc else findTask x s.
Proof.
  intros oid taskId previous next doc s x. unfold reassigned.
  destruct (completed doc), (previous =? next);
    repeat (rewrite findTask_detach || rewrite findTask_attach);
    rewrite findTask_putTask;
    repeat (rewrite findTask_detach || rewrite findTask_attach);
    reflexivity.
Qed.

Section TaskUpdateTheorems.
Context {rt : Runtime}.

(** A task update that completes and moves a task that is not completed
    from owner [A] to another owner [B].  The task is stored under [oid],
    the ObjectId the text [taskId] of the request is cast to.  A's pending
    list loses the entries [oid] and [taskId]; B's gains the entry
    [taskId], the text of the request, whether or not it is the text the
    task is stored under. *)
Lemma tasks_put_reassign_pending :
  forall (taskId oid : string) (body : TaskBody) (s : Store)
         (T0 : Task) (A B : string) (PA PB : list string),
    toObjectId (taskIds s) taskId = Some oid ->
    findTask oid s = Some T0 ->
    assignedUser T0 = A ->
    assignedUserOf body <> "" ->
    toObjectId (userIds s) (assignedUserOf body) = Some B ->
    A <> "" -> B <> "" -> A <> B ->
    pendingOf s A = Some PA ->
    pendingOf s B = Some PB ->
    parseBoolean (tb_completed body) false = false ->
    completes (fst (tasks_put taskId body s)) = true ->
    let s' := snd (tasks_put taskId body s) in
    pendingOf s' A = Some (Coll.pull taskId (Coll.pull oid PA))
    /\ pendingOf s' B = Some (Coll.addToSet taskId PB).
Proof.
  intros taskId oid body s T0 A B PA PB Hoid HT0 HA Hbody HB HAne HBne HAB
         HPA HPB Hopen Hc s'.
  destruct (tasks_put taskId body s) as [resp s1] eqn:Hrun.
  simpl in Hc. subst s'. simpl.
  destruct (tasks_put_ok _ _ _ _ _ Hrun Hc)
    as (oid' & T0' & dl & userDoc & Hoid' & HT0' & _ & Huser & _ & -> & _).
  rewrite Hoid in Hoid'. injection Hoid' as <-.
  rewrite HT0 in HT0'. injection HT0' as <-.
  destruct userDoc as [U |]; [| contradiction].
  destruct Huser as (_ & HU & _). rewrite HB in HU. injection HU as HU.
  simpl ownerOf. rewrite HA, <- HU. unfold reassigned.
  apply String.eqb_neq in HAB as HABb. rewrite HABb.
  replace (completed (updatedTask oid body dl (Some U))) with false
    by (symmetry; exact Hopen).
  assert (HBA : (B =? A) = false) by (apply String.eqb_neq; congruence).
  split.
  - rewrite pendingOf_attach by assumption. rewrite HABb.
    rewrite pendingOf_detach by assumption. rewrite String.eqb_refl.
    rewrite pendingOf_putTask.
    rewrite pendingOf_detach by assumption. rewrite String.eqb_refl.
    now rewrite HPA.
  - rewrite pendingOf_attach by assumption. rewrite String.eqb_refl.
    rewrite pendingOf_detach by assumption. rewrite HBA.
    rewrite pendingOf_putTask.
    rewrite pendingOf_detach by assumption. rewrite HBA.
    now rewrite HPB.
Qed.

(** A task update that completes and whose payload has no [completed]
    field leaves the task not completed, also when it was completed
    before; and when the task then has an owner, that owner's pending
    list holds [taskId], the text of the request. *)
Lemma tasks_put_without_completed :
  forall (taskId oid : string) (body : TaskBody) (s : Store) (T0 : Task),
    toObjectId (taskIds s) taskId = Some oid ->
    findTask oid s = Some T0 ->
    tb_completed body = JUndefined ->
    completes (fst (tasks_put taskId body s)) = true ->
    let s' := snd (tasks_put taskId body s) in
    exists T1,
      findTask oid s' = Some T1
      /\ completed T1 = false
      /\ (assignedUserOf body = "" -> assignedUser T1 = "")
      /\ (assignedUser T1 <> "" ->
          toObjectId (userIds s) (assignedUserOf body)
          = Some (assignedUser T1)
          /\ exists P, pendingOf s' (assignedUser T1) = Some P
                       /\ In taskId P).
Proof.
  intros taskId oid body s T0 Hoid HT0 Hbody Hc s'.
  destruct (tasks_put taskId body s) as [resp s1] eqn:Hrun.
  simpl in Hc. subst s'. simpl.
  destruct (tasks_put_ok _ _ _ _ _ Hrun Hc)
    as (oid' & T0' & dl & userDoc & Hoid' & HT0' & _ & Huser & _ & -> & _).
  rewrite Hoid in Hoid'. injection Hoid' as <-.
  rewrite HT0 in HT0'. injection HT0' as <-.
  assert (Hopen : completed (updatedTask oid body dl userDoc) = false)
    by (simpl; now rewrite Hbody).
  exists (updatedTask oid body dl userDoc).
  split; [| split; [assumption | split]].
  - rewrite findTask_reassigned. simpl. now rewrite String.eqb_refl.
  - intros Hnone. destruct userDoc as [U |]; simpl; [| reflexivity].
    destruct Huser as (Hne & _). contradiction.
  - intros Hne. destruct userDoc as [U |]; [| now simpl in Hne].
    destruct Huser as (_ & HU & HfU).
    change (assignedUser (updatedTask oid body dl (Some U))) with (u_id U)
      in *.
    split; [exact HU |].
    unfold reassigned. rewrite Hopen. cbn [ownerOf].
    set (s3 := if assignedUser T0 =? u_id U then _ else _).
    assert (Hex : pendingOf s3 (u_id U) <> None).
    { apply pendingOf_exists. subst s3.
      assert (Hput : forall doc s0, userIds (putTask doc s0) = userIds s0)
        by reflexivity.
      destruct (assignedUser T0 =? u_id U);
        rewrite ?userIds_detach, Hput, ?userIds_detach;
        apply pendingOf_exists; unfold pendingOf; rewrite HfU; discriminate. }
    rewrite pendingOf_attach by assumption. rewrite String.eqb_refl.
    destruct (pendingOf s3 (u_id U)) as [P |]; [| congruence].
    simpl. eexists. split; [reflexivity |]. apply addToSet_In. now right.
Qed.

End TaskUpdateTheorems.

(** C7 at PUT /tasks/:id with the id of the task idC in upper case and
    [assignedUser] Bob, in a store where Alice owns idC.  The store casts
    the text and finds the task; the update completes and the task points
    at Bob.  Alice's list loses the task, through [assignTask], which
    pulls [task._id.toString()].  Bob's list gains the text of the
    request, which [addTaskToUser] is given, and not the id of the task.
    The same request with the id as the store writes it puts the id of
    the task into Bob's list. *)
Theorem tasks_put_reassign_respelled_id :
  let body := Demo.taskBody (JStr Demo.idB) in
  let moved := Demo.task Demo.idC false Demo.idB (Value "Bob") in
  tasks_put (rt := Demo.runtime) Demo.idC' body Demo.storeC
  = (Json 200 "Task updated" (DTask (Some moved)),
     mkStore [Demo.alice []; Demo.bob [Demo.idC']] [moved])
  /\ ~ In Demo.idC [Demo.idC']
  /\ tasks_put (rt := Demo.runtime) Demo.idC body Demo.storeC
     = (Json 200 "Task updated" (DTask (Some moved)),
        mkStore [Demo.alice []; Demo.bob [Demo.idC]] [moved]).
Proof.
  split; [reflexivity | split; [| reflexivity]].
  simpl. intros [H | []]. discriminate H.
Qed.

(** C10 at PUT /tasks/:id with the id of the task idC in upper case and
    no [completed] field, on a task that is completed and owned by Alice.
    The update completes and the task is open again; Alice's list gains
    the text of the request, not the id of the task.  The same request
    with the id as the store writes it puts the id of the task back into
    her list. *)
Theorem tasks_put_reopen_respelled_id :
  let body := Demo.taskBody (JStr Demo.idA) in
  let reopened := Demo.task Demo.idC false Demo.idA (Value "Alice") in
  tasks_put (rt := Demo.runtime) Demo.idC' body Demo.doneStoreC
  = (Json 200 "Task updated" (DTask (Some reopened)),
     mkStore [Demo.alice [Demo.idC']; Demo.bob []] [reopened])
  /\ ~ In Demo.idC [Demo.idC']
  /\ tasks_put (rt := Demo.runtime) Demo.idC body Demo.doneStoreC
     = (Json 200 "Task updated" (DTask (Some reopened)),
        mkStore [Demo.alice [Demo.idC]; Demo.bob []] [reopened]).
Proof.
  split; [reflexivity | split; [| reflexivity]].
  simpl. intros [H | []]. discriminate H.
Qed.
(* ===================================================================== *)
(** * Theorems: the user-driven resync *)
(* ===================================================================== *)

Section ResyncTheorems.
Context {rt : Runtime}.

Lemma Task_save_run :
  forall doc s,
    Task_save doc s
    = if validTask doc then (Ok tt, putTask doc s)
      else (Throw (ValidationError "Task validation failed"), s).
Proof. intros doc s. unfold Task_save. now destruct (validTask doc). Qed.

(** One turn of the loop: the task is detached from another owner, then
    saved as owned by this user, unless the store refuses the document. *)
Lemma ensureOwned_step :
  forall u name T rest s,
    ensureOwned u name (T :: rest) s
    = if validTask (owned u name T)
      then ensureOwned u name rest (ownStep u name s T)
      else (Throw (ValidationError "Task validation failed"),
            if negb (assignedUser T =? "") && negb (assignedUser T =? u)
            then detach (t_id T) (assignedUser T) s else s).
Proof.
  intros u name T rest s. cbn [ensureOwned]. fold (owned u name T).
  unfold bind at 1. rewrite when_removeTaskFromUser_run.
  unfold bind at 1. rewrite Task_save_run. unfold ownStep.
  now destruct (validTask (owned u name T)).
Qed.

Lemma findTask_ownStep :
  forall u name s T x,
    findTask x (ownStep u name s T)
    = if x =? t_id T then Some (owned u name T) else findTask x s.
Proof.
  intros u name s T x. unfold ownStep.
  rewrite findTask_putTask, owned_id.
  destruct (x =? t_id T); [reflexivity |].
  destruct (negb _ && negb _); [apply findTask_detach | reflexivity].
Qed.


Lemma snd_bind :
  forall (A B : Type) (c : M A) (k : A -> M B) s,
    snd (bind c k s)
    = match c s with
      | (Ok a, s1) => snd (k a s1)
      | (Throw _, s1) => s1
      end.
Proof.
  intros A B c k s. unfold bind. now destruct (c s) as [[a | e] s1].
Qed.

Lemma NoDup_map_filter :
  forall (A B : Type) (f : A -> B) (p : A -> bool) (l : list A),
    NoDup (map f l) -> NoDup (map f (filter p l)).
Proof.
  intros A B f p. induction l as [| a l IH]; simpl; intros H; [constructor |].
  inversion H as [| ? ? Hnot Hnd]; subst.
  destruct (p a); simpl; [| now apply IH].
  constructor; [| now apply IH].
  intros Hin. apply Hnot. apply in_map_iff in Hin as (b & Hb & Hin).
  apply filter_In in Hin as [Hin _]. apply in_map_iff. eauto.
Qed.

Lemma store_eta :
  forall s, mkStore (users s) (tasks s) = s.
Proof. now intros [us ts]. Qed.

Lemma clearOwners_none :
  forall p s, (forall T, p T = false) -> clearOwners p s = s.
Proof.
  intros p s Hp. unfold clearOwners, Coll.updateMany.
  rewrite (map_ext _ (fun d => d)) by (intros T; now rewrite Hp).
  rewrite map_id. apply store_eta.
Qed.

Lemma pendingOf_ownStep :
  forall u name s T v,
    pendingOf (ownStep u name s T) v
    = if (v =? assignedUser T)
         && (negb (assignedUser T =? "") && negb (assignedUser T =? u))
      then option_map (Coll.pull (t_id T)) (pendingOf s v)
      else pendingOf s v.
Proof.
  intros u name s T v. unfold ownStep. rewrite pendingOf_putTask.
  destruct (String.eqb_spec (assignedUser T) "") as [E | E]; simpl.
  - now rewrite andb_false_r.
  - destruct (negb (assignedUser T =? u)); simpl.
    + rewrite pendingOf_detach by assumption.
      now rewrite andb_true_r.
    + now rewrite andb_false_r.
Qed.

Lemma userIds_ownStep :
  forall u name s T, userIds (ownStep u name s T) = userIds s.
Proof.
  intros u name s T. unfold ownStep.
  change (userIds (putTask ?d ?s0)) with (userIds s0).
  destruct (negb _ && negb _); [apply userIds_detach | reflexivity].
Qed.

Lemma taskIds_ownStep :
  forall u name s T,
    taskIds (ownStep u name s T) = taskIds (putTask (owned u name T) s).
Proof.
  intros u name s T. unfold ownStep, taskIds, putTask. simpl.
  destruct (negb _ && negb _); [now rewrite tasks_detach | reflexivity].
Qed.

Lemma ensureOwned_Ok :
  forall u name fetched s x s',
    ensureOwned u name fetched s = (Ok x, s') ->
    s' = fold_left (ownStep u name) fetched s.
Proof.
  intros u name. induction fetched as [| T fetched IH]; intros s x s'.
  - now intros [= _ <-].
  - rewrite ensureOwned_step.
    destruct (validTask (owned u name T)); [| discriminate].
    simpl. apply IH.
Qed.

(** ** The casts of the two passes *)


Lemma castTo_In_l :
  forall stored ids oids id,
    castTo stored ids oids -> In id ids ->
    exists oid, In oid oids /\ toObjectId stored id = Some oid.
Proof.
  intros stored ids oids id H. induction H as [| x o ids oids Ho H IH].
  - intros [].
  - intros [<- | Hin]; [exists o; simpl; auto |].
    destruct (IH Hin) as (y & Hy & Hc). exists y. simpl. auto.
Qed.

Lemma castTo_stored :
  forall stored ids,
    (forall id, In id ids -> In id stored) -> castTo stored ids ids.
Proof.
  intros stored. induction ids as [| id ids IH]; intros Hin.
  - constructor.
  - constructor.
    + apply toObjectId_stored. apply Hin. now left.
    + apply IH. intros x Hx. apply Hin. now right.
Qed.

Lemma castTo_fun :
  forall stored ids oids oids',
    castTo stored ids oids -> castTo stored ids oids' -> oids = oids'.
Proof.
  intros stored ids oids oids' H. revert oids'.
  induction H as [| id o ids oids Ho H IH]; intros oids' H'.
  - now inversion H'.
  - inversion H' as [| ? o' ? oids'' Ho' H'']; subst.
    rewrite Ho in Ho'. injection Ho' as <-. f_equal. now apply IH.
Qed.

Lemma castIds_total :
  forall stored ids s,
    (forall id, In id ids -> toObjectId (stored s) id <> None) ->
    exists oids,
      castIds stored ids s = (Ok oids, s) /\ castTo (stored s) ids oids.
Proof.
  intros stored. induction ids as [| id ids IH]; intros s Hall.
  - exists []. split; [reflexivity | constructor].
  - destruct (toObjectId (stored s) id) as [oid |] eqn:Hid;
      [| exfalso; apply (Hall id); [now left | assumption]].
    destruct (IH s) as (oids & Hrun & Hcast);
      [intros x Hx; apply Hall; now right |].
    exists (oid :: oids). split; [| now constructor].
    simpl. unfold bind at 1. rewrite castId_run, Hid.
    unfold bind. now rewrite Hrun.
Qed.

Lemma castIds_run_Ok :
  forall stored ids s oids s1,
    castIds stored ids s = (Ok oids, s1) ->
    s1 = s /\ castTo (stored s) ids oids.
Proof. intros stored ids s oids s1. apply castIds_Ok. Qed.

(** ** The two passes *)

(** The removed pass, when it returns, has cleared the tasks that the
    removed ids name and that point at the user. *)
Lemma removedPass_Ok :
  forall userId removed s x s1,
    removedPass userId removed s = (Ok x, s1) ->
    exists oids,
      castTo (taskIds s) removed oids
      /\ s1 = clearOwners (fun t => Coll.includes oids (t_id t)
                                    && (assignedUser t =? userId)) s.
Proof.
  intros userId removed s x s1. unfold removedPass.
  destruct removed as [| r removed'] eqn:Hrem.
  - simpl. intros [= _ <-]. exists []. split; [constructor |].
    symmetry. apply clearOwners_none. reflexivity.
  - rewrite <- Hrem. replace (negb (length removed =? 0)%nat) with true
      by (subst removed; reflexivity).
    unfold when. intros Hrun.
    apply bind_Ok in Hrun as (oids & s2 & Hcast & Hrun).
    apply castIds_run_Ok in Hcast as [-> Hcast].
    exists oids. split; [exact Hcast |].
    unfold onTasks, modify in Hrun. now injection Hrun as _ <-.
Qed.


(** The removed pass writes to no user and keeps the ids of the tasks. *)
Lemma removedPass_store :
  forall userId removed s,
    users (snd (removedPass userId removed s)) = users s
    /\ taskIds (snd (removedPass userId removed s)) = taskIds s.
Proof.
  intros userId removed s. unfold removedPass.
  destruct (negb (length removed =? 0)%nat); simpl; [| split; reflexivity].
  rewrite snd_bind. pose proof (castIds_store taskIds removed s) as H.
  destruct (castIds taskIds removed s) as [[oids | e] s1]; simpl in *;
    subst s1; [| split; reflexivity].
  split; [reflexivity |].
  match goal with
  | |- taskIds (mkStore _ (Coll.updateMany ?p _ _)) = _ =>
      change (taskIds (clearOwners p s) = taskIds s)
  end.
  apply taskIds_clearOwners.
Qed.

(** The current pass, when it returns, ran the loop over the tasks that
    the ids of the new list name. *)
Lemma currentPass_Ok :
  forall U current s x s',
    currentPass U current s = (Ok x, s') ->
    exists oids,
      castTo (taskIds s) current oids
      /\ s' = fold_left (ownStep (u_id U) (u_name U))
                (filter (fun t => Coll.includes oids (t_id t)) (tasks s)) s.
Proof.
  intros U current s x s'. unfold currentPass.
  destruct current as [| c current'] eqn:Hcur.
  - simpl. intros [= _ <-]. exists []. split; [constructor |].
    rewrite (filter_ext_in_bool _ _ (fun _ => false)) by reflexivity.
    assert (Hnil : forall l : list Task, filter (fun _ => false) l = [])
      by (induction l; auto).
    now rewrite Hnil.
  - rewrite <- Hcur. replace (negb (length current =? 0)%nat) with true
      by (subst current; reflexivity).
    unfold when. intros Hrun.
    apply bind_Ok in Hrun as (fetched & s1 & Hfind & Hrun).
    apply Task_findIn_Ok in Hfind as [-> (oids & Hcast & ->)].
    exists oids. split; [exact Hcast |].
    now apply ensureOwned_Ok in Hrun.
Qed.


Lemma syncUserPendingTasks_Ok :
  forall U previous s x s',
    syncUserPendingTasks U previous s = (Ok x, s') ->
    let removed :=
      filter (fun id => negb (Coll.includes (pendingTasks U) id)) previous in
    exists roids coids,
      castTo (taskIds s) removed roids
      /\ castTo (taskIds s) (pendingTasks U) coids
      /\ let s2 :=
           clearOwners (fun t => Coll.includes roids (t_id t)
                                 && (assignedUser t =? u_id U)) s in
         s' = fold_left (ownStep (u_id U) (u_name U))
                (filter (fun t => Coll.includes coids (t_id t)) (tasks s2))
                s2.
Proof.
  intros U previous s x s' Hrun removed.
  unfold syncUserPendingTasks in Hrun. fold removed in Hrun.
  apply bind_Ok in Hrun as (x1 & s1 & Hclear & Hrun).
  apply removedPass_Ok in Hclear as (roids & Hr & ->).
  apply currentPass_Ok in Hrun as (coids & Hcur & ->).
  rewrite taskIds_clearOwners in Hcur.
  exists roids, coids. repeat split; assumption.
Qed.


End ResyncTheorems.


(* ===================================================================== *)
(** * Theorems: referential consistency *)
(* ===================================================================== *)

(** C1 at three requests that complete: Alice is created, the task idC is
    created for her, and PUT /tasks/:id with the id of the task in upper
    case marks it completed.  The store casts the text and finds the
    task, which is saved as completed; the handler then pulls the text of
    the request from Alice's pending list, where the id is written as the
    store writes it, and the list keeps the id.  The store reached is not
    consistent: a completed task is in a pending list.  The same update
    with the id as the store writes it empties the list. *)
Theorem referential_consistency_respelled_id :
  let done := Demo.task Demo.idC true Demo.idA (Value "Alice") in
  let s := run (rt := Demo.runtime)
               [createAlice; createTaskC; completeTaskC'] emptyStore in
  reachable (rt := Demo.runtime) s
  /\ s = mkStore [Demo.alice [Demo.idC]] [done]
  /\ ~ consistent s
  /\ ~ unownedNowhere s
  /\ run (rt := Demo.runtime)
         [createAlice; createTaskC; completeTaskC] emptyStore
     = mkStore [Demo.alice []] [done].
Proof.
  intros done s.
  assert (Hs : s = mkStore [Demo.alice [Demo.idC]] [done]) by reflexivity.
  split; [| split; [exact Hs | split; [| split; [| reflexivity]]]].
  - subst s.
    change (reachable (rt := Demo.runtime)
              (snd (handle (rt := Demo.runtime) completeTaskC'
                 (snd (handle (rt := Demo.runtime) createTaskC
                    (snd (handle (rt := Demo.runtime) createAlice
                            emptyStore))))))).
    apply (reach_step (rt := Demo.runtime)).
    + apply (reach_step (rt := Demo.runtime)).
      * apply (reach_step (rt := Demo.runtime)).
        -- apply reach_empty.
        -- split; [discriminate | simpl; tauto].
        -- reflexivity.
      * split; [discriminate | simpl; tauto].
      * reflexivity.
    + exact I.
    + reflexivity.
  - rewrite Hs. intros Hcons.
    assert (Hin : In (t_id done) (pendingTasks (Demo.alice [Demo.idC])))
      by (simpl; tauto).
    apply (Hcons (Demo.alice [Demo.idC]) done) in Hin;
      [| simpl; tauto | simpl; tauto].
    destruct Hin as [_ Hopen]. discriminate Hopen.
  - rewrite Hs. intros Hnowhere.
    apply (Hnowhere done (or_introl eq_refl) (or_intror eq_refl)
             (Demo.alice [Demo.idC]) (or_introl eq_refl)).
    simpl. tauto.
Qed.

(** The store after Alice is created, then a task assigned to her: the
    task is in Alice's pending list. *)
Example created_task_is_pending :
  snd (handle (rt := Demo.runtime) createTask
         (snd (handle (rt := Demo.runtime) createAlice emptyStore)))
  = mkStore [Demo.alice [Demo.idT]]
            [Demo.task Demo.idT false Demo.idA (Value "Alice")].
Proof. reflexivity. Qed.

(** A request that is refused is not a completed one, and what it wrote
    before the refusal stays written.  Here a task update names Bob as the
    new owner and has no name: the task is detached from Alice, then the
    store refuses the document.  The answer is 400, the task still points
    at Alice, and her pending list has lost it. *)
Remark refused_task_update_keeps_detach :
  let r :=
    tasks_put (rt := Demo.runtime) Demo.idT
      (mkTaskBody JUndefined JUndefined (JNum (JS.num_of_Z 1700000000000))
                  JUndefined (JStr Demo.idB))
      Demo.store in
  statusOf (fst r) = 400
  /\ completes (fst r) = false
  /\ findTask Demo.idT (snd r)
     = Some (Demo.task Demo.idT false Demo.idA (Value "Alice"))
  /\ pendingOf (snd r) Demo.idA = Some [Demo.idX].
Proof. repeat split. Qed.
(* ===================================================================== *)
(** * Further properties: parameter parsing *)
(* ===================================================================== *)

Section ParserProperties.
Context {rt : Runtime}.

(** X1.  [parseNumberParam] gives undefined exactly for an absent
    parameter; a number it returns is finite, integral and not negative;
    and when it fails, the error is the BadRequest that names the
    parameter. *)
Theorem parseNumberParam_naturals :
  forall (value : JSValue) (paramName : string),
    (parseNumberParam value paramName = Ok None <-> value = JUndefined)
    /\ (forall n,
           parseNumberParam value paramName = Ok (Some n) ->
           n = js_Number value
           /\ exists q z,
               n = Finite q /\ (0 <= z)%Z
               /\ Qnum q = (z * Zpos (Qden q))%Z)
    /\ (forall e,
           parseNumberParam value paramName = Throw e ->
           e = HttpError 400
                 ("Parameter " ++ quoted paramName
                    ++ " must be a non-negative integer")).
Proof.
  intros value paramName. unfold parseNumberParam, createError.
  destruct (JS.isUndefined value) eqn:Hundef.
  { assert (value = JUndefined) as ->
      by (destruct value; simpl in Hundef; congruence).
    split; [tauto |]. split; discriminate. }
  assert (Hdef : value <> JUndefined) by (intros ->; discriminate).
  set (parsed := js_Number value).
  destruct (JS.isInteger parsed) eqn:Hint, (JS.ltZero parsed) eqn:Hneg;
    simpl;
    (split; [split; [discriminate | tauto] |]);
    (split; [| intros e H; try discriminate; now injection H as <-]);
    intros n H; try discriminate; injection H as <-;
    (split; [reflexivity |]).
  destruct parsed as [ | neg | q ]; try discriminate; simpl in *.
  exists q, (Qnum q / Zpos (Qden q))%Z.
  apply Z.eqb_eq in Hint. apply Z.ltb_ge in Hneg.
  split; [reflexivity |]. split.
  - apply Z.div_pos; [assumption | reflexivity].
  - apply Z.div_exact in Hint; [| discriminate].
    rewrite Z.mul_comm. exact Hint.
Qed.

(** X2.  The projection is read from [select] whenever it is given: the
    [filter] alias, well-formed or not, then has no effect on what
    [buildQueryOptions] returns or throws. *)
Theorem buildQueryOptions_select_over_filter :
  forall (query : Query) (options : Options) (other : JSValue),
    q_select query <> JUndefined ->
    buildQueryOptions (withFilterParam other query) options
    = buildQueryOptions query options.
Proof.
  intros query options other Hsel. unfold buildQueryOptions, withFilterParam.
  simpl.
  assert (H : JS.isUndefined (q_select query) = false)
    by (destruct (q_select query); congruence || reflexivity).
  rewrite H. reflexivity.
Qed.

(** The fields of a descriptor that [buildQueryOptions] returns. *)
(** What [buildQueryOptions] went through when it returns a descriptor. *)
Lemma buildQueryOptions_Ok :
  forall (query : Query) (options : Options) (qo : QueryOptions),
    buildQueryOptions query options = Ok qo ->
    exists parsedWhere sort select skip limit,
      parseJSONParam (q_where query) "where" = Ok parsedWhere
      /\ parseJSONParam (q_sort query) "sort" = Ok sort
      /\ parseJSONParam (projectionParam query) (projectionParamName query)
         = Ok select
      /\ parseNumberParam (q_skip query) "skip" = Ok skip
      /\ parseNumberParam (q_limit query) "limit" = Ok limit
      /\ parseCountParam (q_count query) && JS.truthy select = false
      /\ qo = mkQueryOptions
                (if JS.truthy parsedWhere then parsedWhere else JObj [])
                sort select skip
                (if negb (parseCountParam (q_count query))
                 then match limit, defaultLimit options with
                      | None, Some d => Some d
                      | _, _ => limit
                      end
                 else None)
                (parseCountParam (q_count query)).
Proof.
  intros query options qo. unfold buildQueryOptions, rbind.
  destruct (parseJSONParam (q_where query) "where") as [w | ];
    [| discriminate].
  destruct (parseJSONParam (q_sort query) "sort") as [so | ]; [| discriminate].
  fold (projectionParam query). fold (projectionParamName query).
  destruct (parseJSONParam (projectionParam query) (projectionParamName query))
    as [sel | ]; [| discriminate].
  destruct (parseNumberParam (q_skip query) "skip") as [sk | ];
    [| discriminate].
  destruct (parseNumberParam (q_limit query) "limit") as [li | ];
    [| discriminate].
  destruct (parseCountParam (q_count query) && JS.truthy sel) eqn:Hc;
    [discriminate |].
  intros [= <-]. exists w, so, sel, sk, li. repeat split. exact Hc.
Qed.

(** X3.  What a descriptor that [buildQueryOptions] returns holds: the
    empty filter when [where] is absent; the parsed [skip]; the count flag
    of the parameter; outside count mode the supplied limit, or the
    collection's default when none is supplied; in count mode no limit and
    no projection. *)
Theorem buildQueryOptions_descriptor :
  forall (query : Query) (options : Options) (qo : QueryOptions),
    buildQueryOptions query options = Ok qo ->
    (q_where query = JUndefined -> qo_filter qo = JObj [])
    /\ parseNumberParam (q_skip query) "skip" = Ok (qo_skip qo)
    /\ qo_count qo = parseCountParam (q_count query)
    /\ (qo_count qo = false ->
        exists limit,
          parseNumberParam (q_limit query) "limit" = Ok limit
          /\ qo_limit qo = match limit with
                           | Some n => Some n
                           | None => defaultLimit options
                           end)
    /\ (qo_count qo = true ->
        qo_limit qo = None /\ JS.truthy (qo_select qo) = false).
Proof.
  intros query options qo Hb.
  destruct (buildQueryOptions_Ok _ _ _ Hb)
    as (w & so & sel & sk & li & Hw & _ & _ & Hsk & Hli & Hguard & ->).
  cbn [qo_filter qo_skip qo_count qo_limit qo_select].
  split; [| split; [exact Hsk | split; [reflexivity | split]]].
  - intros Habs. rewrite Habs in Hw. injection Hw as <-. reflexivity.
  - intros Hc. rewrite Hc. exists li. split; [exact Hli |].
    destruct li, (defaultLimit options); reflexivity.
  - intros Hc. rewrite Hc in Hguard |- *. split; [reflexivity | exact Hguard].
Qed.

End ParserProperties.

(** X2 at a request that gives both parameters. *)
Lemma buildQueryOptions_select_over_filter_witness :
  buildQueryOptions (rt := Demo.runtime)
    (withFilterParam (JStr "not json")
       (mkQuery JUndefined JUndefined (JStr Demo.nameProjection) JUndefined
                JUndefined JUndefined JUndefined))
    (mkOptions None)
  = buildQueryOptions (rt := Demo.runtime)
      (mkQuery JUndefined JUndefined (JStr Demo.nameProjection) JUndefined
               JUndefined JUndefined JUndefined)
      (mkOptions None).
Proof.
  apply (buildQueryOptions_select_over_filter (rt := Demo.runtime)).
  discriminate.
Defined.

(** X3 at GET /tasks?skip=5: the default limit of 100 applies. *)
Lemma buildQueryOptions_descriptor_witness :
  exists limit,
    parseNumberParam (rt := Demo.runtime) JUndefined "limit" = Ok limit
    /\ Some (JS.num_of_Z 100)
       = match limit with
         | Some n => Some n
         | None => Some (JS.num_of_Z 100)
         end.
Proof.
  exact (proj1 (proj2 (proj2 (proj2
           (buildQueryOptions_descriptor (rt := Demo.runtime)
              (mkQuery JUndefined JUndefined JUndefined JUndefined
                       (JStr "5") JUndefined JUndefined)
              (mkOptions (Some (JS.num_of_Z 100)))
              (mkQueryOptions (JObj []) JUndefined JUndefined
                              (Some (JS.num_of_Z 5))
                              (Some (JS.num_of_Z 100)) false)
              eq_refl))))
           eq_refl).
Defined.

Section DateProperties.
Context {rt : Runtime}.

(** X4.  [parseDateValue] gives no value exactly for undefined, null and
    the empty string, and whenever it fails the error is the BadRequest
    that names the field. *)
Theorem parseDateValue_blank_or_refused :
  forall (value : JSValue) (fieldName : string),
    (parseDateValue value fieldName = Ok None <-> isBlank value = true)
    /\ (forall e,
           parseDateValue value fieldName = Throw e ->
           e = HttpError 400 ("Invalid date supplied for " ++ quoted fieldName)).
Proof.
  intros value fieldName. unfold parseDateValue, createError.
  destruct value as [ | | b | n | s | items | fields ];
    try (destruct s as [| c s']);
    cbn [isBlank];
    try (split; [split; reflexivity | discriminate]);
    match goal with
    | |- context [match ?d with Some _ => _ | None => _ end] => destruct d
    end;
    (split; [split; discriminate |]);
    intros e H; try discriminate H; injection H as <-; reflexivity.
Qed.

Lemma dateOfNumber_integer :
  forall z : Z,
    (Z.abs z <= 8640000000000000)%Z ->
    dateOfNumber (JS.num_of_Z z) = Some z.
Proof.
  intros z Hz. unfold dateOfNumber, JS.num_of_Z, JS.truncate, inject_Z.
  unfold Qle_bool, Qabs. simpl.
  rewrite !Z.mul_1_r. apply Z.leb_le in Hz. rewrite Hz.
  now rewrite Z.quot_1_r.
Qed.

(** X5.  A whole number of milliseconds within the range of dates is
    stored as that instant, given as a number or as a string that reads as
    that number: the numeric reading of a string is preferred, and the
    date text is not consulted. *)
Theorem parseDateValue_epoch_milliseconds :
  forall (z : Z) (fieldName : string),
    (Z.abs z <= 8640000000000000)%Z ->
    parseDateValue (JNum (JS.num_of_Z z)) fieldName = Ok (Some z)
    /\ (forall s,
           s <> "" -> stringToNumber s = JS.num_of_Z z ->
           parseDateValue (JStr s) fieldName = Ok (Some z)).
Proof.
  intros z fieldName Hz. split.
  - unfold parseDateValue. now rewrite dateOfNumber_integer.
  - intros s Hs Hnum. unfold parseDateValue.
    destruct s as [| c s']; [congruence |].
    rewrite Hnum. simpl JS.isNaN. simpl JS.isFinite. cbn [negb andb].
    now rewrite dateOfNumber_integer.
Qed.

End DateProperties.

(** X5 at the deadline 1700000000000, as a number and as a string. *)
Lemma parseDateValue_epoch_milliseconds_witness :
  parseDateValue (rt := Demo.runtime)
    (JNum (JS.num_of_Z 1700000000000)) "deadline"
  = Ok (Some 1700000000000%Z)
  /\ parseDateValue (rt := Demo.runtime) (JStr "1700000000000") "deadline"
     = Ok (Some 1700000000000%Z).
Proof.
  destruct (parseDateValue_epoch_milliseconds (rt := Demo.runtime)
              1700000000000%Z "deadline" ltac:(simpl; lia)) as [Hn Hs].
  split; [exact Hn |].
  apply Hs; [discriminate | reflexivity].
Defined.

(* ===================================================================== *)
(** * Further properties: the list and read-one routes *)
(* ===================================================================== *)

Lemma handleError_bad_request :
  forall message,
    handleError (HttpError 400 message) = Json 400 message DEmpty.
Proof. reflexivity. Qed.

Lemma chainOptions_limit :
  forall qo q, fq_limit (chainOptions qo q)
               = match qo_limit qo with
                 | Some n => Some n
                 | None => fq_limit q
                 end.
Proof.
  intros qo q. unfold chainOptions.
  destruct (qo_limit qo); [reflexivity |].
  destruct (qo_skip qo), (JS.truthy (qo_sort qo)), (JS.truthy (qo_select qo));
    reflexivity.
Qed.

Lemma execQuery_limit_bound :
  forall (D : Type) matches sortBy (coll : list D) q n,
    fq_limit q = Some n ->
    countOf n <> 0%nat ->
    (length (execQuery matches sortBy coll q) <= countOf n)%nat.
Proof.
  intros D matches sortBy coll q n Hl Hn. unfold execQuery. rewrite Hl.
  destruct (Nat.eqb_spec (countOf n) 0); [contradiction |].
  apply firstn_le_length.
Qed.

Section ListProperties.
Context {rt : Runtime}.

(** A limit that parsed and is not zero counts at least one document. *)
Lemma parsed_limit_positive :
  forall value paramName n,
    parseNumberParam value paramName = Ok (Some n) ->
    JS.isZero n = false -> countOf n <> 0%nat.
Proof.
  intros value paramName n. unfold parseNumberParam.
  destruct (JS.isUndefined value); [discriminate |].
  destruct (JS.isInteger (js_Number value)) eqn:Hint; [| discriminate].
  destruct (JS.ltZero (js_Number value)) eqn:Hneg; [discriminate |].
  simpl. intros [= <-] Hz.
  destruct (js_Number value) as [ | neg | q ]; try discriminate.
  simpl in *. unfold JS.truncate.
  apply Z.eqb_eq in Hint. apply Z.ltb_ge in Hneg. apply Z.eqb_neq in Hz.
  apply Z.div_exact in Hint; [| discriminate].
  rewrite Z.quot_div_nonneg by (try assumption; reflexivity).
  assert (0 < Qnum q / Z.pos (Qden q))%Z; [| lia].
  assert (0 <= Qnum q / Z.pos (Qden q))%Z
    by (apply Z.div_pos; [assumption | reflexivity]).
  destruct (Z.eq_dec (Qnum q / Z.pos (Qden q)) 0) as [E | E]; [| lia].
  rewrite E, Z.mul_0_r in Hint. congruence.
Qed.

(** X6.  When the query parameters do not parse, GET /users and GET
    /tasks answer 400 with the parser's message and an empty data object,
    and issue no operation on the store. *)
Theorem list_routes_refuse_unparsed_query :
  forall (query : Query) (s : Store),
    (forall e,
        buildQueryOptions query (mkOptions None) = Throw e ->
        exists message,
          e = HttpError 400 message
          /\ users_get query s = (Json 400 message DEmpty, []))
    /\ (forall e,
           buildQueryOptions query (mkOptions (Some (JS.num_of_Z 100)))
           = Throw e ->
           exists message,
             e = HttpError 400 message
             /\ tasks_get query s = (Json 400 message DEmpty, [])).
Proof.
  intros query s. split; intros e He;
    destruct (buildQueryOptions_throws _ _ _ He) as [message ->];
    exists message; (split; [reflexivity |]).
  - unfold users_get. now rewrite He.
  - unfold tasks_get. now rewrite He.
Qed.

(** X7.  In count mode, for a query that parses, both list routes call
    [countDocuments] and nothing else, on the filter that [where] alone
    determines.  They answer 200 with the number of documents that match
    it; or, when the store refuses the filter, 400 for a cast error and
    500 for another exception.  What [skip], [limit] and [sort] hold has
    no part in the answer. *)
Theorem list_routes_count_mode :
  forall (query : Query) (s : Store),
    parseCountParam (q_count query) = true ->
    forall filter,
      parseJSONParam (q_where query) "where" = Ok filter ->
      let filter := if JS.truthy filter then filter else JObj [] in
      (forall qo,
          buildQueryOptions query (mkOptions None) = Ok qo ->
          users_get query s
          = (match userReadFault (CountOf filter) with
             | Some fault => refusedRead fault
             | None =>
                 Json 200 "OK"
                   (DCount (length (List.filter (userMatches filter)
                                                (users s))))
             end,
             [CountDocuments]))
      /\ (forall qo,
             buildQueryOptions query (mkOptions (Some (JS.num_of_Z 100)))
             = Ok qo ->
             tasks_get query s
             = (match taskReadFault (CountOf filter) with
                | Some fault => refusedRead fault
                | None =>
                    Json 200 "OK"
                      (DCount (length (List.filter (taskMatches filter)
                                                   (tasks s))))
                end,
                [CountDocuments])).
Proof.
  intros query s Hcount w Hw filter. split; intros qo Hb;
    destruct (buildQueryOptions_Ok _ _ _ Hb)
      as (w' & so & sel & sk & li & Hw' & _ & _ & _ & _ & _ & Hqo);
    rewrite Hw in Hw'; injection Hw' as <-;
    assert (Hc : qo_count qo = true) by (rewrite Hqo; exact Hcount);
    assert (Hf : qo_filter qo = filter) by (rewrite Hqo; reflexivity).
  - unfold users_get. rewrite Hb, Hc, Hf.
    destruct (userReadFault (CountOf filter)) as [[path | name] |];
      reflexivity.
  - unfold tasks_get. rewrite Hb, Hc, Hf.
    destruct (taskReadFault (CountOf filter)) as [[path | name] |];
      reflexivity.
Qed.

(** X8.  The Task listing is paged: outside count mode it never answers
    with more documents than the limit supplied, and with no limit
    supplied never with more than 100. *)
Theorem tasks_get_page_bound :
  forall (query : Query) (s : Store) status message select docs calls,
    tasks_get query s = (Json status message (DTasks select docs), calls) ->
    (q_limit query = JUndefined -> (length docs <= 100)%nat)
    /\ (forall n,
           parseNumberParam (q_limit query) "limit" = Ok (Some n) ->
           (length docs <= countOf n)%nat).
Proof.
  intros query s status message select docs calls. unfold tasks_get.
  destruct (buildQueryOptions query (mkOptions (Some (JS.num_of_Z 100))))
    as [qo | e] eqn:Hb.
  2:{ destruct (buildQueryOptions_throws _ _ _ Hb) as [m ->]. discriminate. }
  destruct (buildQueryOptions_Ok _ _ _ Hb)
    as (w & so & sel & sk & limit & _ & _ & _ & _ & Hparse & _ & Hdesc).
  assert (Hqo : qo_count qo = false ->
                qo_limit qo = match limit with
                              | Some n => Some n
                              | None => Some (JS.num_of_Z 100)
                              end).
  { rewrite Hdesc. cbn [qo_count qo_limit defaultLimit]. intros ->.
    now destruct limit. }
  clear Hdesc.
  destruct (qo_count qo);
    [destruct (taskReadFault _) as [[path | name] |]; discriminate |].
  specialize (Hqo eq_refl).
  intros Hrun.
  assert (Hdocs : forall m,
             qo_limit qo = Some m ->
             (JS.isZero m = false -> countOf m <> 0%nat) ->
             (length docs <= countOf m)%nat).
  { intros m Hm Hpos. rewrite Hm in Hrun.
    destruct (JS.isZero m).
    - injection Hrun as _ _ _ <- _. apply Nat.le_0_l.
    - destruct (taskReadFault _) as [[path | name] |]; try discriminate.
      injection Hrun as _ _ _ <- _.
      apply execQuery_limit_bound; [| now apply Hpos].
      now rewrite chainOptions_limit, Hm. }
  destruct limit as [n' |]; simpl in Hqo.
  - split.
    + intros Habs. rewrite Habs in Hparse. discriminate.
    + intros n Hn. rewrite Hparse in Hn. injection Hn as <-.
      apply Hdocs; [assumption |].
      eapply parsed_limit_positive; eassumption.
  - split.
    + intros _. apply (Hdocs (JS.num_of_Z 100) Hqo). discriminate.
    + intros n Hn. rewrite Hparse in Hn. discriminate.
Qed.

End ListProperties.

(** X8 at GET /tasks with no parameter, on the store of two tasks. *)
Lemma tasks_get_page_bound_witness :
  (length (tasks Demo.store) <= 100)%nat.
Proof.
  exact (proj1 (tasks_get_page_bound (rt := Demo.runtime)
                  (mkQuery JUndefined JUndefined JUndefined JUndefined
                           JUndefined JUndefined JUndefined)
                  Demo.store 200 "OK" None (tasks Demo.store) [Find] eq_refl)
               eq_refl).
Defined.

(** X7 at GET /users?count=true&limit=0 on the store of two users, and
    at GET /tasks?count=true with a filter on [_id] that holds no id. *)
Lemma list_routes_count_mode_witness :
  users_get (rt := Demo.runtime)
    (mkQuery JUndefined JUndefined JUndefined JUndefined JUndefined
             (JStr "0") (JStr "true"))
    Demo.store
  = (Json 200 "OK" (DCount 2), [CountDocuments])
  /\ tasks_get (rt := Demo.runtime)
       (mkQuery (JStr Demo.badIdFilter) JUndefined JUndefined JUndefined
                JUndefined JUndefined (JStr "true"))
       Demo.store
     = (Json 400 ("Invalid value for field " ++ quoted "_id") DEmpty,
        [CountDocuments]).
Proof.
  split.
  - exact (proj1 (list_routes_count_mode (rt := Demo.runtime)
                    (mkQuery JUndefined JUndefined JUndefined JUndefined
                             JUndefined (JStr "0") (JStr "true"))
                    Demo.store eq_refl JUndefined eq_refl)
                 (mkQueryOptions (JObj []) JUndefined JUndefined None None
                                 true)
                 eq_refl).
  - exact (proj2 (list_routes_count_mode (rt := Demo.runtime)
                    (mkQuery (JStr Demo.badIdFilter) JUndefined JUndefined
                             JUndefined JUndefined JUndefined (JStr "true"))
                    Demo.store eq_refl (JObj [("_id", JStr "bad")]) eq_refl)
                 (mkQueryOptions (JObj [("_id", JStr "bad")]) JUndefined
                                 JUndefined None None true)
                 eq_refl).
Defined.

Section ReadOneProperties.
Context {rt : Runtime}.

(** X9.  The read-one routes answer 200 exactly when the id is well
    formed, the projection parameter parses, the store accepts the
    projection, and a document is stored under the ObjectId the text of
    the request is cast to; the document in the answer then is that
    document, whose id may be spelled otherwise than the request spells
    it.  An id that is not well formed is refused with 400 whatever the
    query and the store are: it is checked first. *)
Theorem read_one_routes_status :
  forall (id : string) (query : Query) (s : Store),
    (statusOf (fst (users_getById id query s)) = 200
     <-> ObjectId_isValid id = true
         /\ (exists select,
                parseJSONParam (projectionParam query)
                               (projectionParamName query) = Ok select
                /\ userReadFault
                     (FindByIdOf (if JS.truthy select then Some select
                                  else None)) = None)
         /\ exists oid,
              toObjectId (userIds s) id = Some oid /\ In oid (userIds s))
    /\ (statusOf (fst (tasks_getById id query s)) = 200
        <-> ObjectId_isValid id = true
            /\ (exists select,
                   parseJSONParam (projectionParam query)
                                  (projectionParamName query) = Ok select
                   /\ taskReadFault
                        (FindByIdOf (if JS.truthy select then Some select
                                     else None)) = None)
            /\ exists oid,
                 toObjectId (taskIds s) id = Some oid /\ In oid (taskIds s))
    /\ (forall data,
           fst (users_getById id query s) = Json 200 "OK" data ->
           exists U,
             data = DUser (Some U) /\ In U (users s)
             /\ toObjectId (userIds s) id = Some (u_id U))
    /\ (forall data,
           fst (tasks_getById id query s) = Json 200 "OK" data ->
           exists T,
             data = DTask (Some T) /\ In T (tasks s)
             /\ toObjectId (taskIds s) id = Some (t_id T))
    /\ (ObjectId_isValid id = false ->
        users_getById id query s
        = (Json 400 "Invalid user id" DEmpty, None)
        /\ tasks_getById id query s
           = (Json 400 "Invalid task id" DEmpty, None)).
Proof.
  intros id query s.
  assert (HU : forall oid, findUser oid s <> None <-> In oid (userIds s)).
  { intros oid. pose proof (pendingOf_exists s oid) as H.
    unfold pendingOf in H. rewrite <- H.
    destruct (findUser oid s); simpl; split; congruence. }
  pose proof (findTask_exists s) as HT.
  unfold users_getById, tasks_getById.
  destruct (ObjectId_isValid id); simpl.
  2:{ split; [split; [discriminate | intros (H & _); discriminate] |].
      split; [split; [discriminate | intros (H & _); discriminate] |].
      split; [discriminate |]. split; [discriminate |].
      intros _. split; reflexivity. }
  destruct (parseJSONParam (projectionParam query) (projectionParamName query))
    as [select | e] eqn:Hp.
  2:{ destruct (parseJSONParam_throws _ _ _ Hp) as [m ->]. simpl.
      split; [split; [discriminate
                     | intros (_ & (sel & Hsel & _) & _); discriminate] |].
      split; [split; [discriminate
                     | intros (_ & (sel & Hsel & _) & _); discriminate] |].
      split; [discriminate |]. split; discriminate. }
  set (projection := if JS.truthy select then Some select else None).
  split; [| split; [| split; [| split; [| discriminate]]]].
  - destruct (userReadFault (FindByIdOf projection)) as [[path | name] |]
      eqn:Hfault; simpl.
    1,2: split; [discriminate |];
      intros (_ & (sel & [= <-] & Hsel) & _); fold projection in Hsel;
      congruence.
    destruct (toObjectId (userIds s) id) as [oid |] eqn:Hoid; simpl.
    2:{ split; [discriminate |]. intros (_ & _ & oid & Habs & _).
        discriminate. }
    destruct (findUser oid s) as [U |] eqn:EU; simpl.
    + split; [intros _ | reflexivity].
      split; [reflexivity |]. split; [exists select; split; eauto |].
      exists oid. split; [reflexivity |]. apply HU. congruence.
    + split; [discriminate |]. intros (_ & _ & oid' & [= <-] & Hin).
      apply HU in Hin. congruence.
  - destruct (taskReadFault (FindByIdOf projection)) as [[path | name] |]
      eqn:Hfault; simpl.
    1,2: split; [discriminate |];
      intros (_ & (sel & [= <-] & Hsel) & _); fold projection in Hsel;
      congruence.
    destruct (toObjectId (taskIds s) id) as [oid |] eqn:Hoid; simpl.
    2:{ split; [discriminate |]. intros (_ & _ & oid & Habs & _).
        discriminate. }
    destruct (findTask oid s) as [T |] eqn:ET; simpl.
    + split; [intros _ | reflexivity].
      split; [reflexivity |]. split; [exists select; split; eauto |].
      exists oid. split; [reflexivity |]. apply HT. congruence.
    + split; [discriminate |]. intros (_ & _ & oid' & [= <-] & Hin).
      apply HT in Hin. congruence.
  - destruct (userReadFault (FindByIdOf projection)) as [[path | name] |];
      simpl; try discriminate.
    destruct (toObjectId (userIds s) id) as [oid |]; simpl;
      [| discriminate].
    destruct (findUser oid s) as [U |] eqn:EU; simpl; [| discriminate].
    intros data [= <-]. exists U. split; [reflexivity |]. split.
    + eapply (find_has_In u_id). exact EU.
    + now rewrite (findUser_id _ _ _ EU).
  - destruct (taskReadFault (FindByIdOf projection)) as [[path | name] |];
      simpl; try discriminate.
    destruct (toObjectId (taskIds s) id) as [oid |]; simpl;
      [| discriminate].
    destruct (findTask oid s) as [T |] eqn:ET; simpl; [| discriminate].
    intros data [= <-]. exists T. split; [reflexivity |]. split.
    + eapply (find_has_In t_id). exact ET.
    + now rewrite (findTask_id _ _ _ ET).
Qed.

End ReadOneProperties.

(** GET /users/:id at Alice's id in upper case: the store casts the text
    and answers with her document.  With the projection 5, which the
    query builder refuses, the answer is 500; with a projection that is
    not JSON it is 400. *)
Example read_one_respelled_and_refused :
  let plain :=
    mkQuery JUndefined JUndefined JUndefined JUndefined JUndefined
            JUndefined JUndefined in
  let select v :=
    mkQuery JUndefined JUndefined (JStr v) JUndefined JUndefined
            JUndefined JUndefined in
  users_getById (rt := Demo.runtime) Demo.idA' plain Demo.store
  = (Json 200 "OK" (DUser (Some (Demo.alice [Demo.idT; Demo.idX]))), None)
  /\ users_getById (rt := Demo.runtime) Demo.idA (select "5") Demo.store
     = (Json 500 "Internal server error" DEmpty, None)
  /\ users_getById (rt := Demo.runtime) Demo.idA (select "{") Demo.store
     = (Json 400 ("Invalid JSON in " ++ quoted "select" ++ " parameter")
             DEmpty, None).
Proof. repeat split. Qed.

Lemma firstOccurrences_NoDup_same :
  forall ids, NoDup ids -> firstOccurrences ids = ids.
Proof.
  induction ids as [| id ids IH]; intros H; [reflexivity |].
  inversion H as [| ? ? Hnot Hnd]; subst. simpl. rewrite (IH Hnd). f_equal.
  rewrite (filter_ext_in_bool _ _ (fun _ => true)).
  - clear. induction ids; simpl; congruence.
  - intros x Hx. apply negb_true_iff, String.eqb_neq. congruence.
Qed.

Section IdProperties.
Context {rt : Runtime}.

Lemma checkIds_valid :
  forall fieldName ids x,
    checkIds fieldName ids = Ok x ->
    forall id, In id ids -> ObjectId_isValid id = true.
Proof.
  intros fieldName. induction ids as [| a ids IH]; simpl; intros x H id;
    [tauto |].
  destruct (ObjectId_isValid a) eqn:Ha; simpl in H; [| discriminate].
  intros [<- | Hin]; [assumption | eauto].
Qed.

Lemma cleanedIds_idArray :
  forall ids, ~ In "" ids -> cleanedIds (idArray ids) = ids.
Proof.
  unfold cleanedIds, idArray. cbn [itemsOf].
  induction ids as [| id ids IH]; intros Hnot; [reflexivity |].
  cbn -[isBlank]. rewrite isBlank_JStr by (simpl in Hnot; tauto).
  cbn -[isBlank]. rewrite IH by (simpl in Hnot; tauto). reflexivity.
Qed.

(** X10.  Normalization is idempotent: the list [normalizeIdArray]
    returns, sent again as an array, is accepted and returned as it is.
    The store's validator is taken to reject the empty string, as the
    real one does. *)
Theorem normalizeIdArray_idempotent :
  forall (values : JSValue) (fieldName : string) (ids : list string),
    ObjectId_isValid "" = false ->
    normalizeIdArray values fieldName = Ok ids ->
    normalizeIdArray (idArray ids) fieldName = Ok ids.
Proof.
  intros values fieldName ids Hempty Hrun.
  rewrite normalizeIdArray_unfold in Hrun.
  destruct (checkIds fieldName (arrayFromSet (cleanedIds values)))
    as [x | e] eqn:Hcheck; [| discriminate].
  injection Hrun as <-.
  rewrite arrayFromSet_firstOccurrences in *.
  set (ids := firstOccurrences (cleanedIds values)) in *.
  assert (Hvalid : forall id, In id ids -> ObjectId_isValid id = true)
    by (eapply checkIds_valid; eassumption).
  assert (Hnot : ~ In "" ids)
    by (intros Hin; apply Hvalid in Hin; congruence).
  rewrite normalizeIdArray_unfold, cleanedIds_idArray by assumption.
  rewrite arrayFromSet_firstOccurrences.
  rewrite firstOccurrences_NoDup_same by apply firstOccurrences_NoDup.
  now rewrite Hcheck.
Qed.

End IdProperties.

(** X10 at the list of the example of C5. *)
Lemma normalizeIdArray_idempotent_witness :
  normalizeIdArray (rt := Demo.runtime) (idArray [Demo.idA; Demo.idB])
    "pendingTasks"
  = Ok [Demo.idA; Demo.idB].
Proof.
  exact (normalizeIdArray_idempotent (rt := Demo.runtime)
           (JArr [JStr Demo.idA; JStr Demo.idA; JStr ""; JStr Demo.idB])
           "pendingTasks" [Demo.idA; Demo.idB] eq_refl eq_refl).
Defined.

(* ===================================================================== *)
(** * Further properties: the synchronizer *)
(* ===================================================================== *)

Lemma updateOne_ext :
  forall (D : Type) (p : D -> bool) (f g : D -> D) (l : list D),
    (forall d, p d = true -> f d = g d) ->
    Coll.updateOne p f l = Coll.updateOne p g l.
Proof.
  intros D p f g l H. induction l as [| d l IH]; simpl; [reflexivity |].
  destruct (p d) eqn:E; [now rewrite H | now rewrite IH].
Qed.

Lemma updateOne_twice :
  forall (D : Type) (p : D -> bool) (f g : D -> D) (l : list D),
    (forall d, p d = true -> p (g d) = true) ->
    Coll.updateOne p f (Coll.updateOne p g l)
    = Coll.updateOne p (fun d => f (g d)) l.
Proof.
  intros D p f g l H. induction l as [| d l IH]; simpl; [reflexivity |].
  destruct (p d) eqn:E; simpl.
  - now rewrite (H d E).
  - now rewrite E, IH.
Qed.

Lemma addToSet_twice :
  forall item l, Coll.addToSet item (Coll.addToSet item l) = Coll.addToSet item l.
Proof.
  intros item l. unfold Coll.addToSet.
  destruct (existsb (String.eqb item) l) eqn:E.
  - now rewrite E.
  - rewrite existsb_app. cbn -[String.eqb].
    now rewrite String.eqb_refl, orb_true_r.
Qed.

Lemma pull_addToSet :
  forall item l, Coll.pull item (Coll.addToSet item l) = Coll.pull item l.
Proof.
  intros item l. unfold Coll.addToSet.
  destruct (existsb (String.eqb item) l); [reflexivity |].
  unfold Coll.pull. rewrite filter_app. cbn -[String.eqb].
  rewrite String.eqb_refl. cbn. apply app_nil_r.
Qed.

Lemma addToSet_NoDup :
  forall item l, NoDup l -> NoDup (Coll.addToSet item l).
Proof.
  intros item l H. unfold Coll.addToSet.
  destruct (existsb (String.eqb item) l) eqn:E; [assumption |].
  apply NoDup_app; [assumption | repeat constructor; simpl; tauto |].
  intros x Hx [-> | []].
  assert (existsb (String.eqb x) l = true); [| congruence].
  apply existsb_exists. exists x. split; [assumption | apply String.eqb_refl].
Qed.

Section PendingPrimitives.
Context {rt : Runtime}.

(** X11.  The two primitives on a pending list.  Adding a task twice is
    adding it once, removing it twice is removing it once, and removing
    after adding is removing; adding keeps a list without duplicates
    without duplicates.  Neither touches the tasks or any other user, and
    with the empty user id neither does anything. *)
Theorem pending_primitives_compose :
  forall (taskId userId : string) (s : Store),
    snd (addTaskToUser taskId userId (snd (addTaskToUser taskId userId s)))
    = snd (addTaskToUser taskId userId s)
    /\ snd (removeTaskFromUser taskId userId
              (snd (removeTaskFromUser taskId userId s)))
       = snd (removeTaskFromUser taskId userId s)
    /\ snd (removeTaskFromUser taskId userId
              (snd (addTaskToUser taskId userId s)))
       = snd (removeTaskFromUser taskId userId s)
    /\ (forall P,
           userId <> "" -> pendingOf s userId = Some P -> NoDup P ->
           exists P',
             pendingOf (snd (addTaskToUser taskId userId s)) userId = Some P'
             /\ NoDup P' /\ In taskId P'
             /\ forall x, x <> taskId -> (In x P' <-> In x P))
    /\ (forall other,
           other <> userId ->
           findUser other (snd (addTaskToUser taskId userId s))
           = findUser other s
           /\ findUser other (snd (removeTaskFromUser taskId userId s))
              = findUser other s)
    /\ tasks (snd (addTaskToUser taskId userId s)) = tasks s
    /\ tasks (snd (removeTaskFromUser taskId userId s)) = tasks s
    /\ snd (addTaskToUser taskId "" s) = s
    /\ snd (removeTaskFromUser taskId "" s) = s.
Proof.
  intros taskId userId s.
  repeat first [ rewrite addTaskToUser_run
               | rewrite removeTaskFromUser_run
               | progress cbn [snd] ].
  assert (Hkeep : forall (g : list string -> list string) d,
             hasUserId userId d = true ->
             hasUserId userId (setPendingTasks (g (pendingTasks d)) d) = true)
    by (intros g d H; exact H).
  split; [| split; [| split; [| split; [| split; [| split; [| split]]]]]].
  - unfold attach. destruct (userId =? ""); [reflexivity |]. simpl.
    f_equal. rewrite updateOne_twice by (intros d; apply Hkeep).
    apply updateOne_ext. intros d _. unfold setPendingTasks. simpl.
    now rewrite addToSet_twice.
  - unfold detach. destruct (userId =? ""); [reflexivity |]. simpl.
    f_equal. rewrite updateOne_twice by (intros d; apply Hkeep).
    apply updateOne_ext. intros d _. unfold setPendingTasks. simpl.
    now rewrite pull_pull.
  - unfold detach, attach. destruct (userId =? ""); [reflexivity |]. simpl.
    f_equal. rewrite updateOne_twice by (intros d; apply Hkeep).
    apply updateOne_ext. intros d _. unfold setPendingTasks. simpl.
    now rewrite pull_addToSet.
  - intros P Hne HP Hnd. exists (Coll.addToSet taskId P).
    rewrite pendingOf_attach by assumption.
    rewrite String.eqb_refl, HP. split; [reflexivity |].
    split; [now apply addToSet_NoDup |].
    split; [apply addToSet_In; now right |].
    intros x Hx. rewrite addToSet_In. tauto.
  - intros other Hother. unfold attach, detach, findUser, hasUserId.
    destruct (userId =? ""); [split; reflexivity |]. simpl.
    rewrite !(find_updateOne u_id) by reflexivity.
    apply String.eqb_neq in Hother. rewrite Hother. split; reflexivity.
  - apply tasks_attach.
  - apply tasks_detach.
  - split; reflexivity.
Qed.

End PendingPrimitives.

(** X11 at Bob's empty pending list. *)
Lemma pending_primitives_compose_witness :
  exists P',
    pendingOf (snd (addTaskToUser Demo.idT Demo.idB Demo.store)) Demo.idB
    = Some P'
    /\ NoDup P' /\ In Demo.idT P'
    /\ forall x, x <> Demo.idT -> (In x P' <-> In x []).
Proof.
  exact (proj1 (proj2 (proj2 (proj2
           (pending_primitives_compose Demo.idT Demo.idB Demo.store))))
           [] ltac:(discriminate) eq_refl (NoDup_nil string)).
Defined.

Section ExistenceProperties.
Context {rt : Runtime}.

Lemma castIds_fail :
  forall stored ids s,
    (exists id, In id ids /\ toObjectId (stored s) id = None) ->
    castIds stored ids s = (Throw (CastError "_id"), s).
Proof.
  intros stored. induction ids as [| a ids IH]; intros s (id & Hin & Hid).
  - destruct Hin.
  - simpl. unfold bind at 1. rewrite castId_run.
    destruct (toObjectId (stored s) a) as [oid |] eqn:Ha; [| reflexivity].
    destruct Hin as [-> | Hin]; [congruence |].
    unfold bind. rewrite IH by eauto. reflexivity.
Qed.

(** X12.  The existence check, in a store whose task ids are distinct.
    It never writes.  When an id of the list cannot be cast, it throws the
    store's cast error.  Otherwise it succeeds exactly when the ObjectIds
    the list is cast to are distinct and each is the id of a stored task,
    and returns those tasks; and it fails with the BadRequest "One or more
    tasks in pendingTasks do not exist" when one of them names no stored
    task, but also when two entries of the list are cast to the same
    ObjectId: the tasks it fetched are then fewer than the entries. *)
Theorem ensureTasksExist_all_or_refused :
  forall (ids : list string) (s : Store),
    NoDup (taskIds s) ->
    snd (ensureTasksExist ids s) = s
    /\ ((exists id, In id ids /\ toObjectId (taskIds s) id = None) ->
        fst (ensureTasksExist ids s) = Throw (CastError "_id"))
    /\ forall oids,
         castTo (taskIds s) ids oids ->
         ((NoDup oids /\ forall oid, In oid oids -> In oid (taskIds s)) ->
          exists found,
            fst (ensureTasksExist ids s) = Ok found
            /\ forall T, In T found <-> In T (tasks s) /\ In (t_id T) oids)
         /\ ((~ NoDup oids
              \/ exists oid, In oid oids /\ ~ In oid (taskIds s)) ->
             fst (ensureTasksExist ids s)
             = Throw (HttpError 400
                        "One or more tasks in pendingTasks do not exist")).
Proof.
  intros ids s Hnd. unfold ensureTasksExist.
  destruct ids as [| id0 ids'] eqn:Hlist.
  { simpl. split; [reflexivity |]. split; [intros (id & [] & _) |].
    intros oids Hcast. inversion Hcast; subst. split.
    - intros _. exists []. split; [reflexivity |]. simpl. tauto.
    - intros [Hdup | (oid & [] & _)]. exfalso. apply Hdup. constructor. }
  rewrite <- Hlist in *.
  replace (length ids =? 0)%nat with false by (subst ids; reflexivity).
  split; [| split].
  - rewrite snd_bind. pose proof (Task_findIn_store ids s) as Hstore.
    destruct (Task_findIn ids s) as [[found | e] s1]; simpl in Hstore;
      subst s1; [| reflexivity].
    now destruct (negb (length found =? length ids)%nat).
  - intros Hfail. unfold bind at 1. unfold Task_findIn, bind.
    now rewrite (castIds_fail taskIds ids s Hfail).
  - intros oids Hcast.
    assert (Hrun : Task_findIn ids s
                   = (Ok (filter (fun t => Coll.includes oids (t_id t))
                                 (tasks s)), s)).
    { unfold Task_findIn, bind.
      destruct (castIds_total taskIds ids s) as (oids' & Hrun & Hcast').
      - intros id Hin.
        destruct (castTo_In_l _ _ _ _ Hcast Hin) as (oid & _ & ->).
        discriminate.
      - rewrite Hrun. now rewrite (castTo_fun _ _ _ _ Hcast' Hcast). }
    unfold bind. rewrite Hrun. unfold throw, ret, createError.
    set (found := filter (fun t => Coll.includes oids (t_id t)) (tasks s)).
    assert (Hlen_ids : length ids = length oids)
      by (eapply Forall2_length; exact Hcast).
    rewrite Hlen_ids.
    assert (Hfound_nd : NoDup (map t_id found))
      by (subst found; now apply NoDup_map_filter).
    assert (Hfound_in : incl (map t_id found) oids).
    { intros y Hy. apply in_map_iff in Hy as (T & <- & HT).
      subst found. apply filter_In in HT as [_ HT]. now apply includes_In. }
    assert (Hsub : incl (map t_id found) (taskIds s)).
    { intros y Hy. apply in_map_iff in Hy as (T & <- & HT).
      subst found. apply filter_In in HT as [HT _]. unfold taskIds.
      now apply in_map. }
    destruct (Nat.eqb_spec (length found) (length oids)) as [Hlen | Hlen];
      simpl; split.
    + intros _. exists found. split; [reflexivity |].
      intros T. subst found. rewrite filter_In, includes_In. tauto.
    + assert (Hle : (length oids <= length (map t_id found))%nat)
        by (rewrite length_map; now rewrite Hlen).
      intros [Hdup | (oid & Hin & Hmissing)]; exfalso.
      * apply Hdup.
        exact (NoDup_incl_NoDup Hfound_nd Hle Hfound_in).
      * apply Hmissing, Hsub.
        exact (NoDup_length_incl Hfound_nd Hle Hfound_in oid Hin).
    + intros [Hdistinct Hall]. exfalso. apply Hlen.
      rewrite <- (length_map t_id found).
      apply Nat.le_antisymm.
      * now apply NoDup_incl_length.
      * apply NoDup_incl_length; [assumption |].
        intros oid Hin. pose proof (Hall oid Hin) as Hex.
        unfold taskIds in Hex.
        apply in_map_iff in Hex as (T & HT & HinT).
        apply in_map_iff. exists T. split; [assumption |].
        subst found. apply filter_In. split; [assumption |].
        apply includes_In. now rewrite HT.
    + intros _. reflexivity.
Qed.

End ExistenceProperties.

(** X12 at the store where the task idC is stored: the list that names
    it in upper case passes, and the list that names it twice, in both
    spellings, is refused. *)
Lemma ensureTasksExist_all_or_refused_witness :
  (exists found,
      fst (ensureTasksExist (rt := Demo.runtime) [Demo.idC'] Demo.storeC)
      = Ok found
      /\ forall T, In T found
                   <-> In T (tasks Demo.storeC) /\ In (t_id T) [Demo.idC])
  /\ fst (ensureTasksExist (rt := Demo.runtime) [Demo.idC; Demo.idC']
            Demo.storeC)
     = Throw (HttpError 400 "One or more tasks in pendingTasks do not exist").
Proof.
  assert (Hnd : NoDup (taskIds Demo.storeC))
    by (apply NoDup_cons; [simpl; tauto | apply NoDup_nil]).
  split.
  - refine (proj1 (proj2 (proj2 (ensureTasksExist_all_or_refused
                                   (rt := Demo.runtime)
                                   [Demo.idC'] Demo.storeC Hnd))
                         [Demo.idC] _) _).
    + repeat constructor.
    + split; [apply NoDup_cons; [simpl; tauto | apply NoDup_nil] |].
      intros oid [<- | []]. simpl. tauto.
  - refine (proj2 (proj2 (proj2 (ensureTasksExist_all_or_refused
                                   (rt := Demo.runtime)
                                   [Demo.idC; Demo.idC'] Demo.storeC Hnd))
                         [Demo.idC; Demo.idC] _) _).
    + repeat constructor.
    + left. intros Hdup. inversion Hdup as [| ? ? Hnot _]; subst.
      apply Hnot. simpl. tauto.
Defined.

Lemma pendingShrinks_refl :
  forall u s, pendingShrinks u s s.
Proof.
  intros u s. repeat split. intros v P' H. exists P'.
  split; [assumption | apply incl_refl].
Qed.

Lemma pendingShrinks_trans :
  forall u s1 s2 s3,
    pendingShrinks u s1 s2 -> pendingShrinks u s2 s3 ->
    pendingShrinks u s1 s3.
Proof.
  intros u s1 s2 s3 (H1 & H2 & H3) (K1 & K2 & K3). repeat split.
  - congruence.
  - congruence.
  - intros v P'' H. destruct (K3 v P'' H) as (P' & HP' & Hi').
    destruct (H3 v P' HP') as (P & HP & Hi). exists P.
    split; [assumption | eapply incl_tran; eassumption].
Qed.

Lemma pendingShrinks_users :
  forall u s s', users s' = users s -> pendingShrinks u s s'.
Proof.
  intros u s s' H.
  assert (Hp : forall v, pendingOf s' v = pendingOf s v)
    by (intros v; unfold pendingOf, findUser; now rewrite H).
  repeat split.
  - unfold userIds. now rewrite H.
  - apply Hp.
  - intros v P' HP'. exists P'. rewrite <- Hp.
    split; [assumption | apply incl_refl].
Qed.

Lemma pendingShrinks_detach :
  forall u t w s, w <> u -> pendingShrinks u s (detach t w s).
Proof.
  intros u t w s Hw. destruct (String.eqb_spec w "") as [-> | Hne].
  - rewrite detach_empty. apply pendingShrinks_refl.
  - repeat split.
    + apply userIds_detach.
    + rewrite pendingOf_detach by assumption.
      destruct (String.eqb_spec u w); [congruence | reflexivity].
    + intros v P'. rewrite pendingOf_detach by assumption.
      destruct (v =? w).
      * destruct (pendingOf s v) as [P |]; [| discriminate].
        intros [= <-]. exists P. split; [reflexivity |].
        intros x Hx. now apply pull_In in Hx.
      * intros H. exists P'. split; [assumption | apply incl_refl].
Qed.

Lemma pendingShrinks_ownStep :
  forall u name s T, pendingShrinks u s (ownStep u name s T).
Proof.
  intros u name s T. unfold ownStep.
  match goal with
  | |- pendingShrinks _ _ (putTask _ ?mid) =>
      apply pendingShrinks_trans with (s2 := mid);
        [| apply pendingShrinks_users; reflexivity]
  end.
  destruct (String.eqb_spec (assignedUser T) "") as [E | E]; simpl.
  - apply pendingShrinks_refl.
  - destruct (String.eqb_spec (assignedUser T) u) as [E' | E']; simpl.
    + apply pendingShrinks_refl.
    + now apply pendingShrinks_detach.
Qed.

Lemma pendingShrinks_ownLoop :
  forall u name fetched s,
    pendingShrinks u s (fold_left (ownStep u name) fetched s).
Proof.
  intros u name. induction fetched as [| T rest IH]; intros s; simpl.
  - apply pendingShrinks_refl.
  - eapply pendingShrinks_trans; [apply pendingShrinks_ownStep | apply IH].
Qed.

Lemma pendingShrinks_ensureOwned :
  forall u name fetched s,
    pendingShrinks u s (snd (ensureOwned u name fetched s)).
Proof.
  intros u name. induction fetched as [| T rest IH]; intros s.
  - apply pendingShrinks_refl.
  - rewrite ensureOwned_step. destruct (validTask (owned u name T)).
    + eapply pendingShrinks_trans; [apply pendingShrinks_ownStep | apply IH].
    + simpl. destruct (String.eqb_spec (assignedUser T) "") as [E | E]; simpl.
      * apply pendingShrinks_refl.
      * destruct (String.eqb_spec (assignedUser T) u) as [E' | E']; simpl.
        -- apply pendingShrinks_refl.
        -- now apply pendingShrinks_detach.
Qed.

Lemma ownLoop_findTask_other :
  forall u name fetched s x,
    ~ In x (map t_id fetched) ->
    findTask x (fold_left (ownStep u name) fetched s) = findTask x s.
Proof.
  intros u name. induction fetched as [| T rest IH]; intros s x Hnot; simpl.
  - reflexivity.
  - simpl in Hnot. rewrite IH by tauto. rewrite findTask_ownStep.
    destruct (String.eqb_spec x (t_id T)); [intuition congruence |].
    reflexivity.
Qed.

(** After the loop, a task it was given is saved as owned by the user,
    and its previous owner, if another user, has lost it. *)
Lemma ownLoop_owned :
  forall u name fetched s T,
    NoDup (map t_id fetched) ->
    In T fetched ->
    let s' := fold_left (ownStep u name) fetched s in
    findTask (t_id T) s' = Some (owned u name T)
    /\ (assignedUser T <> "" -> assignedUser T <> u ->
        forall P', pendingOf s' (assignedUser T) = Some P' ->
                   ~ In (t_id T) P').
Proof.
  intros u name. induction fetched as [| T0 rest IH]; intros s T Hnd Hin;
    [contradiction |].
  inversion Hnd as [| ? ? Hfirst Hnd']; subst. simpl.
  destruct Hin as [-> | Hin].
  - split.
    + rewrite ownLoop_findTask_other by assumption.
      rewrite findTask_ownStep. now rewrite String.eqb_refl.
    + intros Hne Hother P' HP'.
      destruct (pendingShrinks_ownLoop u name rest (ownStep u name s T))
        as (_ & _ & Hshrink).
      destruct (Hshrink _ _ HP') as (P & HP & Hincl).
      intros Hin. apply Hincl in Hin.
      rewrite pendingOf_ownStep in HP. rewrite String.eqb_refl in HP.
      apply String.eqb_neq in Hne, Hother. rewrite Hne, Hother in HP.
      simpl in HP.
      destruct (pendingOf s (assignedUser T)) as [P0 |]; [| discriminate].
      injection HP as <-. apply pull_In in Hin. tauto.
  - apply IH; assumption.
Qed.

Section ResyncProperties.
Context {rt : Runtime}.

(** A resync that returns ran its loop over a list of distinct tasks that
    holds every stored task the new pending list names: as it was stored,
    or with its owner cleared by the removed pass, when the previous list
    named it under another spelling and it pointed at the user. *)
Lemma resync_fetched :
  forall (userDoc : User) (previousPending : list string) (s : Store)
         x (s' : Store) (t : string) (T : Task),
    NoDup (taskIds s) ->
    syncUserPendingTasks userDoc previousPending s = (Ok x, s') ->
    (exists y, In y (pendingTasks userDoc)
               /\ toObjectId (taskIds s) y = Some t) ->
    findTask t s = Some T ->
    exists fetched s2 T2,
      s' = fold_left (ownStep (u_id userDoc) (u_name userDoc)) fetched s2
      /\ NoDup (map t_id fetched)
      /\ In T2 fetched
      /\ (T2 = T
          \/ (T2 = setOwner "" unassigned T
              /\ assignedUser T = u_id userDoc)).
Proof.
  intros userDoc previousPending s x s' t T Hnd Hrun Hin HT.
  apply syncUserPendingTasks_Ok in Hrun. cbv zeta in Hrun.
  destruct Hrun as (roids & coids & Hremoved & Hcurrent & Hrun).
  set (p := fun t0 : Task => _ && _) in Hrun.
  set (s2 := clearOwners p s) in Hrun.
  set (fetched := filter _ (tasks s2)) in Hrun.
  pose proof (findTask_id _ _ _ HT) as Hid.
  set (T2 := if p T then setOwner "" unassigned T else T).
  assert (HT2 : findTask t s2 = Some T2).
  { subst s2 T2. now rewrite findTask_clearOwners, HT. }
  assert (Hid2 : t_id T2 = t) by (subst T2; now destruct (p T)).
  exists fetched, s2, T2. split; [exact Hrun | split; [| split]].
  - subst fetched. apply NoDup_map_filter.
    change (NoDup (taskIds s2)). subst s2.
    now rewrite taskIds_clearOwners.
  - subst fetched. apply filter_In. split.
    + eapply (find_has_In t_id). exact HT2.
    + apply includes_In. rewrite Hid2.
      destruct Hin as (y & Hin & Hy).
      destruct (castTo_In_l _ _ _ _ Hcurrent Hin) as (oid & Hoid & Hcast).
      rewrite Hy in Hcast. injection Hcast as <-. exact Hoid.
  - subst T2. destruct (p T) eqn:Hp; [right | now left].
    split; [reflexivity |]. subst p. cbv beta in Hp.
    apply andb_true_iff in Hp as [_ Hp]. now apply String.eqb_eq.
Qed.

(** X13.  The current pass of the resync.  When the resync returns, every
    stored task named in the user's new pending list is saved with this
    user as owner, the user's name as owner name and not completed, its
    other fields as they were; and if it pointed at another user before,
    that user's pending list no longer holds it. *)
Theorem syncUserPendingTasks_current :
  forall (userDoc : User) (previousPending : list string) (s : Store)
         x (s' : Store) (t : string) (T : Task),
    NoDup (taskIds s) ->
    syncUserPendingTasks userDoc previousPending s = (Ok x, s') ->
    In t (pendingTasks userDoc) ->
    findTask t s = Some T ->
    findTask t s'
    = Some (mkTask t (t_name T) (description T) (deadline T) false
                   (u_id userDoc) (u_name userDoc))
    /\ (assignedUser T <> "" -> assignedUser T <> u_id userDoc ->
        forall P', pendingOf s' (assignedUser T) = Some P' -> ~ In t P').
Proof.
  intros userDoc previousPending s x s' t T Hnd Hrun Hin HT.
  assert (Hnamed : exists y, In y (pendingTasks userDoc)
                             /\ toObjectId (taskIds s) y = Some t).
  { exists t. split; [exact Hin |]. apply toObjectId_stored.
    apply findTask_exists. congruence. }
  destruct (resync_fetched _ _ _ _ _ _ _ Hnd Hrun Hnamed HT)
    as (fetched & s2 & T2 & -> & Hnd2 & Hfetched & HT2).
  pose proof (findTask_id _ _ _ HT) as Hid.
  destruct (ownLoop_owned (u_id userDoc) (u_name userDoc) fetched s2 T2
              Hnd2 Hfetched) as [Hsaved Hlost].
  destruct HT2 as [-> | [-> Hown]].
  - rewrite Hid in Hsaved, Hlost. split.
    + rewrite Hsaved. f_equal. unfold owned, setOwner, setCompleted. simpl.
      rewrite Hid. now destruct (completed T).
    + intros Hne Hother P' HP'.
      apply (Hlost Hne Hother P'). exact HP'.
  - simpl in Hsaved. rewrite Hid in Hsaved. split.
    + rewrite Hsaved. f_equal. unfold owned, setOwner, setCompleted. simpl.
      rewrite Hid. now destruct (completed T).
    + intros _ Hother. contradiction.
Qed.

(** X14.  Whether it returns or throws, the resync creates and deletes no
    user, leaves the pending list of the user it was called for as it is,
    and adds no entry to any pending list. *)
Theorem syncUserPendingTasks_adds_nothing :
  forall (userDoc : User) (previousPending : list string) (s : Store),
    let s' := snd (syncUserPendingTasks userDoc previousPending s) in
    userIds s' = userIds s
    /\ pendingOf s' (u_id userDoc) = pendingOf s (u_id userDoc)
    /\ forall v P',
         pendingOf s' v = Some P' ->
         exists P, pendingOf s v = Some P /\ forall x, In x P' -> In x P.
Proof.
  intros userDoc previousPending s s'.
  enough (H : pendingShrinks (u_id userDoc) s s') by exact H.
  subst s'. unfold syncUserPendingTasks. cbv zeta. rewrite snd_bind.
  set (removed := filter _ previousPending).
  destruct (removedPass_store (u_id userDoc) removed s) as [Hus _].
  destruct (removedPass (u_id userDoc) removed s) as [[x | e] s1];
    simpl in Hus; [| apply pendingShrinks_users; exact Hus].
  eapply pendingShrinks_trans; [apply pendingShrinks_users; exact Hus |].
  unfold currentPass.
  destruct (negb (length (pendingTasks userDoc) =? 0)%nat); simpl.
  - rewrite snd_bind.
    pose proof (Task_findIn_store (pendingTasks userDoc) s1) as Hstore.
    destruct (Task_findIn (pendingTasks userDoc) s1) as [[fetched | e] s2];
      simpl in Hstore; subst s2.
    + apply pendingShrinks_ensureOwned.
    + apply pendingShrinks_refl.
  - apply pendingShrinks_refl.
Qed.

End ResyncProperties.

(** X13 at a resync: Bob's pending list becomes the task idT, which
    pointed at Alice. *)
Lemma syncUserPendingTasks_current_witness :
  let s' := snd (syncUserPendingTasks (rt := Demo.runtime)
                   (Demo.bob [Demo.idT]) [] Demo.store) in
  findTask Demo.idT s'
  = Some (Demo.task Demo.idT false Demo.idB (Value "Bob"))
  /\ pendingOf s' Demo.idA = Some [Demo.idX].
Proof.
  destruct (syncUserPendingTasks_current (rt := Demo.runtime)
              (Demo.bob [Demo.idT]) [] Demo.store tt
              (snd (syncUserPendingTasks (rt := Demo.runtime)
                      (Demo.bob [Demo.idT]) [] Demo.store))
              Demo.idT (Demo.task Demo.idT false Demo.idA (Value "Alice")))
    as [Hsaved _].
  - apply NoDup_cons; [simpl; intros [H | []]; discriminate H |].
    apply NoDup_cons; [simpl; tauto | apply NoDup_nil].
  - reflexivity.
  - simpl. tauto.
  - reflexivity.
  - split; [exact Hsaved | reflexivity].
Defined.

(* ===================================================================== *)
(** * Further properties: the mutation routes *)
(* ===================================================================== *)

Section DeleteProperties.
Context {rt : Runtime}.

(** X15.  A user deletion that completes, in a store whose user ids are
    distinct.  The answer has no body.  The user stored under the
    ObjectId the text of the request is cast to is gone, and every other
    user is as before.  Every task whose [assignedUser] is the text of
    the request has an empty owner and the owner name "unassigned", its
    other fields and its completion flag as they were; every other task
    is as before, also one that points at the deleted user when the
    request spells the id otherwise than the store does. *)
Theorem users_delete_unassigns :
  forall (userId : string) (s : Store),
    NoDup (userIds s) ->
    completes (fst (users_delete userId s)) = true ->
    let s' := snd (users_delete userId s) in
    fst (users_delete userId s) = NoContent
    /\ (exists oid,
           toObjectId (userIds s) userId = Some oid
           /\ findUser oid s <> None
           /\ findUser oid s' = None
           /\ forall v, v <> oid -> findUser v s' = findUser v s)
    /\ (forall t T,
           findTask t s = Some T ->
           findTask t s'
           = Some (if assignedUser T =? userId
                   then mkTask (t_id T) (t_name T) (description T)
                               (deadline T) (completed T) "" unassigned
                   else T)).
Proof.
  intros userId s Hnd Hc s'. subst s'.
  destruct (users_delete userId s) as [resp s1] eqn:Hrun. simpl in *.
  destruct (users_delete_ok _ _ _ _ Hrun Hc)
    as (oid & U0 & Hoid & HU0 & -> & ->).
  split; [reflexivity |].
  assert (Hfind : forall v,
             findUser v (dropUser oid
                           (clearOwners (fun t => assignedUser t =? userId) s))
             = if v =? oid then None else findUser v s).
  { intros v. unfold findUser, dropUser, hasUserId. simpl.
    now apply (find_deleteOne u_id). }
  split.
  - exists oid. split; [exact Hoid |]. split; [congruence |]. split.
    + rewrite Hfind. now rewrite String.eqb_refl.
    + intros v Hv. rewrite Hfind. apply String.eqb_neq in Hv.
      now rewrite Hv.
  - intros t T HT.
    change (findTask t (dropUser oid ?x)) with (findTask t x).
    rewrite findTask_clearOwners, HT. reflexivity.
Qed.

(** X16.  A task deletion that completes, in a store whose task ids are
    distinct.  The task stored under the ObjectId the text of the request
    is cast to is gone, and every other task is as before.  The pending
    list of the task's owner is the old one without the entries equal to
    the text of the request: it keeps the id of the task when the request
    spells it otherwise than the store does.  The other pending lists are
    as before. *)
Theorem tasks_delete_detaches :
  forall (taskId oid : string) (s : Store) (T0 : Task),
    NoDup (taskIds s) ->
    toObjectId (taskIds s) taskId = Some oid ->
    findTask oid s = Some T0 ->
    completes (fst (tasks_delete taskId s)) = true ->
    let s' := snd (tasks_delete taskId s) in
    findTask oid s' = None
    /\ (forall x, x <> oid -> findTask x s' = findTask x s)
    /\ (forall v P,
           v <> "" -> pendingOf s v = Some P ->
           pendingOf s' v
           = Some (if v =? assignedUser T0 then Coll.pull taskId P else P)).
Proof.
  intros taskId oid s T0 Hnd Hoid HT0 Hc s'. subst s'.
  destruct (tasks_delete taskId s) as [resp s1] eqn:Hrun. simpl in *.
  destruct (tasks_delete_ok _ _ _ _ Hrun Hc)
    as (oid' & T0' & Hoid' & HT0' & -> & _).
  rewrite Hoid in Hoid'. injection Hoid' as <-.
  rewrite HT0 in HT0'. injection HT0' as <-.
  split; [| split].
  - rewrite findTask_detach, findTask_dropTask by assumption.
    now rewrite String.eqb_refl.
  - intros x Hx. rewrite findTask_detach, findTask_dropTask by assumption.
    apply String.eqb_neq in Hx. now rewrite Hx.
  - intros v P Hv HP.
    destruct (String.eqb_spec (assignedUser T0) "") as [E | E].
    + rewrite E, detach_empty.
      change (pendingOf (dropTask oid s) v) with (pendingOf s v).
      rewrite HP. destruct (String.eqb_spec v ""); [congruence | reflexivity].
    + rewrite pendingOf_detach by assumption.
      change (pendingOf (dropTask oid s) v) with (pendingOf s v).
      rewrite HP. now destruct (v =? assignedUser T0).
Qed.

(** X17.  The four routes that change or delete a document by id refuse
    an id that is not well formed with 400; a well-formed id that the
    store cannot cast with the 400 of the cast error; and an id cast to
    an ObjectId under which no document is stored with 404.  In each case
    nothing is written. *)
Theorem mutations_by_id_refusals :
  forall (id : string) (userBody : UserBody) (taskBody : TaskBody)
         (s : Store),
    let castRefused :=
      Json 400 ("Invalid value for field " ++ quoted "_id") DEmpty in
    (ObjectId_isValid id = false ->
     users_put id userBody s = (Json 400 "Invalid user id" DEmpty, s)
     /\ users_delete id s = (Json 400 "Invalid user id" DEmpty, s)
     /\ tasks_put id taskBody s = (Json 400 "Invalid task id" DEmpty, s)
     /\ tasks_delete id s = (Json 400 "Invalid task id" DEmpty, s))
    /\ (ObjectId_isValid id = true ->
        (toObjectId (userIds s) id = None ->
         users_put id userBody s = (castRefused, s)
         /\ users_delete id s = (castRefused, s))
        /\ (forall oid,
               toObjectId (userIds s) id = Some oid ->
               findUser oid s = None ->
               users_put id userBody s
               = (Json 404 "User not found" DEmpty, s)
               /\ users_delete id s
                  = (Json 404 "User not found" DEmpty, s))
        /\ (toObjectId (taskIds s) id = None ->
            tasks_put id taskBody s = (castRefused, s)
            /\ tasks_delete id s = (castRefused, s))
        /\ (forall oid,
               toObjectId (taskIds s) id = Some oid ->
               findTask oid s = None ->
               tasks_put id taskBody s
               = (Json 404 "Task not found" DEmpty, s)
               /\ tasks_delete id s
                  = (Json 404 "Task not found" DEmpty, s))).
Proof.
  intros id userBody taskBody s castRefused. subst castRefused.
  unfold users_put, users_delete, tasks_put, tasks_delete, tryCatch.
  split; intros Hvalid; rewrite Hvalid; simpl.
  - repeat split.
  - unfold bind at 1 3 5 7.
    unfold User_findById, Task_findById, bind. rewrite !castId_run.
    unfold User_findByObjectId, Task_findByObjectId, gets.
    split; [| split; [| split]].
    + intros ->. split; reflexivity.
    + intros oid -> ->. split; reflexivity.
    + intros ->. split; reflexivity.
    + intros oid -> ->. split; reflexivity.
Qed.

End DeleteProperties.

(** X15 at the deletion of Alice, who owns both tasks of the store; and
    at the deletion of Alice under her id in upper case, in the store
    where she owns the task idC: she is gone, and the task keeps pointing
    at her. *)
Lemma users_delete_unassigns_witness :
  (let s' := snd (users_delete (rt := Demo.runtime) Demo.idA Demo.store) in
   findUser Demo.idA s' = None
   /\ findTask Demo.idT s' = Some (Demo.task Demo.idT false "" unassigned)
   /\ findTask Demo.idX s' = Some (Demo.task Demo.idX false "" unassigned))
  /\ (let s' := snd (users_delete (rt := Demo.runtime) Demo.idA'
                       Demo.storeC) in
      findUser Demo.idA s' = None
      /\ findTask Demo.idC s'
         = Some (Demo.task Demo.idC false Demo.idA (Value "Alice"))).
Proof.
  assert (Hnd : forall x y : string, x <> y -> NoDup [x; y]).
  { intros x y Hxy. apply NoDup_cons; [simpl; intros [H | []]; congruence |].
    apply NoDup_cons; [simpl; tauto | apply NoDup_nil]. }
  split.
  - destruct (users_delete_unassigns (rt := Demo.runtime) Demo.idA
                Demo.store (Hnd Demo.idA Demo.idB ltac:(discriminate))
                eq_refl)
      as (_ & (oid & Hoid & _ & Hgone & _) & Htasks).
    injection Hoid as <-.
    split; [exact Hgone |]. split.
    + exact (Htasks Demo.idT _ eq_refl).
    + exact (Htasks Demo.idX _ eq_refl).
  - destruct (users_delete_unassigns (rt := Demo.runtime) Demo.idA'
                Demo.storeC (Hnd Demo.idA Demo.idB ltac:(discriminate))
                eq_refl)
      as (_ & (oid & Hoid & _ & Hgone & _) & Htasks).
    injection Hoid as <-.
    split; [exact Hgone |].
    exact (Htasks Demo.idC _ eq_refl).
Defined.

(** X16 at the deletion of the task idT, which Alice owns; and at the
    deletion of the task idC under its id in upper case: the task is
    gone, and Alice's list keeps its id. *)
Lemma tasks_delete_detaches_witness :
  (let s' := snd (tasks_delete (rt := Demo.runtime) Demo.idT Demo.store) in
   findTask Demo.idT s' = None
   /\ pendingOf s' Demo.idA = Some [Demo.idX])
  /\ (let s' := snd (tasks_delete (rt := Demo.runtime) Demo.idC'
                       Demo.storeC) in
      findTask Demo.idC s' = None
      /\ pendingOf s' Demo.idA = Some [Demo.idC]).
Proof.
  split.
  - destruct (tasks_delete_detaches (rt := Demo.runtime) Demo.idT Demo.idT
                Demo.store
                (Demo.task Demo.idT false Demo.idA (Value "Alice")))
      as (Hgone & _ & Hpending).
    + apply NoDup_cons; [simpl; intros [H | []]; discriminate H |].
      apply NoDup_cons; [simpl; tauto | apply NoDup_nil].
    + reflexivity.
    + reflexivity.
    + reflexivity.
    + split; [exact Hgone |].
      exact (Hpending Demo.idA [Demo.idT; Demo.idX] ltac:(discriminate)
               eq_refl).
  - destruct (tasks_delete_detaches (rt := Demo.runtime) Demo.idC' Demo.idC
                Demo.storeC
                (Demo.task Demo.idC false Demo.idA (Value "Alice")))
      as (Hgone & _ & Hpending).
    + apply NoDup_cons; [simpl; tauto | apply NoDup_nil].
    + reflexivity.
    + reflexivity.
    + reflexivity.
    + split; [exact Hgone |].
      exact (Hpending Demo.idA [Demo.idC] ltac:(discriminate) eq_refl).
Defined.

(** X17 at an id that is no object id, and at an id that is not stored. *)
Lemma mutations_by_id_refusals_witness :
  tasks_delete (rt := Demo.runtime) "42" Demo.store
  = (Json 400 "Invalid task id" DEmpty, Demo.store)
  /\ users_delete (rt := Demo.runtime) Demo.idT Demo.store
     = (Json 404 "User not found" DEmpty, Demo.store).
Proof.
  split.
  - exact (proj2 (proj2 (proj2 (proj1
             (mutations_by_id_refusals (rt := Demo.runtime) "42"
                (mkUserBody JUndefined JUndefined JUndefined)
                (Demo.taskBody JUndefined) Demo.store) eq_refl)))).
  - exact (proj2 (proj1 (proj2 (proj2
             (mutations_by_id_refusals (rt := Demo.runtime) Demo.idT
                (mkUserBody JUndefined JUndefined JUndefined)
                (Demo.taskBody JUndefined) Demo.store) eq_refl))
             Demo.idT eq_refl eq_refl)).
Defined.

Section TaskWriteProperties.
Context {rt : Runtime}.

(** X18.  A task update that completes, keeps the owner and sets
    [completed] to true.  The task, stored under the ObjectId the text of
    the request is cast to, still points at its owner and is completed.
    The owner's pending list is the old one without the entries equal to
    the text of the request: it keeps the id of the task when the request
    spells it otherwise than the store does.  The other pending lists are
    as before. *)
Theorem tasks_put_completed_leaves_owner :
  forall (taskId oid : string) (body : TaskBody) (s : Store) (T0 : Task)
         (A : string) (PA : list string),
    toObjectId (taskIds s) taskId = Some oid ->
    findTask oid s = Some T0 ->
    assignedUser T0 = A ->
    assignedUserOf body <> "" ->
    toObjectId (userIds s) (assignedUserOf body) = Some A ->
    A <> "" ->
    pendingOf s A = Some PA ->
    parseBoolean (tb_completed body) false = true ->
    completes (fst (tasks_put taskId body s)) = true ->
    let s' := snd (tasks_put taskId body s) in
    (exists T1,
        findTask oid s' = Some T1
        /\ assignedUser T1 = A /\ completed T1 = true)
    /\ pendingOf s' A = Some (Coll.pull taskId PA)
    /\ (forall v, v <> A -> pendingOf s' v = pendingOf s v).
Proof.
  intros taskId oid body s T0 A PA Hoid HT0 HA Hbody HB HAne HPA Hdone Hc s'.
  subst s'.
  destruct (tasks_put taskId body s) as [resp s1] eqn:Hrun. simpl in Hc.
  simpl.
  destruct (tasks_put_ok _ _ _ _ _ Hrun Hc)
    as (oid' & T0' & dl & userDoc & Hoid' & HT0' & _ & Huser & _ & -> & _).
  rewrite Hoid in Hoid'. injection Hoid' as <-.
  rewrite HT0 in HT0'. injection HT0' as <-.
  destruct userDoc as [U |]; [| contradiction].
  destruct Huser as (_ & HU & _). rewrite HB in HU. injection HU as HU.
  set (doc := updatedTask oid body dl (Some U)).
  assert (Hdoc : completed doc = true) by exact Hdone.
  assert (Hnext : assignedUser doc = A) by (subst doc; simpl; congruence).
  cbn [ownerOf]. rewrite HA, <- HU. unfold reassigned.
  rewrite String.eqb_refl, Hdoc.
  split; [| split].
  - exists doc. rewrite findTask_detach, findTask_putTask.
    change (t_id doc) with oid. rewrite String.eqb_refl. auto.
  - rewrite pendingOf_detach by assumption.
    now rewrite String.eqb_refl, pendingOf_putTask, HPA.
  - intros v Hv. rewrite pendingOf_detach by assumption.
    apply String.eqb_neq in Hv. now rewrite Hv.
Qed.

(** X19.  A task update that completes and names no owner: the task ends
    with an empty owner and the owner name "unassigned"; the pending list
    of the previous owner is the old one without the task's id; the other
    pending lists are as before. *)
Theorem tasks_put_without_owner_unassigns :
  forall (taskId : string) (body : TaskBody) (s : Store) (T0 : Task)
         (A : string) (PA : list string),
    findTask taskId s = Some T0 ->
    assignedUser T0 = A ->
    assignedUserOf body = "" ->
    A <> "" ->
    pendingOf s A = Some PA ->
    completes (fst (tasks_put taskId body s)) = true ->
    let s' := snd (tasks_put taskId body s) in
    (exists T1,
        findTask taskId s' = Some T1
        /\ assignedUser T1 = "" /\ assignedUserName T1 = unassigned)
    /\ pendingOf s' A = Some (Coll.pull taskId PA)
    /\ (forall v, v <> A -> pendingOf s' v = pendingOf s v).
Proof.
  intros taskId body s T0 A PA HT0 HA HB HAne HPA Hc s'. subst s'.
  destruct (tasks_put taskId body s) as [resp s1] eqn:Hrun. simpl in Hc.
  simpl.
  destruct (tasks_put_ok _ _ _ _ _ Hrun Hc)
    as (oid & T0' & dl & userDoc & Hoid & HT0' & _ & Huser & _ & -> & _).
  rewrite toObjectId_stored in Hoid
    by (apply findTask_exists; congruence).
  injection Hoid as <-.
  rewrite HT0 in HT0'. injection HT0' as <-.
  destruct userDoc as [U |]; [destruct Huser as (Hne & _); congruence |].
  set (doc := updatedTask taskId body dl None).
  cbn [ownerOf]. rewrite HA. unfold reassigned.
  apply String.eqb_neq in HAne as HAb. rewrite HAb.
  assert (Hlast : forall s0, (if completed doc then detach taskId "" s0
                              else attach taskId "" s0) = s0)
    by (intros s0; now destruct (completed doc)).
  rewrite Hlast.
  split; [| split].
  - exists doc. rewrite findTask_detach, findTask_putTask.
    change (t_id doc) with taskId. rewrite String.eqb_refl. auto.
  - rewrite pendingOf_detach by assumption.
    rewrite String.eqb_refl, pendingOf_putTask.
    rewrite pendingOf_detach by assumption.
    rewrite String.eqb_refl, HPA. simpl. now rewrite pull_pull.
  - intros v Hv. rewrite pendingOf_detach by assumption.
    apply String.eqb_neq in Hv. rewrite Hv, pendingOf_putTask.
    rewrite pendingOf_detach by assumption. now rewrite Hv.
Qed.

(** X20.  A task creation that completes answers 201 with the stored
    task, which carries the new id; every other task is as before.  The
    owner of the task is the id of the user stored under the ObjectId
    that [assignedUser] is cast to, as the store writes it, or empty when
    the payload names no user.  When the task has an owner and is not
    completed, the owner's pending list gains the id, once; otherwise no
    pending list changes: a task created as completed is attached to
    nobody. *)
Theorem tasks_post_creates :
  forall (newId : string) (body : TaskBody) (s : Store),
    completes (fst (tasks_post newId body s)) = true ->
    let s' := snd (tasks_post newId body s) in
    let done := parseBoolean (tb_completed body) false in
    exists owner,
      (if assignedUserOf body =? "" then owner = ""
       else toObjectId (userIds s) (assignedUserOf body) = Some owner
            /\ findUser owner s <> None)
      /\ (exists T,
             findTask newId s' = Some T
             /\ fst (tasks_post newId body s)
                = Json 201 "Task created" (DTask (Some T))
             /\ t_id T = newId /\ assignedUser T = owner
             /\ completed T = done)
      /\ (forall x, x <> newId -> findTask x s' = findTask x s)
      /\ (forall v P,
             pendingOf s v = Some P -> v <> "" ->
             pendingOf s' v
             = Some (if (v =? owner) && negb done
                     then Coll.addToSet newId P else P)).
Proof.
  intros newId body s Hc s' done. subst s'.
  destruct (tasks_post newId body s) as [resp s1] eqn:Hrun. simpl in Hc.
  simpl. subst done.
  set (done := parseBoolean (tb_completed body) false) in *.
  destruct (tasks_post_ok _ _ _ _ _ Hrun Hc)
    as (dl & userDoc & Huser & Hs1).
  cbv zeta in Hs1. destruct Hs1 as (_ & Hs1 & Hresp).
  set (doc := updatedTask newId body dl userDoc) in *.
  set (owner := ownerOf userDoc) in *.
  assert (Hdone : completed doc = done) by reflexivity.
  assert (Hnext : assignedUser doc = owner)
    by (subst doc owner; now destruct userDoc).
  assert (HF : forall x, findTask x s1
                         = if x =? newId then Some doc else findTask x s).
  { intros x. rewrite Hs1. destruct (completed doc);
      rewrite ?findTask_attach; apply findTask_putTask. }
  exists owner. split; [| split; [| split]].
  - subst owner. destruct userDoc as [U |]; simpl.
    + destruct Huser as (Hne & HU & HfU).
      apply String.eqb_neq in Hne. rewrite Hne.
      split; [exact HU | congruence].
    + now rewrite Huser.
  - exists doc. rewrite HF, String.eqb_refl.
    split; [reflexivity |]. split; [| auto].
    rewrite Hresp. now rewrite HF, String.eqb_refl.
  - intros x Hx. rewrite HF. apply String.eqb_neq in Hx. now rewrite Hx.
  - intros v P HP Hv. rewrite Hs1. rewrite <- Hdone.
    destruct (completed doc); cbn [negb].
    + rewrite andb_false_r. exact HP.
    + rewrite andb_true_r.
      destruct (String.eqb_spec owner "") as [E | E].
      * rewrite E, attach_empty.
        destruct (String.eqb_spec v ""); [congruence | exact HP].
      * rewrite pendingOf_attach by assumption.
        change (pendingOf (putTask doc s) v) with (pendingOf s v).
        rewrite HP. now destruct (v =? owner).
Qed.

End TaskWriteProperties.

(** X18 at PUT /tasks/:id with [completed] true and Alice kept as owner:
    for the task idT, and for the task idC under its id in upper case,
    which stays in her list. *)
Lemma tasks_put_completed_leaves_owner_witness :
  (let s' :=
     snd (tasks_put (rt := Demo.runtime) Demo.idT
            (Demo.doneBody (JStr Demo.idA)) Demo.store) in
   findTask Demo.idT s'
   = Some (Demo.task Demo.idT true Demo.idA (Value "Alice"))
   /\ pendingOf s' Demo.idA = Some [Demo.idX])
  /\ (let s' :=
        snd (tasks_put (rt := Demo.runtime) Demo.idC'
               (Demo.doneBody (JStr Demo.idA)) Demo.storeC) in
      findTask Demo.idC s'
      = Some (Demo.task Demo.idC true Demo.idA (Value "Alice"))
      /\ pendingOf s' Demo.idA = Some [Demo.idC]).
Proof.
  split.
  - destruct (tasks_put_completed_leaves_owner (rt := Demo.runtime)
                Demo.idT Demo.idT (Demo.doneBody (JStr Demo.idA)) Demo.store
                (Demo.task Demo.idT false Demo.idA (Value "Alice"))
                Demo.idA [Demo.idT; Demo.idX]
                eq_refl eq_refl eq_refl ltac:(discriminate) eq_refl
                ltac:(discriminate) eq_refl eq_refl eq_refl)
      as (_ & Hpending & _).
    split; [reflexivity | exact Hpending].
  - destruct (tasks_put_completed_leaves_owner (rt := Demo.runtime)
                Demo.idC' Demo.idC (Demo.doneBody (JStr Demo.idA))
                Demo.storeC
                (Demo.task Demo.idC false Demo.idA (Value "Alice"))
                Demo.idA [Demo.idC]
                eq_refl eq_refl eq_refl ltac:(discriminate) eq_refl
                ltac:(discriminate) eq_refl eq_refl eq_refl)
      as (_ & Hpending & _).
    split; [reflexivity | exact Hpending].
Defined.

(** X19 at PUT /tasks/idT with no [assignedUser]. *)
Lemma tasks_put_without_owner_unassigns_witness :
  let s' :=
    snd (tasks_put (rt := Demo.runtime) Demo.idT (Demo.taskBody JUndefined)
           Demo.store) in
  findTask Demo.idT s' = Some (Demo.task Demo.idT false "" unassigned)
  /\ pendingOf s' Demo.idA = Some [Demo.idX].
Proof.
  destruct (tasks_put_without_owner_unassigns (rt := Demo.runtime) Demo.idT
              (Demo.taskBody JUndefined) Demo.store
              (Demo.task Demo.idT false Demo.idA (Value "Alice"))
              Demo.idA [Demo.idT; Demo.idX]
              eq_refl eq_refl eq_refl ltac:(discriminate) eq_refl eq_refl)
    as (_ & Hpending & _).
  split; [reflexivity | exact Hpending].
Defined.

(** X20 at POST /tasks with Alice as owner, named by her id in upper
    case, in the store where her pending list is empty. *)
Lemma tasks_post_creates_witness :
  let s' :=
    snd (tasks_post (rt := Demo.runtime) Demo.idX
           (Demo.taskBody (JStr Demo.idA')) Demo.doneStore) in
  findTask Demo.idX s'
  = Some (Demo.task Demo.idX false Demo.idA (Value "Alice"))
  /\ pendingOf s' Demo.idA = Some [Demo.idX]
  /\ pendingOf s' Demo.idB = Some [].
Proof.
  destruct (tasks_post_creates (rt := Demo.runtime) Demo.idX
              (Demo.taskBody (JStr Demo.idA')) Demo.doneStore eq_refl)
    as (owner & Howner & _ & _ & Hpending).
  simpl in Howner. destruct Howner as [Howner _]. injection Howner as <-.
  split; [reflexivity | split].
  - exact (Hpending Demo.idA [] eq_refl ltac:(discriminate)).
  - exact (Hpending Demo.idB [] eq_refl ltac:(discriminate)).
Defined.

Section RefusalProperties.
Context {rt : Runtime}.

Lemma tryCatch_refused :
  forall (body : M Response) onError s,
    (forall R s', body s = (R, s') ->
                  match R with
                  | Throw _ => s' = s
                  | Ok r => completes r = true
                  end) ->
    completes (fst (tryCatch body onError s)) = false ->
    snd (tryCatch body onError s) = s.
Proof.
  intros body onError s H. unfold tryCatch.
  destruct (body s) as [[r | e] s'] eqn:E; simpl.
  - intros Hc. pose proof (H _ _ eq_refl) as Hr. simpl in Hr. congruence.
  - intros _. exact (H _ _ eq_refl).
Qed.

(** X21.  Three routes write nothing unless they complete: a task
    creation, a task deletion and a user deletion that are refused, for
    whatever reason, leave the store exactly as it was. *)
Theorem refused_requests_write_nothing :
  forall (id : string) (body : TaskBody) (s : Store),
    (completes (fst (tasks_post id body s)) = false ->
     snd (tasks_post id body s) = s)
    /\ (completes (fst (tasks_delete id s)) = false ->
        snd (tasks_delete id s) = s)
    /\ (completes (fst (users_delete id s)) = false ->
        snd (users_delete id s) = s).
Proof.
  intros id body s. split; [| split]; apply tryCatch_refused; intros R s' H.
  - unfold bind at 1 in H.
    pose proof (findAssignedUser_store (assignedUserOf body) s) as Hstore.
    destruct (findAssignedUser (assignedUserOf body) s) as [[userDoc | e] s1];
      simpl in Hstore; subst s1; [| now injection H as <- <-].
    unfold bind at 1, lift in H.
    destruct (parseDateValue (tb_deadline body) "deadline") as [dl | e];
      [| now injection H as <- <-].
    unfold bind at 1 in H.
    match type of H with
    | context [assignTask ?t _] => set (task := t) in H
    end.
    assert (Hassign : exists doc,
               match userDoc with
               | Some user => assignTask task user
               | None => ret task
               end s = (Ok doc, s)).
    { destruct userDoc as [U |]; [| eexists; reflexivity].
      rewrite assignTask_run. subst task. cbn [assignedUser t_id].
      eexists. f_equal. destruct (u_id U); reflexivity. }
    destruct Hassign as (doc & Hassign). rewrite Hassign in H.
    unfold bind at 1 in H. rewrite Task_save_run in H.
    destruct (validTask doc); [| now injection H as <- <-].
    unfold bind at 1 in H.
    match type of H with
    | context [when ?b ?c ?s0] =>
        assert (Hwhen : exists s2, when b c s0 = (Ok tt, s2))
          by (destruct b; simpl;
              [rewrite addTaskToUser_run | ]; eexists; reflexivity)
    end.
    destruct Hwhen as (s2 & Hwhen). rewrite Hwhen in H.
    unfold bind, Task_findByObjectId, gets, ret in H.
    now injection H as <- _.
  - destruct (negb (ObjectId_isValid id)); [now injection H as <- <- |].
    unfold bind at 1 in H.
    pose proof (Task_findById_store id s) as Hstore.
    destruct (Task_findById id s) as [[found | e] s1] eqn:Hfind;
      simpl in Hstore; subst s1; [| now injection H as <- <-].
    apply Task_findById_Ok in Hfind as [_ (oid & Hoid & ->)].
    destruct (findTask oid s) as [T |]; [| now injection H as <- <-].
    unfold bind at 1 in H. rewrite castId_run, Hoid in H.
    unfold bind at 1 in H. unfold onTasks, modify in H.
    unfold bind at 1 in H. rewrite when_removeTaskFromUser_run in H.
    unfold ret in H. now injection H as <- _.
  - destruct (negb (ObjectId_isValid id)); [now injection H as <- <- |].
    unfold bind at 1 in H.
    pose proof (User_findById_store id s) as Hstore.
    destruct (User_findById id s) as [[found | e] s1] eqn:Hfind;
      simpl in Hstore; subst s1; [| now injection H as <- <-].
    apply User_findById_Ok in Hfind as [_ (oid & Hoid & ->)].
    destruct (findUser oid s) as [U |]; [| now injection H as <- <-].
    unfold bind at 1 in H. unfold onTasks at 1, modify at 1 in H.
    unfold bind at 1 in H. rewrite castId_run in H.
    change (userIds (mkStore (users s) ?ts)) with (userIds s) in H.
    rewrite Hoid in H.
    unfold bind, onUsers, modify, ret in H. now injection H as <- _.
Qed.

End RefusalProperties.

(** X21 at a task creation without a name, which the schema refuses. *)
Lemma refused_requests_write_nothing_witness :
  snd (tasks_post (rt := Demo.runtime) Demo.idB
         (mkTaskBody JUndefined JUndefined (JNum (JS.num_of_Z 0)) JUndefined
                     (JStr Demo.idA))
         Demo.store)
  = Demo.store.
Proof.
  exact (proj1 (refused_requests_write_nothing (rt := Demo.runtime) Demo.idB
                  (mkTaskBody JUndefined JUndefined (JNum (JS.num_of_Z 0))
                              JUndefined (JStr Demo.idA))
                  Demo.store)
               eq_refl).
Defined.
(* ===================================================================== *)
(** * Further properties: the user writes *)
(* ===================================================================== *)

Lemma findUser_detach_other :
  forall t w s u, w <> u -> findUser u (detach t w s) = findUser u s.
Proof.
  intros t w s u Hw. unfold detach. destruct (w =? ""); [reflexivity |].
  unfold findUser, hasUserId. simpl.
  rewrite (find_updateOne u_id) by reflexivity.
  destruct (String.eqb_spec u w); [congruence | reflexivity].
Qed.

Lemma findUser_ownStep :
  forall u name s T, findUser u (ownStep u name s T) = findUser u s.
Proof.
  intros u name s T. unfold ownStep.
  destruct (String.eqb_spec (assignedUser T) u) as [E | E];
    rewrite ?andb_false_r; simpl.
  - reflexivity.
  - destruct (negb (assignedUser T =? "")); simpl; [| reflexivity].
    change (findUser u (detach (t_id T) (assignedUser T) s) = findUser u s).
    now apply findUser_detach_other.
Qed.

Lemma findUser_ownLoop :
  forall u name fetched s,
    findUser u (fold_left (ownStep u name) fetched s) = findUser u s.
Proof.
  intros u name. induction fetched as [| T rest IH]; intros s; simpl.
  - reflexivity.
  - rewrite IH. apply findUser_ownStep.
Qed.

Lemma userIds_ownLoop :
  forall u name fetched s,
    userIds (fold_left (ownStep u name) fetched s) = userIds s.
Proof.
  intros u name. induction fetched as [| T rest IH]; intros s; simpl.
  - reflexivity.
  - rewrite IH. apply userIds_ownStep.
Qed.

Lemma userIds_putUser_stored :
  forall U s, In (u_id U) (userIds s) -> userIds (putUser U s) = userIds s.
Proof.
  intros U s Hin. unfold userIds, putUser. simpl.
  rewrite (keys_save u_id) by reflexivity.
  now apply (existsb_has u_id) in Hin as ->.
Qed.

Lemma emailTaken_pending :
  forall id name email P Q l,
    emailTaken (mkUser id name email P) l
    = emailTaken (mkUser id name email Q) l.
Proof. reflexivity. Qed.

#[export] Hint Resolve throwsOnly_castId throwsOnly_castIds
  throwsOnly_User_findById throwsOnly_Task_findById
  throwsOnly_User_findByObjectId throwsOnly_Task_findByObjectId
  throwsOnly_Task_findIn throwsOnly_onUsers throwsOnly_onTasks
  throwsOnly_Task_save throwsOnly_User_save throwsOnly_removeTaskFromUser
  throwsOnly_addTaskToUser throwsOnly_ensureTasksExist throwsOnly_ensureOwned
  throwsOnly_syncUserPendingTasks throwsOnly_assignTask
  throwsOnly_unassignTask throwsOnly_findAssignedUser
  throwsOnly_parseDateValue throwsOnly_normalizeIdArray : throws.

Section UserWriteProperties.
Context {rt : Runtime}.
Local Open Scope monad_scope.

Lemma resync_findUser :
  forall U previous s x s',
    syncUserPendingTasks U previous s = (Ok x, s') ->
    findUser (u_id U) s' = findUser (u_id U) s
    /\ userIds s' = userIds s.
Proof.
  intros U previous s x s' Hrun.
  apply syncUserPendingTasks_Ok in Hrun. cbv zeta in Hrun.
  destruct Hrun as (roids & coids & _ & _ & ->).
  now rewrite findUser_ownLoop, userIds_ownLoop.
Qed.

(** The existence check, when it returns, has cast every id of the list,
    to ObjectIds that are distinct and each the id of a stored task. *)
Lemma ensureTasksExist_Ok :
  forall ids s found s1,
    ensureTasksExist ids s = (Ok found, s1) ->
    s1 = s
    /\ exists oids,
         castTo (taskIds s) ids oids
         /\ (NoDup (taskIds s) ->
             NoDup oids /\ forall t, In t oids -> findTask t s <> None).
Proof.
  intros ids s found s1. unfold ensureTasksExist.
  destruct ids as [| id0 ids'] eqn:Hids.
  - intros [= _ <-]. split; [reflexivity |]. exists [].
    split; [constructor |]. intros _.
    split; [constructor | intros t []].
  - rewrite <- Hids. replace (length ids =? 0)%nat with false
      by (subst ids; reflexivity).
    intros Hrun. apply bind_Ok in Hrun as (fetched & s2 & Hfind & Hrun).
    apply Task_findIn_Ok in Hfind as [-> (oids & Hcast & ->)].
    set (fetched := filter _ (tasks s)) in Hrun.
    destruct (Nat.eqb_spec (length fetched) (length ids)) as [Hlen | Hlen];
      simpl in Hrun; [| discriminate].
    injection Hrun as _ <-. split; [reflexivity |].
    exists oids. split; [exact Hcast |]. intros Hnd.
    assert (Hlen_ids : length ids = length oids)
      by (eapply Forall2_length; exact Hcast).
    assert (Hfetched_nd : NoDup (map t_id fetched))
      by (subst fetched; now apply NoDup_map_filter).
    assert (Hfetched_in : incl (map t_id fetched) oids).
    { intros y Hy. apply in_map_iff in Hy as (T & <- & HT).
      subst fetched. apply filter_In in HT as [_ HT].
      now apply includes_In. }
    assert (Hle : (length oids <= length (map t_id fetched))%nat)
      by (rewrite length_map, Hlen, Hlen_ids; apply Nat.le_refl).
    split.
    + exact (NoDup_incl_NoDup Hfetched_nd Hle Hfetched_in).
    + intros t Hin. apply findTask_exists.
      pose proof (NoDup_length_incl Hfetched_nd Hle Hfetched_in t Hin) as Ht.
      apply in_map_iff in Ht as (T & <- & HT).
      subst fetched. apply filter_In in HT as [HT _].
      unfold taskIds. now apply in_map.
Qed.

(** Saving a user and resyncing: the saved document is the stored one,
    no user appears or disappears in the resync, and every stored task
    that an entry of its list names is claimed for the user. *)
Lemma save_and_resync :
  forall (user : User) (previous : list string) s x1 s1 x2 s',
    NoDup (taskIds s) ->
    User_save user s = (Ok x1, s1) ->
    syncUserPendingTasks user previous s1 = (Ok x2, s') ->
    findUser (u_id user) s' = Some user
    /\ userIds s' = userIds (putUser user s)
    /\ forall y t T,
         In y (pendingTasks user) ->
         toObjectId (taskIds s) y = Some t ->
         findTask t s = Some T ->
         findTask t s'
         = Some (mkTask t (t_name T) (description T) (deadline T) false
                        (u_id user) (u_name user)).
Proof.
  intros user previous s x1 s1 x2 s' Hnd Hsave Hsync.
  apply User_save_Ok in Hsave as (_ & _ & ->).
  destruct (resync_findUser _ _ _ _ _ Hsync) as [Hfind Hids].
  split; [| split; [exact Hids |]].
  - rewrite Hfind. unfold findUser, putUser, hasUserId. simpl.
    rewrite (find_save u_id). now rewrite String.eqb_refl.
  - intros y t T Hin Hy HT.
    assert (HT1 : findTask t (putUser user s) = Some T) by exact HT.
    assert (Hnd1 : NoDup (taskIds (putUser user s))) by exact Hnd.
    assert (Hnamed : exists y0, In y0 (pendingTasks user)
                                /\ toObjectId (taskIds (putUser user s)) y0
                                   = Some t)
      by (exists y; split; assumption).
    destruct (resync_fetched _ _ _ _ _ _ _ Hnd1 Hsync Hnamed HT1)
      as (fetched & s2 & T2 & -> & Hnd2 & Hfetched & HT2).
    pose proof (findTask_id _ _ _ HT) as Hid.
    destruct (ownLoop_owned (u_id user) (u_name user) fetched s2 T2
                Hnd2 Hfetched) as [Hsaved _].
    assert (Hid2 : t_id T2 = t) by (destruct HT2 as [-> | [-> _]]; exact Hid).
    rewrite Hid2 in Hsaved. rewrite Hsaved. f_equal.
    destruct HT2 as [-> | [-> _]];
      unfold owned, setOwner, setCompleted; simpl;
      rewrite Hid; now destruct (completed T).
Qed.

(** X22.  A user creation or update that completes, in a store whose task
    ids are distinct.  The pending list of the payload normalizes to a
    list [ids].  The user is stored under the new id, or, for an update,
    under the ObjectId the text of the request is cast to; the document
    holds the name and email of the payload as the schema casts them and
    exactly [ids] as pending list, each entry as the payload spells it;
    the response carries that document, with 201 for a creation and 200
    for an update.  Every entry of [ids] names a task that was stored,
    under the ObjectId the entry is cast to; that task is now owned by
    this user under the new name and not completed, its other fields as
    they were. *)
Theorem user_writes_store_the_list :
  forall (create : bool) (id : string) (body : UserBody)
         (s : Store) (resp : Response) (s' : Store),
    NoDup (taskIds s) ->
    (if create then users_post id body s else users_put id body s)
    = (resp, s') ->
    completes resp = true ->
    exists ids oid,
      normalizeIdArray (pendingTasksOf body) "pendingTasks" = Ok ids
      /\ writtenId create id s = Some oid
      /\ let doc := mkUser oid (castString (ub_name body))
                           (castEmail (ub_email body)) ids in
         findUser oid s' = Some doc
         /\ resp = (if create
                    then sendResponse 201 "User created" (DUser (Some doc))
                    else sendResponse 200 "User updated" (DUser (Some doc)))
         /\ forall y,
              In y ids ->
              exists t T,
                toObjectId (taskIds s) y = Some t
                /\ findTask t s = Some T
                /\ findTask t s'
                   = Some (mkTask t (t_name T) (description T) (deadline T)
                                  false oid (castString (ub_name body))).
Proof.
  intros create id body s resp s' Hnd Hrun Hc.
  assert (Htail :
            forall oid ids found s1 x1 s2 x2 (previous : list string),
              ensureTasksExist ids s = (Ok found, s1) ->
              User_save (mkUser oid (castString (ub_name body))
                                (castEmail (ub_email body)) ids) s1
              = (Ok x1, s2) ->
              syncUserPendingTasks
                (mkUser oid (castString (ub_name body))
                        (castEmail (ub_email body)) ids) previous s2
              = (Ok x2, s') ->
              let doc := mkUser oid (castString (ub_name body))
                                (castEmail (ub_email body)) ids in
              findUser oid s' = Some doc
              /\ userIds s' = userIds (putUser doc s)
              /\ forall y,
                   In y ids ->
                   exists t T,
                     toObjectId (taskIds s) y = Some t
                     /\ findTask t s = Some T
                     /\ findTask t s'
                        = Some (mkTask t (t_name T) (description T)
                                       (deadline T) false oid
                                       (castString (ub_name body)))).
  { intros oid ids found s1 x1 s2 x2 previous Hexist Hsave Hsync doc.
    apply ensureTasksExist_Ok in Hexist as [-> (oids & Hcast & Hexist)].
    destruct (Hexist Hnd) as [_ Hstored].
    destruct (save_and_resync _ _ _ _ _ _ _ Hnd Hsave Hsync)
      as (Hdoc & Hids & Hown).
    split; [exact Hdoc |]. split; [exact Hids |].
    intros y Hin.
    destruct (castTo_In_l _ _ _ _ Hcast Hin) as (t & Ht & Hy).
    specialize (Hstored t Ht).
    destruct (findTask t s) as [T |] eqn:HT; [| congruence].
    exists t, T. split; [exact Hy |]. split; [exact HT |].
    now apply (Hown y t T). }
  destruct create.
  - unfold users_post in Hrun.
    apply tryCatch_completes in Hrun; [| throws | auto | assumption].
    apply bind_Ok in Hrun as (ids & s1 & Hnorm & Hrun).
    injection Hnorm as Hnorm <-.
    apply bind_Ok in Hrun as (fetched & s1 & Hexist & Hrun).
    apply bind_Ok in Hrun as (x1 & s2 & Hsave & Hrun).
    apply bind_Ok in Hrun as (x2 & s3 & Hsync & Hrun).
    apply bind_Ok in Hrun as (created & s4 & Hread & Hrun).
    apply gets_run in Hread as [-> ->]. injection Hrun as <- <-.
    exists ids, id. split; [exact Hnorm |]. split; [reflexivity |].
    destruct (Htail _ _ _ _ _ _ _ _ Hexist Hsave Hsync)
      as (Hdoc & _ & Hown).
    cbv zeta. simpl u_id. rewrite Hdoc. repeat split; assumption.
  - unfold users_put in Hrun.
    apply tryCatch_completes in Hrun; [| throws | auto | assumption].
    destruct (negb (ObjectId_isValid id)); [discriminate |].
    apply bind_Ok in Hrun as (found0 & s1 & Hfind & Hrun).
    apply User_findById_Ok in Hfind as [-> (oid & Hoid & ->)].
    destruct (findUser oid s) as [U0 |] eqn:HU0; [| discriminate].
    pose proof (findUser_id _ _ _ HU0) as Hid.
    apply bind_Ok in Hrun as (ids & s1 & Hnorm & Hrun).
    injection Hnorm as Hnorm <-.
    apply bind_Ok in Hrun as (fetched & s1 & Hexist & Hrun).
    apply bind_Ok in Hrun as (x1 & s2 & Hsave & Hrun).
    apply bind_Ok in Hrun as (x2 & s3 & Hsync & Hrun).
    apply bind_Ok in Hrun as (updated & s4 & Hread & Hrun).
    apply User_findById_Ok in Hread as [-> (oid' & Hoid' & ->)].
    injection Hrun as <- <-.
    rewrite Hid in Hsave, Hsync.
    destruct (Htail _ _ _ _ _ _ _ _ Hexist Hsave Hsync)
      as (Hdoc & Hids & Hown).
    rewrite Hids, userIds_putUser_stored in Hoid'
      by (simpl; apply pendingOf_exists; unfold pendingOf;
          rewrite HU0; discriminate).
    rewrite Hoid in Hoid'. injection Hoid' as <-.
    exists ids, oid. split; [exact Hnorm |]. split; [exact Hoid |].
    cbv zeta. rewrite Hdoc. repeat split; assumption.
Qed.

End UserWriteProperties.

Section TakenEmail.
Context {rt : Runtime}.
Local Open Scope monad_scope.

Lemma checkIds_bad_request :
  forall fieldName ids e,
    checkIds fieldName ids = Throw e ->
    statusOf (handleUserError e) = 400.
Proof.
  intros fieldName. induction ids as [| id ids IH]; simpl; intros e.
  - discriminate.
  - destruct (negb (ObjectId_isValid id)); [| apply IH].
    now intros [= <-].
Qed.

Lemma castIds_throws_cast :
  forall stored ids s e s1,
    castIds stored ids s = (Throw e, s1) -> e = CastError "_id".
Proof.
  intros stored. induction ids as [| id ids IH]; intros s e s1; simpl.
  - discriminate.
  - unfold bind at 1. rewrite castId_run.
    destruct (toObjectId (stored s) id); [| now intros [= <- _]].
    unfold bind.
    destruct (castIds stored ids s) as [[oids | e2] s3] eqn:Hrest;
      [discriminate |].
    intros [= <- _]. eapply IH. exact Hrest.
Qed.

Lemma ensureTasksExist_bad_request :
  forall ids s e s1,
    ensureTasksExist ids s = (Throw e, s1) ->
    s1 = s /\ statusOf (handleUserError e) = 400.
Proof.
  intros ids s e s1. unfold ensureTasksExist.
  destruct (length ids =? 0)%nat; [discriminate |].
  unfold bind at 1.
  pose proof (Task_findIn_store ids s) as Hstore.
  destruct (Task_findIn ids s) as [[found | e0] s2] eqn:Hfind;
    simpl in Hstore; subst s2.
  - destruct (negb (_ =? _)%nat); [| discriminate].
    intros [= <- <-]. split; reflexivity.
  - intros [= <- <-]. split; [reflexivity |].
    unfold Task_findIn, bind in Hfind.
    destruct (castIds taskIds ids s) as [[oids | e1] s2] eqn:Hcast;
      [discriminate |].
    injection Hfind as <- _.
    now rewrite (castIds_throws_cast _ _ _ _ _ Hcast).
Qed.

(** Up to the save, a user write throws nothing but errors answered with
    400 and leaves the store as it is; with a taken email it gets no
    further. *)
Lemma save_taken_email :
  forall (id : string) (body : UserBody) (s : Store) (A : Type)
         (rest : list string -> M A) R s',
    emailTaken (mkUser id (castString (ub_name body))
                       (castEmail (ub_email body)) [])
               (users s) = true ->
    (pendingTaskIds <-
       lift (normalizeIdArray (pendingTasksOf body) "pendingTasks") ;;
     ensureTasksExist pendingTaskIds ;;
     User_save (mkUser id (castString (ub_name body))
                       (castEmail (ub_email body)) pendingTaskIds) ;;
     rest pendingTaskIds) s = (R, s') ->
    s' = s /\ exists e, R = Throw e /\ statusOf (handleUserError e) = 400.
Proof.
  intros id body s A rest R s' Htaken H.
  unfold bind at 1, lift in H.
  destruct (normalizeIdArray _ _) as [ids | e] eqn:Hnorm.
  - unfold bind at 1 in H.
    destruct (ensureTasksExist ids s) as [[found | e] s1] eqn:Hexist.
    + apply ensureTasksExist_Ok in Hexist as [-> _].
      unfold bind at 1 in H. unfold User_save in H.
      rewrite (emailTaken_pending _ _ _ ids []), Htaken in H.
      destruct (negb (validUser _)); injection H as <- <-;
        (split; [reflexivity | eexists; split; reflexivity]).
    + injection H as <- <-.
      apply ensureTasksExist_bad_request in Hexist as [-> He].
      split; [reflexivity | eauto].
  - injection H as <- <-. rewrite normalizeIdArray_unfold in Hnorm.
    destruct (checkIds _ _) eqn:Hcheck; [discriminate |].
    injection Hnorm as <-. split; [reflexivity |].
    eexists. split; [reflexivity |].
    eapply checkIds_bad_request; eassumption.
Qed.

(** X23.  A user creation or update is refused and writes nothing when
    the email of the payload is held by a stored user other than the one
    the write is for (the new id of a creation; for an update, the
    ObjectId the text of the request is cast to): the store is as it
    was, whatever else the payload holds, and the answer is 400, or, for
    an update, 404 when no user is stored under that ObjectId. *)
Theorem user_writes_refuse_taken_email :
  forall (create : bool) (id : string) (body : UserBody) (s : Store),
    (forall oid,
        writtenId create id s = Some oid ->
        emailTaken (mkUser oid (castString (ub_name body))
                           (castEmail (ub_email body)) [])
                   (users s) = true) ->
    let run := if create then users_post id body s
               else users_put id body s in
    snd run = s
    /\ (statusOf (fst run) = 400
        \/ (create = false
            /\ (exists oid, toObjectId (userIds s) id = Some oid
                            /\ findUser oid s = None)
            /\ statusOf (fst run) = 404)).
Proof.
  intros create id body s Htaken run.
  assert (Hrun : forall (body0 : M Response) resp s',
             tryCatch body0 handleUserError s = (resp, s') ->
             exists R, body0 s = (R, s')
                       /\ resp = match R with
                                 | Ok r => r
                                 | Throw e => handleUserError e
                                 end).
  { intros body0 resp s'. unfold tryCatch.
    destruct (body0 s) as [[r | e] s1]; intros [= <- <-]; eauto. }
  destruct run as [resp s'] eqn:E. subst run. simpl. destruct create.
  - apply Hrun in E as (R & H & ->).
    apply save_taken_email in H as [-> (e & -> & He)];
      [| apply Htaken; reflexivity].
    auto.
  - apply Hrun in E as (R & H & ->).
    destruct (negb (ObjectId_isValid id));
      [injection H as <- <-; simpl; auto |].
    unfold bind at 1 in H.
    pose proof (User_findById_store id s) as Hstore.
    destruct (User_findById id s) as [[found | e] s1] eqn:Hfind;
      simpl in Hstore; subst s1.
    + apply User_findById_Ok in Hfind as [_ (oid & Hoid & ->)].
      destruct (findUser oid s) as [U0 |] eqn:HU0.
      * rewrite (findUser_id _ _ _ HU0) in H.
        apply save_taken_email in H as [-> (e & -> & He)];
          [| apply Htaken; exact Hoid].
        auto.
      * injection H as <- <-. simpl. split; [reflexivity |].
        right. split; [reflexivity |]. split; [eauto | reflexivity].
    + injection H as <- <-. split; [reflexivity |]. left.
      unfold User_findById, bind in Hfind. rewrite castId_run in Hfind.
      destruct (toObjectId (userIds s) id); [discriminate |].
      now injection Hfind as <-.
Qed.

End TakenEmail.

(** X23 at a creation with Alice's email, in capitals. *)
Lemma user_writes_refuse_taken_email_witness :
  users_post (rt := Demo.runtime) Demo.idT
    (mkUserBody (JStr "Carol") (JStr "ALICE@example.org") JUndefined)
    Demo.store
  = (Json 400 "Email already exists" DEmpty, Demo.store).
Proof.
  destruct (user_writes_refuse_taken_email (rt := Demo.runtime) true
              Demo.idT
              (mkUserBody (JStr "Carol") (JStr "ALICE@example.org")
                          JUndefined)
              Demo.store
              ltac:(intros oid [= <-]; reflexivity)) as [Hstore _].
  rewrite <- Hstore at 2. reflexivity.
Defined.

(** X22 at an update of Bob, under his id in upper case, that lists the
    task idC, which Alice owned, under its id in upper case. *)
Lemma user_writes_store_the_list_witness :
  let body := mkUserBody (JStr "Robert") (JStr "bob@example.org")
                         (JArr [JStr Demo.idC']) in
  let s' := snd (users_put (rt := Demo.runtime) Demo.idB' body
                   Demo.storeC) in
  findUser Demo.idB s'
  = Some (mkUser Demo.idB (Value "Robert") (Value "bob@example.org")
                 [Demo.idC'])
  /\ findTask Demo.idC s'
     = Some (Demo.task Demo.idC false Demo.idB (Value "Robert")).
Proof.
  intros body s'.
  destruct (user_writes_store_the_list (rt := Demo.runtime) false Demo.idB'
              body Demo.storeC
              (fst (users_put (rt := Demo.runtime) Demo.idB' body
                      Demo.storeC))
              s')
    as (ids & oid & Hnorm & Hoid & Hdoc & _ & Hown).
  - apply NoDup_cons; [simpl; tauto | apply NoDup_nil].
  - reflexivity.
  - reflexivity.
  - injection Hnorm as <-. injection Hoid as <-. split; [exact Hdoc |].
    destruct (Hown Demo.idC' (or_introl eq_refl)) as (t & T & Ht & HT & HT').
    injection Ht as <-. injection HT as <-. exact HT'.
Defined.
(* ===================================================================== *)
(** * Further properties: referential consistency *)
(* ===================================================================== *)

Lemma In_users_pendingOf :
  forall s U,
    NoDup (userIds s) -> In U (users s) ->
    pendingOf s (u_id U) = Some (pendingTasks U).
Proof.
  intros s U Hnd Hin. unfold pendingOf, findUser, hasUserId.
  now rewrite (In_find_has u_id (users s) U Hnd Hin).
Qed.

Lemma In_tasks_findTask :
  forall s T,
    NoDup (taskIds s) -> In T (tasks s) -> findTask (t_id T) s = Some T.
Proof.
  intros s T Hnd Hin. unfold findTask, hasTaskId.
  exact (In_find_has t_id (tasks s) T Hnd Hin).
Qed.

(** The invariant on documents found by id gives the invariant of the
    data model, in both its halves. *)
Lemma Inv_consistent :
  forall s, Inv s -> consistent s /\ unownedNowhere s.
Proof.
  intros s [Hu Ht Hempty _ _ Hcons].
  assert (Hc : consistent s).
  { intros U T HU HT.
    pose proof (In_users_pendingOf s U Hu HU) as HP.
    pose proof (In_tasks_findTask s T Ht HT) as HF.
    apply (Hcons _ _ _ _ HP HF). tauto. }
  split; [exact Hc |].
  intros T HT Hfree U HU Hin.
  apply (Hc U T HU HT) in Hin as [Hown Hopen].
  destruct Hfree as [Hnone | Hdone]; [| congruence].
  pose proof (In_users_pendingOf s U Hu HU) as HP.
  rewrite <- Hown, Hnone in HP. congruence.
Qed.

Lemma InvX_weaken :
  forall (hole hole' : string -> string -> Prop) s,
    (forall u t, hole u t -> hole' u t) -> InvX hole s -> InvX hole' s.
Proof.
  intros hole hole' s Hsub [H1 H2 H3 H4 H5 H6].
  constructor; try assumption.
  intros u P t T HP HT Hh. apply (H6 u P t T HP HT). auto.
Qed.

Lemma Inv_empty : Inv emptyStore.
Proof.
  constructor; simpl; try constructor; try discriminate.
Qed.

Lemma pendingOf_nonempty :
  forall hole s u P, InvX hole s -> pendingOf s u = Some P -> u <> "".
Proof.
  intros hole s u P HI HP ->. rewrite (inv_no_empty _ _ HI) in HP.
  discriminate.
Qed.

Lemma pendingOf_reassigned :
  forall oid taskId previous next doc s v,
    pendingOf s "" = None ->
    pendingOf (reassigned oid taskId previous next doc s) v
    = option_map (movedPending oid taskId previous next (completed doc) v)
                 (pendingOf s v).
Proof.
  intros oid taskId previous next doc s v Hempty.
  assert (Hd : forall t s0 w,
             pendingOf s0 "" = None ->
             pendingOf (detach t w s0) v
             = option_map (fun l => if v =? w then Coll.pull t l else l)
                          (pendingOf s0 v)
             /\ pendingOf (detach t w s0) "" = None).
  { intros t s0 w H0. destruct (String.eqb_spec w "") as [-> | Hw].
    - rewrite detach_empty. split; [| assumption].
      destruct (String.eqb_spec v "") as [-> | Hv].
      + now rewrite H0.
      + now destruct (pendingOf s0 v).
    - rewrite !pendingOf_detach by assumption. split.
      + destruct (v =? w); [reflexivity | now destruct (pendingOf s0 v)].
      + destruct (String.eqb_spec "" w); [congruence | assumption]. }
  assert (Ha : forall s0 w,
             pendingOf s0 "" = None ->
             pendingOf (attach taskId w s0) v
             = option_map (fun l => if v =? w then Coll.addToSet taskId l
                                    else l)
                          (pendingOf s0 v)).
  { intros s0 w H0. destruct (String.eqb_spec w "") as [-> | Hw].
    - rewrite attach_empty.
      destruct (String.eqb_spec v "") as [-> | Hv].
      + now rewrite H0.
      + now destruct (pendingOf s0 v).
    - rewrite pendingOf_attach by assumption.
      destruct (v =? w); [reflexivity | now destruct (pendingOf s0 v)]. }
  unfold reassigned, movedPending. cbv zeta.
  destruct (previous =? next) eqn:Hpn; cbn [negb].
  - rewrite andb_false_r.
    destruct (completed doc).
    + rewrite (proj1 (Hd taskId (putTask doc s) next Hempty)).
      rewrite pendingOf_putTask. now destruct (pendingOf s v).
    + rewrite (Ha (putTask doc s) next Hempty).
      rewrite pendingOf_putTask. now destruct (pendingOf s v).
  - rewrite andb_true_r.
    destruct (Hd oid s previous Hempty) as [Hd1 Hd1e].
    assert (Hput : forall d s0 w, pendingOf (putTask d s0) w = pendingOf s0 w)
      by reflexivity.
    destruct (Hd taskId (putTask doc (detach oid previous s)) previous)
      as [Hd2 Hd2e]; [now rewrite Hput |].
    destruct (completed doc).
    + rewrite (proj1 (Hd taskId _ next Hd2e)), Hd2, Hput, Hd1.
      destruct (pendingOf s v) as [l |]; simpl; [| reflexivity].
      destruct (v =? previous), (v =? next); reflexivity.
    + rewrite (Ha _ next Hd2e), Hd2, Hput, Hd1.
      destruct (pendingOf s v) as [l |]; simpl; [| reflexivity].
      destruct (v =? previous), (v =? next); reflexivity.
Qed.

Lemma movedPending_other :
  forall oid taskId previous next done v l x,
    x <> taskId -> x <> oid ->
    (In x (movedPending oid taskId previous next done v l) <-> In x l).
Proof.
  intros oid taskId previous next done v l x Hx Ho. unfold movedPending.
  destruct ((v =? previous) && negb (previous =? next)), (v =? next), done;
    rewrite ?pull_In, ?addToSet_In, ?pull_In, ?pull_In; tauto.
Qed.

Lemma movedPending_task :
  forall taskId previous next done v l,
    In taskId (movedPending taskId taskId previous next done v l)
    <-> (v = next /\ done = false)
        \/ (v <> next /\ v <> previous /\ In taskId l).
Proof.
  intros taskId previous next done v l. unfold movedPending.
  destruct (String.eqb_spec v previous) as [Hp | Hp];
    destruct (String.eqb_spec previous next) as [Hpn | Hpn];
    destruct (String.eqb_spec v next) as [Hn | Hn];
    destruct done; simpl;
    rewrite ?pull_In, ?addToSet_In, ?pull_In, ?pull_In;
    try (exfalso; congruence);
    intuition congruence.
Qed.

Lemma userIds_reassigned :
  forall oid taskId previous next doc s,
    userIds (reassigned oid taskId previous next doc s) = userIds s.
Proof.
  intros oid taskId previous next doc s. unfold reassigned.
  assert (Hput : forall d s0, userIds (putTask d s0) = userIds s0)
    by reflexivity.
  destruct (completed doc), (previous =? next);
    repeat (rewrite userIds_detach || rewrite userIds_attach || rewrite Hput);
    reflexivity.
Qed.

Lemma taskIds_reassigned :
  forall oid taskId previous next doc s,
    taskIds (reassigned oid taskId previous next doc s)
    = taskIds (putTask doc s).
Proof.
  intros oid taskId previous next doc s. unfold reassigned.
  assert (Hput : forall d s0 s1,
             tasks s1 = tasks s0 -> taskIds (putTask d s1) = taskIds (putTask d s0)).
  { intros d s0 s1 H. unfold taskIds, putTask. simpl. now rewrite H. }
  destruct (completed doc), (previous =? next);
    repeat (rewrite taskIds_detach || rewrite taskIds_attach);
    try reflexivity; apply Hput, tasks_detach.
Qed.

Section Preservation.
Context {rt : Runtime}.

Lemma toObjectId_canonical :
  forall stored id, canonical id -> toObjectId stored id = Some id.
Proof.
  intros stored id Hid. unfold toObjectId.
  destruct (Coll.includes stored id); [reflexivity | exact Hid].
Qed.

Lemma castTo_canonical :
  forall stored ids,
    (forall id, In id ids -> canonical id) -> castTo stored ids ids.
Proof.
  intros stored. induction ids as [| id ids IH]; intros H; constructor.
  - apply toObjectId_canonical, H. now left.
  - apply IH. intros x Hx. apply H. now right.
Qed.

(** The user a handler found for a canonical [assignedUser] is the user
    stored under that text. *)
Lemma canonical_owner_found :
  forall (body : TaskBody) (s : Store) (userDoc : option User),
    canonicalOwner body ->
    match userDoc with
    | Some U =>
        assignedUserOf body <> ""
        /\ toObjectId (userIds s) (assignedUserOf body) = Some (u_id U)
        /\ findUser (u_id U) s = Some U
    | None => assignedUserOf body = ""
    end ->
    ownerOf userDoc = assignedUserOf body
    /\ match userDoc with
       | Some U => findUser (assignedUserOf body) s = Some U
       | None => True
       end.
Proof.
  intros body s [U |] Hcanon Huser; simpl.
  - destruct Huser as (Hne & Hcast & HU).
    rewrite (toObjectId_canonical _ _ (Hcanon Hne)) in Hcast.
    injection Hcast as Hcast. rewrite Hcast. split; [reflexivity | exact HU].
  - split; [now rewrite Huser | exact I].
Qed.

(** PUT /tasks/:id keeps the invariant. *)
Lemma tasks_put_Inv :
  forall taskId body s resp s',
    Inv s ->
    canonical taskId -> canonicalOwner body ->
    tasks_put taskId body s = (resp, s') ->
    completes resp = true ->
    Inv s'.
Proof.
  intros taskId body s resp s' HI Hid Hcanon Hrun Hc.
  destruct (tasks_put_ok _ _ _ _ _ Hrun Hc)
    as (oid & T0 & dl & userDoc & Hoid & HT0 & _ & Huser & _ & -> & _).
  rewrite (toObjectId_canonical _ _ Hid) in Hoid. injection Hoid as <-.
  destruct (canonical_owner_found body s userDoc Hcanon Huser)
    as [Hnext Hfound].
  rewrite Hnext.
  set (doc := updatedTask taskId body dl userDoc).
  set (A := assignedUser T0). set (B := assignedUserOf body).
  assert (Hdoc_id : t_id doc = taskId) by reflexivity.
  assert (Hdoc_owner : assignedUser doc = B).
  { subst doc B. rewrite <- Hnext. now destruct userDoc. }
  pose proof (inv_no_empty _ _ HI) as Hempty.
  assert (HP : forall v, pendingOf (reassigned taskId taskId A B doc s) v
                         = option_map
                             (movedPending taskId taskId A B (completed doc) v)
                             (pendingOf s v))
    by (intros v; now apply pendingOf_reassigned).
  assert (HF : forall x, findTask x (reassigned taskId taskId A B doc s)
                         = if x =? taskId then Some doc else findTask x s)
    by (intros x; now rewrite findTask_reassigned).
  constructor.
  - rewrite userIds_reassigned. apply HI.
  - rewrite taskIds_reassigned. apply taskIds_putTask_NoDup, HI.
  - now rewrite HP, Hempty.
  - intros x T. rewrite HF, HP.
    destruct (String.eqb_spec x taskId) as [-> | Hx].
    + intros [= <-]. rewrite Hdoc_owner. intros HB.
      destruct userDoc as [U |];
        [| destruct HB; subst B; now rewrite <- Hnext].
      fold B in Hfound. unfold pendingOf. rewrite Hfound. discriminate.
    + intros HT Hown.
      pose proof (inv_owner _ _ HI x T HT Hown) as Hex.
      now destruct (pendingOf s (assignedUser T)).
  - intros u P id. rewrite HP, HF.
    destruct (pendingOf s u) as [P0 |] eqn:HP0; [| discriminate].
    intros [= <-] Hin.
    destruct (String.eqb_spec id taskId) as [-> | Hid']; [discriminate |].
    apply movedPending_other in Hin; [| assumption | assumption].
    exact (inv_pending _ _ HI u P0 id HP0 Hin).
  - intros u P x T. rewrite HP, HF.
    destruct (pendingOf s u) as [P0 |] eqn:HP0; [| discriminate].
    intros [= <-] HT _.
    destruct (String.eqb_spec x taskId) as [-> | Hx].
    + injection HT as <-. rewrite movedPending_task, Hdoc_owner.
      pose proof (inv_consistent _ _ HI u P0 taskId T0 HP0 HT0) as H0.
      fold A in H0. split.
      * intros [<- Hopen]. now left.
      * intros [[-> Hopen] | (Hn & Hp & Hin)]; [tauto |].
        apply H0 in Hin; [| tauto]. destruct Hin as [Hown _]. congruence.
    + rewrite movedPending_other by assumption.
      apply (inv_consistent _ _ HI u P0 x T HP0 HT). tauto.
Qed.

(** POST /tasks keeps the invariant. *)
Lemma tasks_post_Inv :
  forall newId body s resp s',
    Inv s ->
    canonicalOwner body ->
    newId <> "" /\ ~ In newId (taskIds s) ->
    tasks_post newId body s = (resp, s') ->
    completes resp = true ->
    Inv s'.
Proof.
  intros newId body s resp s' HI Hcanon [_ Hfresh] Hrun Hc.
  destruct (tasks_post_ok _ _ _ _ _ Hrun Hc)
    as (dl & userDoc & Huser & Hs').
  cbv zeta in Hs'. destruct Hs' as (_ & Hs' & _).
  destruct (canonical_owner_found body s userDoc Hcanon Huser)
    as [Hnext Hfound].
  rewrite Hnext in Hs'.
  set (doc := updatedTask newId body dl userDoc) in *.
  set (B := assignedUserOf body) in *.
  assert (Hdoc_owner : assignedUser doc = B).
  { subst doc B. rewrite <- Hnext. now destruct userDoc. }
  pose proof (inv_no_empty _ _ HI) as Hempty.
  assert (Hnew : findTask newId s = None).
  { destruct (findTask newId s) eqn:E; [| reflexivity].
    exfalso. apply Hfresh. apply findTask_exists. congruence. }
  assert (HF : forall x, findTask x s'
                         = if x =? newId then Some doc else findTask x s).
  { intros x. subst s'. destruct (completed doc);
      rewrite ?findTask_attach; apply findTask_putTask. }
  assert (HP : forall v,
             pendingOf s' v
             = option_map (fun l => if (v =? B) && negb (completed doc)
                                    then Coll.addToSet newId l else l)
                          (pendingOf s v)).
  { intros v. subst s'. destruct (completed doc).
    - rewrite andb_false_r, pendingOf_putTask. now destruct (pendingOf s v).
    - rewrite andb_true_r.
      destruct (String.eqb_spec B "") as [E | E].
      + rewrite E, attach_empty, pendingOf_putTask.
        destruct (String.eqb_spec v "") as [-> | Hv];
          [now rewrite Hempty | now destruct (pendingOf s v)].
      + rewrite pendingOf_attach, pendingOf_putTask by assumption.
        destruct (v =? B); [reflexivity | now destruct (pendingOf s v)]. }
  assert (Hmem : forall (c : bool) l x,
             In x (if c then Coll.addToSet newId l else l)
             <-> In x l \/ (c = true /\ x = newId)).
  { intros c l x. destruct c; [rewrite addToSet_In |]; intuition congruence. }
  constructor.
  - replace (userIds s') with (userIds s); [apply HI |].
    subst s'. destruct (completed doc); rewrite ?userIds_attach; reflexivity.
  - replace (taskIds s') with (taskIds (putTask doc s)).
    + apply taskIds_putTask_NoDup, HI.
    + subst s'. destruct (completed doc); rewrite ?taskIds_attach;
        reflexivity.
  - now rewrite HP, Hempty.
  - intros x T. rewrite HF, HP.
    destruct (String.eqb_spec x newId) as [-> | Hx].
    + intros [= <-]. rewrite Hdoc_owner. intros HB.
      destruct userDoc as [U |];
        [| destruct HB; subst B; now rewrite <- Hnext].
      fold B in Hfound. unfold pendingOf. rewrite Hfound. discriminate.
    + intros HT Hown.
      pose proof (inv_owner _ _ HI x T HT Hown) as Hex.
      now destruct (pendingOf s (assignedUser T)).
  - intros u P id. rewrite HP, HF.
    destruct (pendingOf s u) as [P0 |] eqn:HP0; [| discriminate].
    cbn [option_map]. cbv beta. intros [= <-].
    rewrite Hmem. intros [Hin | [_ ->]].
    + destruct (String.eqb_spec id newId) as [-> | Hid]; [discriminate |].
      exact (inv_pending _ _ HI u P0 id HP0 Hin).
    + rewrite String.eqb_refl. discriminate.
  - intros u P x T. rewrite HP, HF.
    destruct (pendingOf s u) as [P0 |] eqn:HP0; [| discriminate].
    cbn [option_map]. cbv beta. intros [= <-] HT _. rewrite Hmem.
    assert (Hnot : ~ In newId P0).
    { intros Hin. apply (inv_pending _ _ HI u P0 newId HP0 Hin), Hnew. }
    destruct (String.eqb_spec x newId) as [-> | Hx].
    + injection HT as <-. rewrite Hdoc_owner.
      rewrite andb_true_iff, negb_true_iff, String.eqb_eq.
      intuition congruence.
    + pose proof (inv_consistent _ _ HI u P0 x T HP0 HT) as H0.
      tauto.
Qed.

(** DELETE /tasks/:id keeps the invariant. *)
Lemma tasks_delete_Inv :
  forall taskId s resp s',
    Inv s ->
    canonical taskId ->
    tasks_delete taskId s = (resp, s') ->
    completes resp = true ->
    Inv s'.
Proof.
  intros taskId s resp s' HI Hid Hrun Hc.
  destruct (tasks_delete_ok _ _ _ _ Hrun Hc)
    as (oid & T0 & Hoid & HT0 & -> & _).
  rewrite (toObjectId_canonical _ _ Hid) in Hoid. injection Hoid as <-.
  set (A := assignedUser T0).
  pose proof (inv_no_empty _ _ HI) as Hempty.
  pose proof (inv_tasks _ _ HI) as Hnd.
  assert (HF : forall x, findTask x (detach taskId A (dropTask taskId s))
                         = if x =? taskId then None else findTask x s).
  { intros x. rewrite findTask_detach. now apply findTask_dropTask. }
  assert (HP : forall v,
             pendingOf (detach taskId A (dropTask taskId s)) v
             = option_map (fun l => if v =? A then Coll.pull taskId l else l)
                          (pendingOf s v)).
  { intros v. destruct (String.eqb_spec A "") as [E | E].
    - rewrite E, detach_empty. change (pendingOf (dropTask taskId s) v)
        with (pendingOf s v).
      destruct (String.eqb_spec v "") as [-> | Hv];
        [now rewrite Hempty | now destruct (pendingOf s v)].
    - rewrite pendingOf_detach by assumption.
      change (pendingOf (dropTask taskId s) v) with (pendingOf s v).
      destruct (v =? A); [reflexivity | now destruct (pendingOf s v)]. }
  constructor.
  - rewrite userIds_detach. apply HI.
  - rewrite taskIds_detach. apply (keys_deleteOne_NoDup t_id), HI.
  - now rewrite HP, Hempty.
  - intros x T. rewrite HF, HP.
    destruct (x =? taskId); [discriminate |].
    intros HT Hown.
    pose proof (inv_owner _ _ HI x T HT Hown) as Hex.
    now destruct (pendingOf s (assignedUser T)).
  - intros u P id. rewrite HP, HF.
    destruct (pendingOf s u) as [P0 |] eqn:HP0; [| discriminate].
    intros [= <-] Hin.
    assert (Hin0 : In id P0 /\ id <> taskId).
    { destruct (String.eqb_spec u A) as [-> | Hu].
      - now apply pull_In in Hin.
      - split; [assumption |]. intros ->.
        apply (inv_consistent _ _ HI u P0 taskId T0 HP0 HT0) in Hin;
          [| tauto].
        destruct Hin as [Hown _]. subst A. congruence. }
    destruct Hin0 as [Hin0 Hne].
    destruct (String.eqb_spec id taskId); [congruence |].
    exact (inv_pending _ _ HI u P0 id HP0 Hin0).
  - intros u P x T. rewrite HP, HF.
    destruct (pendingOf s u) as [P0 |] eqn:HP0; [| discriminate].
    intros [= <-].
    destruct (String.eqb_spec x taskId) as [-> | Hx]; [discriminate |].
    intros HT _.
    assert (Hsame : In x (if u =? A then Coll.pull taskId P0 else P0)
                    <-> In x P0).
    { destruct (u =? A); [| tauto]. rewrite pull_In. tauto. }
    rewrite Hsame. apply (inv_consistent _ _ HI u P0 x T HP0 HT). tauto.
Qed.

(** DELETE /users/:id keeps the invariant. *)
Lemma users_delete_Inv :
  forall userId s resp s',
    Inv s ->
    canonical userId ->
    users_delete userId s = (resp, s') ->
    completes resp = true ->
    Inv s'.
Proof.
  intros userId s resp s' HI Hid Hrun Hc.
  destruct (users_delete_ok _ _ _ _ Hrun Hc)
    as (oid & U0 & Hoid & HU0 & -> & _).
  rewrite (toObjectId_canonical _ _ Hid) in Hoid. injection Hoid as <-.
  set (p := fun t : Task => assignedUser t =? userId).
  pose proof (inv_no_empty _ _ HI) as Hempty.
  pose proof (inv_users _ _ HI) as Hnd.
  assert (HF : forall x, findTask x (dropUser userId (clearOwners p s))
                         = option_map
                             (fun T => if p T then setOwner "" unassigned T
                                       else T)
                             (findTask x s)).
  { intros x. apply findTask_clearOwners. }
  assert (HP : forall v, pendingOf (dropUser userId (clearOwners p s)) v
                         = if v =? userId then None else pendingOf s v).
  { intros v. now rewrite pendingOf_dropUser. }
  constructor.
  - apply (keys_deleteOne_NoDup u_id), HI.
  - change (taskIds (dropUser userId (clearOwners p s)))
      with (taskIds (clearOwners p s)).
    rewrite taskIds_clearOwners. apply HI.
  - rewrite HP. now destruct ("" =? userId).
  - intros x T. rewrite HF, HP.
    destruct (findTask x s) as [T1 |] eqn:HT1; [| discriminate].
    intros [= <-]. subst p. cbv beta.
    destruct (String.eqb_spec (assignedUser T1) userId) as [E | E]; simpl.
    + congruence.
    + intros Hown. destruct (String.eqb_spec (assignedUser T1) userId);
        [congruence |].
      exact (inv_owner _ _ HI x T1 HT1 Hown).
  - intros u P id. rewrite HP, HF.
    destruct (u =? userId); [discriminate |].
    intros HP0 Hin.
    pose proof (inv_pending _ _ HI u P id HP0 Hin) as Hex.
    now destruct (findTask id s).
  - intros u P x T. rewrite HP, HF.
    destruct (String.eqb_spec u userId) as [-> | Hu]; [discriminate |].
    intros HP0.
    destruct (findTask x s) as [T1 |] eqn:HT1; [| discriminate].
    intros [= <-] _.
    pose proof (inv_consistent _ _ HI u P x T1 HP0 HT1) as H0.
    subst p. cbv beta.
    destruct (String.eqb_spec (assignedUser T1) userId) as [E | E].
    + simpl. pose proof (pendingOf_nonempty _ _ _ _ HI HP0) as Hne.
      split; [intros [H _]; congruence |].
      intros Hin. apply H0 in Hin; [| tauto]. destruct Hin. congruence.
    + apply H0. tauto.
Qed.

End Preservation.

(** ** The resync keeps the invariant *)

(** The loop of the resync: consistency may fail only for this user and
    the tasks not yet visited; each turn settles one task. *)
Lemma ownLoop_Inv :
  forall (u : string) (name : Field string) (N : list string),
    u <> "" ->
    forall (fetched : list Task) (s : Store),
      InvX (fun v x => v = u /\ In x (map t_id fetched)) s ->
      NoDup (map t_id fetched) ->
      (forall T, In T fetched ->
                 findTask (t_id T) s = Some T /\ In (t_id T) N) ->
      pendingOf s u = Some N ->
      Inv (fold_left (ownStep u name) fetched s).
Proof.
  intros u name N Hu. induction fetched as [| T rest IH];
    intros s HI Hnd Hsnap HN.
  - simpl. eapply InvX_weaken; [| exact HI]. simpl. tauto.
  - simpl. inversion Hnd as [| ? ? Hfirst Hnd']; subst.
    destruct (Hsnap T (or_introl eq_refl)) as [HT HTN].
    set (t := t_id T) in *. set (w := assignedUser T) in *.
    set (cond := negb (w =? "") && negb (w =? u)).
    assert (HP1 : forall v,
               pendingOf (ownStep u name s T) v
               = if (v =? w) && cond
                 then option_map (Coll.pull t) (pendingOf s v)
                 else pendingOf s v)
      by (intros v; apply pendingOf_ownStep).
    assert (HF1 : forall x,
               findTask x (ownStep u name s T)
               = if x =? t then Some (owned u name T) else findTask x s)
      by (intros x; apply findTask_ownStep).
    assert (Hcond_u : (u =? w) && cond = false).
    { subst cond. destruct (String.eqb_spec u w) as [<- | Hne];
        [| reflexivity].
      rewrite String.eqb_refl. simpl. apply andb_false_r. }
    assert (HPsub : forall v P',
               pendingOf (ownStep u name s T) v = Some P' ->
               exists P, pendingOf s v = Some P
                         /\ (forall x, In x P' -> In x P)
                         /\ (forall x, x <> t -> In x P -> In x P')
                         /\ ((v =? w) && cond = true -> ~ In t P')
                         /\ ((v =? w) && cond = false -> P' = P)).
    { intros v P'. rewrite HP1.
      destruct ((v =? w) && cond).
      - destruct (pendingOf s v) as [P |]; [| discriminate].
        intros [= <-]. exists P. split; [reflexivity |].
        repeat split; try discriminate.
        + intros x Hx. now apply pull_In in Hx.
        + intros x Hx Hin. now apply pull_In.
        + intros _ Hin. apply pull_In in Hin. tauto.
      - intros HPv. exists P'. split; [assumption |].
        repeat split; auto. discriminate. }
    apply IH; try assumption.
    + constructor.
      * rewrite userIds_ownStep. apply HI.
      * rewrite taskIds_ownStep. apply taskIds_putTask_NoDup, HI.
      * rewrite HP1.
        replace (("" =? w) && cond) with false; [apply HI |].
        subst cond. destruct (String.eqb_spec "" w) as [<- | Hne];
          reflexivity.
      * intros x T'. rewrite HF1.
        destruct (String.eqb_spec x t) as [-> | Hx].
        -- intros [= <-] _. rewrite owned_owner, HP1, Hcond_u, HN.
           discriminate.
        -- intros HT' Hown.
           pose proof (inv_owner _ _ HI x T' HT' Hown) as Hex.
           rewrite HP1.
           destruct ((assignedUser T' =? w) && cond); [| assumption].
           now destruct (pendingOf s (assignedUser T')).
      * intros v P' id HPv Hin. rewrite HF1.
        destruct (id =? t); [discriminate |].
        destruct (HPsub v P' HPv) as (P & HP & Hsub & _).
        exact (inv_pending _ _ HI v P id HP (Hsub id Hin)).
      * intros v P' x T' HPv. rewrite HF1. intros HT' Hhole.
        destruct (HPsub v P' HPv) as (P & HP & Hsub & Hsup & Hcut & Hsame).
        pose proof (pendingOf_nonempty _ _ _ _ HI HP) as Hv.
        destruct (String.eqb_spec x t) as [-> | Hx].
        -- injection HT' as <-. rewrite owned_owner, owned_completed.
           destruct (String.eqb_spec v u) as [-> | Hvu].
           ++ rewrite (Hsame Hcond_u), HN in *.
              injection HP as <-. tauto.
           ++ split; [intros [E _]; congruence |].
              intros Hin. exfalso.
              destruct ((v =? w) && cond) eqn:Hc.
              ** exact (Hcut eq_refl Hin).
              ** rewrite (Hsame eq_refl) in Hin.
                 apply (inv_consistent _ _ HI v P t T HP HT) in Hin;
                   [| simpl; tauto].
                 destruct Hin as [Hown _]. fold w in Hown. subst v.
                 rewrite String.eqb_refl in Hc. subst cond. simpl in Hc.
                 apply andb_false_iff in Hc as [Hc | Hc];
                   apply negb_false_iff, String.eqb_eq in Hc; congruence.
        -- pose proof (inv_consistent _ _ HI v P x T' HP HT') as H0.
           assert (Hmem : In x P' <-> In x P)
             by (split; [apply Hsub | apply Hsup; assumption]).
           rewrite Hmem. apply H0. simpl. intros [-> [E | Hin]].
           ++ apply Hx. symmetry. exact E.
           ++ apply Hhole. tauto.
    + intros T' HT'. destruct (Hsnap T' (or_intror HT')) as [HF HN'].
      split; [| assumption]. rewrite HF1.
      destruct (String.eqb_spec (t_id T') t) as [E | E]; [| assumption].
      exfalso. apply Hfirst. fold t. rewrite <- E. now apply in_map.
    + now rewrite HP1, Hcond_u.
Qed.


Section ResyncInvariant.
Context {rt : Runtime}.

(** A user write followed by the resync keeps the invariant: [U] is the
    user document as saved, [previous] holds every task that pointed at
    the user and was not completed; the entries of both lists are ids of
    stored tasks, as the store writes them. *)
Lemma resync_Inv :
  forall (s : Store) (U : User) (previous : list string) x s',
    Inv s ->
    u_id U <> "" ->
    (forall t T, findTask t s = Some T -> assignedUser T = u_id U ->
                 completed T = false -> In t previous) ->
    (forall id, In id previous -> findTask id s <> None) ->
    (forall id, In id (pendingTasks U) -> findTask id s <> None) ->
    syncUserPendingTasks U previous (putUser U s) = (Ok x, s') ->
    Inv s'.
Proof.
  intros s U previous x s' HI Hu Hprev Hstored Hexist Hrun.
  apply syncUserPendingTasks_Ok in Hrun. cbv zeta in Hrun.
  destruct Hrun as (roids & coids & Hr & Hcur & ->).
  change (taskIds (putUser U s)) with (taskIds s) in Hr, Hcur.
  assert (Hroids : roids
                   = filter (fun id => negb (Coll.includes (pendingTasks U) id))
                            previous).
  { eapply castTo_fun; [exact Hr |]. apply castTo_stored.
    intros id Hin. apply filter_In in Hin as [Hin _].
    apply findTask_exists. now apply Hstored. }
  assert (Hcoids : coids = pendingTasks U).
  { eapply castTo_fun; [exact Hcur |]. apply castTo_stored.
    intros id Hin. apply findTask_exists. now apply Hexist. }
  subst roids coids. clear Hr Hcur.
  set (u := u_id U) in *. set (N := pendingTasks U) in *.
  set (removed := filter (fun id => negb (Coll.includes N id)) previous).
  set (p := fun t : Task => Coll.includes removed (t_id t)
                            && (assignedUser t =? u)).
  set (s2 := clearOwners p (putUser U s)).
  set (fetched := filter (fun t => Coll.includes N (t_id t)) (tasks s2)).
  assert (HP2 : forall v, pendingOf s2 v
                          = if v =? u then Some N else pendingOf s v).
  { intros v. subst s2.
    change (pendingOf (clearOwners p (putUser U s)) v)
      with (pendingOf (putUser U s) v).
    apply pendingOf_putUser. }
  assert (HF2 : forall x0, findTask x0 s2
                           = option_map
                               (fun T => if p T then setOwner "" unassigned T
                                         else T)
                               (findTask x0 s)).
  { intros x0. subst s2. rewrite findTask_clearOwners. reflexivity. }
  assert (Hnd2 : NoDup (taskIds s2)).
  { subst s2. rewrite taskIds_clearOwners. apply HI. }
  assert (Hfetched : forall x0 T,
             findTask x0 s2 = Some T ->
             (In x0 (map t_id fetched) <-> In x0 N)).
  { intros x0 T HT. pose proof (findTask_id _ _ _ HT) as Hid.
    subst fetched. rewrite in_map_iff. split.
    - intros (T' & HT' & Hin). apply filter_In in Hin as [_ Hin].
      apply includes_In in Hin. congruence.
    - intros Hin. exists T. split; [assumption |].
      apply filter_In. split.
      + eapply (find_has_In t_id). exact HT.
      + apply includes_In. now rewrite Hid. }
  apply ownLoop_Inv with (N := N); try assumption.
  - constructor.
    + subst s2. change (userIds (clearOwners p (putUser U s)))
        with (userIds (putUser U s)).
      apply userIds_putUser_NoDup, HI.
    + exact Hnd2.
    + rewrite HP2. destruct (String.eqb_spec "" u); [congruence | apply HI].
    + intros x0 T2. rewrite HF2, HP2.
      destruct (findTask x0 s) as [T |] eqn:HT; [| discriminate].
      intros [= <-]. destruct (p T); [simpl; congruence |].
      intros Hown. destruct (assignedUser T =? u); [discriminate |].
      exact (inv_owner _ _ HI x0 T HT Hown).
    + intros v P id. rewrite HP2, HF2.
      destruct (String.eqb_spec v u) as [-> | Hv].
      * intros [= <-] Hin. pose proof (Hexist id Hin) as Hex.
        now destruct (findTask id s).
      * intros HP Hin. pose proof (inv_pending _ _ HI v P id HP Hin) as Hex.
        now destruct (findTask id s).
    + intros v P x0 T2 HPv HT2 Hhole.
      rewrite (Hfetched x0 T2 HT2) in Hhole.
      rewrite HP2 in HPv. rewrite HF2 in HT2.
      destruct (findTask x0 s) as [T |] eqn:HT; [| discriminate].
      injection HT2 as <-.
      pose proof (findTask_id _ _ _ HT) as Hid.
      destruct (String.eqb_spec v u) as [-> | Hv].
      * injection HPv as <-.
        assert (HxN : ~ In x0 N) by tauto.
        split; [| tauto]. intros [Hown Hopen]. exfalso.
        destruct (p T) eqn:Hp; [simpl in Hown; congruence |].
        pose proof (Hprev x0 T HT Hown Hopen) as Hin.
        subst p. cbv beta in Hp. rewrite Hown, String.eqb_refl in Hp.
        rewrite andb_true_r in Hp. apply includes_false in Hp.
        apply Hp. subst removed. apply filter_In. rewrite Hid.
        split; [assumption |]. apply negb_true_iff. now apply includes_false.
      * pose proof (inv_consistent _ _ HI v P x0 T HPv HT) as H0.
        pose proof (pendingOf_nonempty _ _ _ _ HI HPv) as Hne.
        destruct (p T) eqn:Hp; [| tauto].
        subst p. cbv beta in Hp. apply andb_true_iff in Hp as [_ Hp].
        apply String.eqb_eq in Hp. simpl.
        split; [intros [E _]; congruence |].
        intros Hin. apply H0 in Hin; [| tauto]. destruct Hin. congruence.
  - subst fetched. apply NoDup_map_filter. exact Hnd2.
  - intros T HT. subst fetched. apply filter_In in HT as [HT HN].
    split; [now apply In_tasks_findTask | now apply includes_In].
  - rewrite HP2. now rewrite String.eqb_refl.
Qed.

(** PUT /users/:id keeps the invariant. *)
Lemma users_put_Inv :
  forall userId body s resp s',
    Inv s ->
    canonical userId -> canonicalList body ->
    users_put userId body s = (resp, s') ->
    completes resp = true ->
    Inv s'.
Proof.
  intros userId body s resp s' HI Hid Hcanon Hrun Hc.
  unfold users_put in Hrun.
  apply tryCatch_completes in Hrun; [| throws | auto | assumption].
  destruct (negb (ObjectId_isValid userId)); [discriminate |].
  apply bind_Ok in Hrun as (found & s1 & Hfind & Hrun).
  apply User_findById_Ok in Hfind as [-> (oid & Hoid & ->)].
  rewrite (toObjectId_canonical _ _ Hid) in Hoid. injection Hoid as <-.
  destruct (findUser userId s) as [U0 |] eqn:HU0; [| discriminate].
  apply bind_Ok in Hrun as (N & s1 & Hnorm & Hrun).
  injection Hnorm as Hnorm <-.
  apply bind_Ok in Hrun as (fetched & s1 & Hexist & Hrun).
  apply ensureTasksExist_Ok in Hexist as [-> (oids & Hcast & Hexist)].
  rewrite <- (castTo_fun _ _ _ _
                (castTo_canonical (taskIds s) N (fun id => Hcanon N id Hnorm))
                Hcast) in Hexist.
  destruct (Hexist (inv_tasks _ _ HI)) as [_ Hall].
  apply bind_Ok in Hrun as (x1 & s1 & Hsave & Hrun).
  apply User_save_Ok in Hsave as (_ & _ & ->).
  apply bind_Ok in Hrun as (x2 & s2 & Hsync & Hrun).
  apply bind_Ok in Hrun as (updated & s3 & Hread & Hrun).
  apply User_findById_Ok in Hread as [-> _]. injection Hrun as _ <-.
  pose proof (findUser_id _ _ _ HU0) as HidU.
  assert (HP0 : pendingOf s userId = Some (pendingTasks U0))
    by (unfold pendingOf; now rewrite HU0).
  eapply resync_Inv; [exact HI | | | | | exact Hsync]; simpl.
  - rewrite HidU. eapply pendingOf_nonempty; eassumption.
  - intros t T HT Hown Hopen. rewrite HidU in Hown.
    apply (inv_consistent _ _ HI userId _ t T HP0 HT); tauto.
  - intros id Hin. exact (inv_pending _ _ HI userId _ id HP0 Hin).
  - exact Hall.
Qed.

(** POST /users keeps the invariant. *)
Lemma users_post_Inv :
  forall newId body s resp s',
    Inv s ->
    canonicalList body ->
    newId <> "" /\ ~ In newId (userIds s) ->
    users_post newId body s = (resp, s') ->
    completes resp = true ->
    Inv s'.
Proof.
  intros newId body s resp s' HI Hcanon [Hne Hfresh] Hrun Hc.
  unfold users_post in Hrun.
  apply tryCatch_completes in Hrun; [| throws | auto | assumption].
  apply bind_Ok in Hrun as (N & s1 & Hnorm & Hrun).
  injection Hnorm as Hnorm <-.
  apply bind_Ok in Hrun as (fetched & s1 & Hexist & Hrun).
  apply ensureTasksExist_Ok in Hexist as [-> (oids & Hcast & Hexist)].
  rewrite <- (castTo_fun _ _ _ _
                (castTo_canonical (taskIds s) N (fun id => Hcanon N id Hnorm))
                Hcast) in Hexist.
  destruct (Hexist (inv_tasks _ _ HI)) as [_ Hall].
  apply bind_Ok in Hrun as (x1 & s1 & Hsave & Hrun).
  apply User_save_Ok in Hsave as (_ & _ & ->).
  apply bind_Ok in Hrun as (x2 & s2 & Hsync & Hrun).
  apply bind_Ok in Hrun as (created & s3 & Hread & Hrun).
  apply gets_run in Hread as [-> ->]. injection Hrun as _ <-.
  eapply resync_Inv; [exact HI | | | | | exact Hsync]; simpl.
  - assumption.
  - intros t T HT Hown Hopen. exfalso. apply Hfresh.
    apply pendingOf_exists. rewrite <- Hown.
    apply (inv_owner _ _ HI t T HT). congruence.
  - intros id [].
  - exact Hall.
Qed.

(** Every request that completes and names documents by canonical texts
    keeps the invariant. *)
Lemma handle_Inv :
  forall r s,
    Inv s -> canonicalRequest r -> freshId r s ->
    completes (fst (handle r s)) = true ->
    Inv (snd (handle r s)).
Proof.
  intros r s HI Hcanon Hfresh Hc.
  destruct (handle r s) as [resp s'] eqn:Hrun. simpl in *.
  destruct r; simpl in Hrun, Hfresh, Hcanon.
  - eapply users_post_Inv; eassumption.
  - destruct Hcanon. eapply users_put_Inv; eassumption.
  - eapply users_delete_Inv; eassumption.
  - eapply tasks_post_Inv; eassumption.
  - destruct Hcanon. eapply tasks_put_Inv; eassumption.
  - eapply tasks_delete_Inv; eassumption.
Qed.

Lemma reachableCanonical_Inv :
  forall s, reachableCanonical s -> Inv s.
Proof.
  intros s H. induction H as [| s r _ IH Hcanon Hfresh Hc].
  - apply Inv_empty.
  - now apply handle_Inv.
Qed.

(** X24.  Referential consistency, for requests that write ids as the
    store writes them.  In every store reached from the empty one by user
    and task creations, updates and deletions that complete and that
    name every user and task by the canonical text of its id (in the
    path, in [assignedUser], in [pendingTasks]), for every user and every
    task: the task points at the user and is not completed exactly when
    the user's pending list holds the task's id; and a task with no
    owner, or completed, is in no user's pending list. *)
Theorem referential_consistency_canonical :
  forall s : Store, reachableCanonical s -> consistent s /\ unownedNowhere s.
Proof.
  intros s H. apply Inv_consistent, reachableCanonical_Inv, H.
Qed.

End ResyncInvariant.

(** X24 at a store: Alice is created, then a task assigned to her. *)
Lemma referential_consistency_canonical_witness :
  let s :=
    snd (handle (rt := Demo.runtime) createTask
           (snd (handle (rt := Demo.runtime) createAlice emptyStore))) in
  consistent s /\ unownedNowhere s.
Proof.
  apply (referential_consistency_canonical (rt := Demo.runtime)).
  apply (canon_step (rt := Demo.runtime)).
  - apply (canon_step (rt := Demo.runtime)).
    + apply canon_empty.
    + intros ids id [= <-] [].
    + split; [discriminate | simpl; tauto].
    + reflexivity.
  - intros _. reflexivity.
  - split; [discriminate | simpl; tauto].
  - reflexivity.
Defined.

(* ===================================================================== *)
(** * Further properties: the texts of owners *)
(* ===================================================================== *)

Lemma In_updateOne :
  forall (D : Type) (p : D -> bool) (f : D -> D) (l : list D) (d : D),
    In d (Coll.updateOne p f l) ->
    In d l \/ exists d0, In d0 l /\ d = f d0.
Proof.
  intros D p f. induction l as [| a l IH]; simpl; intros d; [tauto |].
  destruct (p a); simpl.
  - intros [<- | Hin]; [right; eauto | tauto].
  - intros [<- | Hin]; [tauto |].
    destruct (IH d Hin) as [H | (d0 & H & ->)]; [tauto | right; eauto].
Qed.

Lemma In_deleteOne :
  forall (D : Type) (p : D -> bool) (l : list D) (d : D),
    In d (Coll.deleteOne p l) -> In d l.
Proof.
  intros D p. induction l as [| a l IH]; simpl; intros d; [tauto |].
  destruct (p a); simpl; [tauto |].
  intros [<- | Hin]; [tauto | right; auto].
Qed.

Lemma In_save :
  forall (D : Type) (p : D -> bool) (doc : D) (l : list D) (d : D),
    In d (Coll.save p doc l) -> d = doc \/ In d l.
Proof.
  intros D p doc l d. unfold Coll.save. destruct (existsb p l).
  - intros Hin. apply In_updateOne in Hin as [H | (d0 & _ & ->)]; tauto.
  - intros Hin. apply in_app_iff in Hin as [H | [<- | []]]; tauto.
Qed.

Section OwnerTexts.
Context {rt : Runtime}.
Local Open Scope monad_scope.

Lemma keeps_ret :
  forall (A : Type) (Q : A -> Prop) (a : A), Q a -> keeps Q (ret a).
Proof.
  intros A Q a HQ s Hs. split; [exact Hs |]. now intros a' [= <-].
Qed.

Lemma keeps_throw :
  forall (A : Type) (Q : A -> Prop) (e : JSError), keeps Q (@throw A e).
Proof. intros A Q e s Hs. split; [exact Hs | discriminate]. Qed.

Lemma keeps_lift :
  forall (A : Type) (r : Result A), keeps (fun a => r = Ok a) (lift r).
Proof.
  intros A r s Hs. split; [exact Hs |]. now intros a H.
Qed.

Lemma keeps_gets :
  forall (A : Type) (Q : A -> Prop) (f : Store -> A),
    (forall s, canonicalStore s -> Q (f s)) -> keeps Q (gets f).
Proof.
  intros A Q f H s Hs. split; [exact Hs |]. intros a [= <-]. now apply H.
Qed.

Lemma keeps_bind :
  forall (A B : Type) (Q : A -> Prop) (R : B -> Prop)
         (c : M A) (k : A -> M B),
    keeps Q c -> (forall a, Q a -> keeps R (k a)) -> keeps R (bind c k).
Proof.
  intros A B Q R c k Hc Hk s Hs. unfold bind.
  destruct (Hc s Hs) as [H1 H2].
  destruct (c s) as [[a | e] s1]; simpl in *.
  - apply Hk; auto.
  - split; [exact H1 | discriminate].
Qed.

Lemma keeps_weaken :
  forall (A : Type) (Q Q' : A -> Prop) (c : M A),
    keeps Q c -> (forall a, Q a -> Q' a) -> keeps Q' c.
Proof.
  intros A Q Q' c Hc HQ s Hs. destruct (Hc s Hs) as [H1 H2].
  split; [exact H1 | auto].
Qed.

Lemma keeps_when :
  forall (b : bool) (c : M unit),
    keeps (fun _ => True) c -> keeps (fun _ => True) (when b c).
Proof.
  intros [|] c Hc; [exact Hc | now apply keeps_ret].
Qed.

(** A computation that only reads keeps the store. *)
Lemma keeps_read :
  forall (A : Type) (c : M A),
    (forall s, snd (c s) = s) -> keeps (fun _ => True) c.
Proof.
  intros A c H s Hs. rewrite H. split; [exact Hs | trivial].
Qed.

Lemma keeps_onUsers :
  forall f : list User -> list User,
    (forall l id, In id (map u_id (f l)) -> In id (map u_id l)) ->
    keeps (fun _ => True) (onUsers f).
Proof.
  intros f Hf s [Hu Ht]. split; [| trivial]. split; [| exact Ht].
  intros id Hin. apply Hu. exact (Hf _ _ Hin).
Qed.

Lemma keeps_onTasks :
  forall f : list Task -> list Task,
    (forall l T,
        (forall T0, In T0 l -> ownerText (assignedUser T0)) ->
        In T (f l) -> ownerText (assignedUser T)) ->
    keeps (fun _ => True) (onTasks f).
Proof.
  intros f Hf s [Hu Ht]. split; [| trivial]. split; [exact Hu |].
  intros T Hin. exact (Hf _ _ Ht Hin).
Qed.

Lemma keeps_pending :
  forall (userId : string) (g : list string -> list string),
    keeps (fun _ => True)
          (onUsers (Coll.updateOne (hasUserId userId)
                      (fun u => setPendingTasks (g (pendingTasks u)) u))).
Proof.
  intros userId g. apply keeps_onUsers. intros l id Hin.
  change (map u_id l) with (map u_id l).
  now rewrite (keys_updateOne u_id) in Hin by reflexivity.
Qed.

Lemma keeps_removeTaskFromUser :
  forall t w, keeps (fun _ => True) (removeTaskFromUser t w).
Proof.
  intros t w. unfold removeTaskFromUser.
  destruct (w =? ""); [now apply keeps_ret | apply keeps_pending].
Qed.

Lemma keeps_addTaskToUser :
  forall t w, keeps (fun _ => True) (addTaskToUser t w).
Proof.
  intros t w. unfold addTaskToUser.
  destruct (w =? ""); [now apply keeps_ret | apply keeps_pending].
Qed.

Lemma keeps_Task_save :
  forall doc : Task,
    ownerText (assignedUser doc) -> keeps (fun _ => True) (Task_save doc).
Proof.
  intros doc Hdoc s [Hu Ht]. unfold Task_save.
  destruct (negb (validTask doc)); simpl; [now split |].
  split; [| trivial]. split; [exact Hu |].
  intros T Hin. simpl in Hin. apply In_save in Hin as [-> | Hin]; auto.
Qed.

Lemma keeps_User_save :
  forall doc : User,
    canonical (u_id doc) -> keeps (fun _ => True) (User_save doc).
Proof.
  intros doc Hdoc s [Hu Ht]. unfold User_save.
  destruct (negb (validUser doc)); simpl; [now split |].
  destruct (emailTaken doc (users s)); simpl; [now split |].
  split; [| trivial]. split; [| exact Ht].
  intros id Hin. unfold userIds in Hin. simpl in Hin.
  apply in_map_iff in Hin as (U & <- & HU).
  apply In_save in HU as [-> | HU]; [exact Hdoc |].
  apply Hu. unfold userIds. now apply in_map.
Qed.

Lemma findUser_canonical :
  forall oid s, canonicalStore s -> canonicalUser (findUser oid s).
Proof.
  intros oid s [Hu _] U HU. apply Hu. unfold userIds. apply in_map.
  eapply (find_has_In u_id). exact HU.
Qed.

Lemma findTask_ownedByText :
  forall oid s T,
    canonicalStore s -> findTask oid s = Some T -> ownedByText T.
Proof.
  intros oid s T [_ Ht] HT. apply Ht. eapply (find_has_In t_id). exact HT.
Qed.

Lemma keeps_User_findByObjectId :
  forall oid, keeps canonicalUser (User_findByObjectId oid).
Proof.
  intros oid. apply keeps_gets. intros s. apply findUser_canonical.
Qed.

Lemma keeps_castId :
  forall stored id, keeps (fun _ => True) (castId stored id).
Proof. intros stored id. apply keeps_read. apply castId_store. Qed.

Lemma keeps_castIds :
  forall stored ids, keeps (fun _ => True) (castIds stored ids).
Proof. intros stored ids. apply keeps_read. apply castIds_store. Qed.

Lemma keeps_User_findById :
  forall id, keeps canonicalUser (User_findById id).
Proof.
  intros id. unfold User_findById.
  eapply keeps_bind; [apply keeps_castId | intros oid _].
  apply keeps_User_findByObjectId.
Qed.

Lemma keeps_Task_findById :
  forall id,
    keeps (fun found => forall T, found = Some T -> ownedByText T)
          (Task_findById id).
Proof.
  intros id. unfold Task_findById.
  eapply keeps_bind; [apply keeps_castId | intros oid _].
  apply keeps_gets. intros s Hs T HT.
  eapply findTask_ownedByText; eassumption.
Qed.

Lemma keeps_Task_findByObjectId :
  forall oid, keeps (fun _ => True) (Task_findByObjectId oid).
Proof. intros oid. now apply keeps_gets. Qed.

Lemma keeps_Task_findIn :
  forall ids,
    keeps (fun fetched => forall T, In T fetched -> ownedByText T)
          (Task_findIn ids).
Proof.
  intros ids. unfold Task_findIn.
  eapply keeps_bind; [apply keeps_castIds | intros oids _].
  apply keeps_gets. intros s [_ Ht] T HT.
  apply filter_In in HT as [HT _]. now apply Ht.
Qed.

Lemma keeps_ensureTasksExist :
  forall ids, keeps (fun _ => True) (ensureTasksExist ids).
Proof.
  intros ids. unfold ensureTasksExist.
  destruct (length ids =? 0)%nat; [now apply keeps_ret |].
  eapply keeps_bind; [apply keeps_Task_findIn | intros found _].
  destruct (negb _); [apply keeps_throw | now apply keeps_ret].
Qed.

Lemma keeps_ensureOwned :
  forall (userId : string) (userName : Field string) (fetched : list Task),
    canonical userId ->
    keeps (fun _ => True) (ensureOwned userId userName fetched).
Proof.
  intros userId userName fetched Hid.
  induction fetched as [| T rest IH]; simpl; [now apply keeps_ret |].
  eapply keeps_bind;
    [apply keeps_when, keeps_removeTaskFromUser | intros _ _].
  eapply keeps_bind; [| intros _ _; exact IH].
  apply keeps_Task_save. right.
  match goal with
  | |- context [if ?b then _ else _] => destruct b
  end; exact Hid.
Qed.

Lemma keeps_syncUserPendingTasks :
  forall (userDoc : User) (previousPending : list string),
    canonical (u_id userDoc) ->
    keeps (fun _ => True) (syncUserPendingTasks userDoc previousPending).
Proof.
  intros userDoc previousPending Hid. unfold syncUserPendingTasks.
  eapply keeps_bind; [| intros _ _].
  - unfold removedPass. apply keeps_when.
    eapply keeps_bind; [apply keeps_castIds | intros oids _].
    apply keeps_onTasks. intros l T Hl Hin.
    apply in_map_iff in Hin as (T0 & <- & HT0).
    destruct (_ && _); [now left | now apply Hl].
  - unfold currentPass. apply keeps_when.
    eapply keeps_bind; [apply keeps_Task_findIn | intros fetched _].
    now apply keeps_ensureOwned.
Qed.

Lemma keeps_assignTask :
  forall (taskDoc : Task) (userDoc : User),
    canonical (u_id userDoc) ->
    keeps ownedByText (assignTask taskDoc userDoc).
Proof.
  intros taskDoc userDoc Hid. unfold assignTask.
  eapply keeps_bind;
    [apply keeps_when, keeps_removeTaskFromUser | intros _ _].
  apply keeps_ret. now right.
Qed.

Lemma keeps_unassignTask :
  forall taskDoc : Task, keeps ownedByText (unassignTask taskDoc).
Proof.
  intros taskDoc. unfold unassignTask.
  eapply keeps_bind;
    [apply keeps_when, keeps_removeTaskFromUser | intros _ _].
  apply keeps_ret. now left.
Qed.

Lemma keeps_findAssignedUser :
  forall id, keeps canonicalUser (findAssignedUser id).
Proof.
  intros id. unfold findAssignedUser.
  destruct (negb (id =? ""));
    [| apply keeps_ret; intros U; discriminate].
  destruct (negb (ObjectId_isValid id)); [apply keeps_throw |].
  eapply keeps_bind; [apply keeps_User_findById | intros userDoc HU].
  destruct userDoc as [U |]; [now apply keeps_ret | apply keeps_throw].
Qed.

(** The owner a handler gives a task: assigned to the user it found, or
    unassigned. *)
Lemma keeps_owner_choice :
  forall (task : Task) (userDoc : option User) (other : M Task),
    canonicalUser userDoc ->
    keeps ownedByText other ->
    keeps ownedByText
          (match userDoc with
           | Some user => assignTask task user
           | None => other
           end).
Proof.
  intros task [U |] other HU Hother; [| exact Hother].
  apply keeps_assignTask. now apply HU.
Qed.

Lemma keeps_tryCatch :
  forall (body : M Response) (onError : JSError -> Response) (s : Store),
    keeps (fun _ => True) body ->
    canonicalStore s -> canonicalStore (snd (tryCatch body onError s)).
Proof.
  intros body onError s Hbody Hs. destruct (Hbody s Hs) as [H _].
  unfold tryCatch. now destruct (body s) as [[r | e] s1].
Qed.

(** Every request, completed or refused, keeps the store canonical. *)
Lemma handle_canonicalStore :
  forall (r : Request) (s : Store),
    canonicalNewId r -> canonicalStore s -> canonicalStore (snd (handle r s)).
Proof.
  intros r s Hnew Hs. destruct r; simpl in *; apply keeps_tryCatch; trivial.
  - (* POST /users *)
    eapply keeps_bind; [apply keeps_lift | intros ids _].
    eapply keeps_bind; [apply keeps_ensureTasksExist | intros _ _].
    eapply keeps_bind; [now apply keeps_User_save | intros _ _].
    eapply keeps_bind;
      [now apply keeps_syncUserPendingTasks | intros _ _].
    eapply keeps_bind; [apply keeps_User_findByObjectId | intros c _].
    now apply keeps_ret.
  - (* PUT /users/:id *)
    destruct (negb (ObjectId_isValid userId)); [apply keeps_throw |].
    eapply keeps_bind; [apply keeps_User_findById | intros found HU].
    destruct found as [U |]; [| apply keeps_throw].
    specialize (HU U eq_refl).
    eapply keeps_bind; [apply keeps_lift | intros ids _].
    eapply keeps_bind; [apply keeps_ensureTasksExist | intros _ _].
    eapply keeps_bind; [now apply keeps_User_save | intros _ _].
    eapply keeps_bind;
      [now apply keeps_syncUserPendingTasks | intros _ _].
    eapply keeps_bind; [apply keeps_User_findById | intros c _].
    now apply keeps_ret.
  - (* DELETE /users/:id *)
    destruct (negb (ObjectId_isValid userId)); [apply keeps_throw |].
    eapply keeps_bind; [apply keeps_User_findById | intros found _].
    destruct found as [U |]; [| apply keeps_throw].
    eapply keeps_bind; [| intros _ _].
    { apply keeps_onTasks. intros l T Hl Hin.
      apply in_map_iff in Hin as (T0 & <- & HT0).
      destruct (_ =? _); [now left | now apply Hl]. }
    eapply keeps_bind; [apply keeps_castId | intros oid _].
    eapply keeps_bind; [| intros _ _; now apply keeps_ret].
    apply keeps_onUsers. intros l id Hin.
    exact (keys_deleteOne_incl u_id _ _ _ Hin).
  - (* POST /tasks *)
    eapply keeps_bind; [apply keeps_findAssignedUser | intros userDoc HU].
    eapply keeps_bind; [apply keeps_lift | intros dl _].
    eapply keeps_bind.
    { apply keeps_owner_choice; [exact HU |]. apply keeps_ret. now left. }
    intros task Htask.
    eapply keeps_bind; [now apply keeps_Task_save | intros _ _].
    eapply keeps_bind;
      [apply keeps_when, keeps_addTaskToUser | intros _ _].
    eapply keeps_bind; [apply keeps_Task_findByObjectId | intros c _].
    now apply keeps_ret.
  - (* PUT /tasks/:id *)
    destruct (negb (ObjectId_isValid taskId)); [apply keeps_throw |].
    eapply keeps_bind; [apply keeps_Task_findById | intros found _].
    destruct found as [T0 |]; [| apply keeps_throw].
    eapply keeps_bind; [apply keeps_lift | intros dl _].
    eapply keeps_bind; [apply keeps_findAssignedUser | intros userDoc HU].
    eapply keeps_bind.
    { apply keeps_owner_choice; [exact HU | apply keeps_unassignTask]. }
    intros task Htask.
    eapply keeps_bind; [now apply keeps_Task_save | intros _ _].
    eapply keeps_bind;
      [apply keeps_when, keeps_removeTaskFromUser | intros _ _].
    eapply keeps_bind; [| intros _ _].
    { apply keeps_when. destruct (completed task);
        [apply keeps_removeTaskFromUser | apply keeps_addTaskToUser]. }
    eapply keeps_bind; [apply keeps_Task_findById | intros c _].
    now apply keeps_ret.
  - (* DELETE /tasks/:id *)
    destruct (negb (ObjectId_isValid taskId)); [apply keeps_throw |].
    eapply keeps_bind; [apply keeps_Task_findById | intros found _].
    destruct found as [T0 |]; [| apply keeps_throw].
    eapply keeps_bind; [apply keeps_castId | intros oid _].
    eapply keeps_bind; [| intros _ _].
    { apply keeps_onTasks. intros l T Hl Hin. apply Hl.
      exact (In_deleteOne _ _ _ _ Hin). }
    eapply keeps_bind;
      [apply keeps_when, keeps_removeTaskFromUser | intros _ _].
    now apply keeps_ret.
Qed.

Lemma served_canonicalStore :
  forall s, served s -> canonicalStore s.
Proof.
  intros s H. induction H as [| s r _ IH Hnew].
  - split; [intros id [] | intros T []].
  - now apply handle_canonicalStore.
Qed.

(** X25.  The texts of owners.  In every store the service passes
    through, whatever the requests hold (ids in any spelling, payloads
    that are refused) and whether they complete or stop at an error after
    a first write, every task's [assignedUser] is empty or the canonical
    text of an ObjectId, which the cast of a filter on [_id] leaves as it
    is: for the owner of a stored task [removeTaskFromUser] and
    [addTaskToUser] look the user up under the very text they are given.
    The store is taken to give new users canonical ids. *)
Theorem owners_are_object_id_texts :
  forall (s : Store) (T : Task),
    served s ->
    In T (tasks s) ->
    assignedUser T <> "" ->
    canonical (assignedUser T)
    /\ toObjectId (userIds s) (assignedUser T) = Some (assignedUser T).
Proof.
  intros s T Hs HT Hne.
  destruct (served_canonicalStore s Hs) as [_ Ht].
  destruct (Ht T HT) as [Hempty | Hcanon]; [contradiction |].
  split; [exact Hcanon |].
  unfold toObjectId.
  destruct (Coll.includes (userIds s) (assignedUser T));
    [reflexivity | exact Hcanon].
Qed.

End OwnerTexts.

(** X25 after four requests: Alice is created; the task idC is created
    for her, named by her id in upper case; Alice is deleted by a request
    that writes her id in upper case, so that the task keeps pointing at
    her; a task update with no name is refused.  The owner of the task is
    still the text the store wrote for Alice. *)
Lemma owners_are_object_id_texts_witness :
  let s :=
    run (rt := Demo.runtime)
        [createAlice;
         CreateTask Demo.idC (Demo.taskBody (JStr Demo.idA'));
         DeleteUser Demo.idA';
         UpdateTask Demo.idC
           (mkTaskBody JUndefined JUndefined JUndefined JUndefined
                       JUndefined)]
        emptyStore in
  let T := Demo.task Demo.idC false Demo.idA (Value "Alice") in
  s = mkStore [] [T]
  /\ canonical (rt := Demo.runtime) (assignedUser T)
  /\ toObjectId (rt := Demo.runtime) (userIds s) (assignedUser T)
     = Some (assignedUser T).
Proof.
  intros s T. split; [reflexivity |].
  apply (owners_are_object_id_texts (rt := Demo.runtime) s T).
  - subst s.
    change (served (rt := Demo.runtime)
              (snd (handle (rt := Demo.runtime)
                      (UpdateTask Demo.idC
                         (mkTaskBody JUndefined JUndefined JUndefined
                                     JUndefined JUndefined))
                 (snd (handle (rt := Demo.runtime) (DeleteUser Demo.idA')
                    (snd (handle (rt := Demo.runtime)
                            (CreateTask Demo.idC
                               (Demo.taskBody (JStr Demo.idA')))
                       (snd (handle (rt := Demo.runtime) createAlice
                               emptyStore))))))))).
    repeat (apply (served_step (rt := Demo.runtime));
            [| exact I || reflexivity]).
    apply served_empty.
  - simpl. tauto.
  - discriminate.
Defined.
